(** * DynamicBackground: a crossfading blurred-cover-art shader background

    A shallow embedding of [DBG_ThreeShaders.ts] (the shader uniform set) and
    of the [DynamicBackground] class (the background controller), followed by
    the properties of the specification that concern them.

    Conventions of the embedding.
    - A JavaScript [number] is a rational ([Q]); [!==] on numbers is the
      negation of [Qeq_bool].  Not-a-number and infinities are not modelled.
    - An object with identity (canvas, texture) carries a numeric identifier
      drawn from an allocation counter.
    - The class is single threaded.  Every piece of code that runs without
      yielding (a public method up to its first [await], the code after an
      [await], a timer callback, an animation-frame callback, an observer
      callback) is one function on the instance state; the host environment
      chooses which one runs next ([Event], [step]).
    - Calls into the renderer library and the host that the specification
      talks about are recorded in an effect log, newest first. *)

From stdpp Require Import gmap strings list pretty.
From Stdlib Require Import Ascii String QArith Qround Qabs.

Open Scope Q_scope.

(** ** Numbers *)

Definition Math_max (a b : Q) : Q := if Qle_bool a b then b else a.
Definition Math_min (a b : Q) : Q := if Qle_bool a b then a else b.
Definition Math_ceil (a : Q) : Q := inject_Z (Qceiling a).

(** [a !== b] on numbers. *)
Definition num_neq (a b : Q) : bool := negb (Qeq_bool a b).

(** [x ?? d] *)
Definition nullish {A} (x : option A) (d : A) : A :=
  match x with Some v => v | None => d end.

(** ** Host objects *)

(** What was drawn into an offscreen canvas: nothing, the circular crop of a
    decoded image, or that crop drawn through a blur and hue-rotate filter. *)
Inductive Paint :=
  | Blank
  | CircleCrop (src : string)
  | Blurred (src : string) (blur hue : Q).

Record OffscreenCanvas := {
  canvas_id : nat;
  canvas_width : Q;
  canvas_height : Q;
  canvas_paint : Paint
}.

Record Texture := {
  texture_id : nat;
  texture_image : OffscreenCanvas
}.

(** A slot that can hold [null], [undefined] or an object. *)
Inductive Nullable (A : Type) :=
  | JNull
  | JUndefined
  | JObj (a : A).
Arguments JNull {A}.
Arguments JUndefined {A}.
Arguments JObj {A} a.

Definition truthy {A} (x : Nullable A) : bool :=
  match x with JObj _ => true | _ => false end.

(** ** DBG_ThreeShaders.ts *)

Module Shaders.

(** The uniform declarations, as in the source text of the shader. *)
Definition Uniforms : string :=
"
uniform float Time;
uniform float RotationSpeed;
uniform sampler2D BlurredCoverArt;
uniform sampler2D NewBlurredCoverArt;
uniform float TransitionProgress;

uniform vec2 BackgroundCircleOrigin;
uniform float BackgroundCircleRadius;

uniform vec2 CenterCircleOrigin;
uniform float CenterCircleRadius;

uniform vec2 LeftCircleOrigin;
uniform float LeftCircleRadius;

uniform vec2 RightCircleOrigin;
uniform float RightCircleRadius;
".

(** *** The regular expression [uniform\s+(\w+)\s+(\w+);] *)

Definition is_space (c : ascii) : bool :=
  let n := nat_of_ascii c in
  (n =? 32)%nat || ((9 <=? n)%nat && (n <=? 13)%nat).

Definition is_word (c : ascii) : bool :=
  let n := nat_of_ascii c in
  ((48 <=? n)%nat && (n <=? 57)%nat)
  || ((65 <=? n)%nat && (n <=? 90)%nat)
  || ((97 <=? n)%nat && (n <=? 122)%nat)
  || (n =? 95)%nat.

(** The longest prefix of characters of one class, and what follows it.  The
    two classes are disjoint and alternate in the expression, so the greedy
    match is the only one. *)
Fixpoint span (p : ascii -> bool) (l : list ascii) : list ascii * list ascii :=
  match l with
  | [] => ([], [])
  | c :: r =>
      if p c then let '(a, b) := span p r in (c :: a, b) else ([], l)
  end.

Fixpoint strip_prefix (p l : list ascii) : option (list ascii) :=
  match p, l with
  | [], _ => Some l
  | _ :: _, [] => None
  | a :: p', b :: l' => if Ascii.eqb a b then strip_prefix p' l' else None
  end.

Definition some_of (p : ascii -> bool) (l : list ascii)
  : option (list ascii * list ascii) :=
  match span p l with
  | ([], _) => None
  | r => Some r
  end.

(** One match attempted at the head of [l]: the two groups and the rest. *)
Definition match_here (l : list ascii)
  : option (string * string * list ascii) :=
  l1 ← strip_prefix (list_ascii_of_string "uniform") l;
  '(_, l2) ← some_of is_space l1;
  '(ty, l3) ← some_of is_word l2;
  '(_, l4) ← some_of is_space l3;
  '(nm, l5) ← some_of is_word l4;
  match l5 with
  | c :: rest =>
      if Ascii.eqb c ";"%char
      then Some (string_of_list_ascii ty, string_of_list_ascii nm, rest)
      else None
  | [] => None
  end.

(** [matchAll]: the matches from left to right, without overlap. *)
Fixpoint matchAll (fuel : nat) (l : list ascii) : list (string * string) :=
  match fuel with
  | O => []
  | S fuel' =>
      match match_here l with
      | Some (ty, nm, rest) => (ty, nm) :: matchAll fuel' rest
      | None =>
          match l with
          | [] => []
          | _ :: r => matchAll fuel' r
          end
      end
  end.

(** [Map.set] on a map that remembers insertion order. *)
Fixpoint Map_set (k v : string) (m : list (string * string))
  : list (string * string) :=
  match m with
  | [] => [(k, v)]
  | (k', v') :: r =>
      if String.eqb k k' then (k, v) :: r else (k', v') :: Map_set k v r
  end.

(** [ShaderUniformStructure]: uniform name to uniform type. *)
Definition ShaderUniformStructure : list (string * string) :=
  let chars := list_ascii_of_string Uniforms in
  fold_left (fun m '(uniformType, uniformName) => Map_set uniformName uniformType m)
            (matchAll (S (List.length chars)) chars) [].

(** The value held by one uniform. *)
Inductive UniformValue :=
  | VNumber (q : Q)
  | VVector2 (x y : Q)
  | VTexture (t : Nullable Texture).

(** [GetShaderUniforms]: the untyped record built from the structure.  The
    placeholder canvas and texture take the next two object identifiers. *)
Definition default_uniform (next : nat) (uniformName uniformType : string)
  : option UniformValue :=
  if String.eqb uniformType "float" then
    if String.eqb uniformName "RotationSpeed" then Some (VNumber 1)
    else if String.eqb uniformName "TransitionProgress" then Some (VNumber 0)
    else Some (VNumber 0)
  else if String.eqb uniformType "vec2" then Some (VVector2 0 0)
  else if String.eqb uniformType "sampler2D" then
    if String.eqb uniformName "NewBlurredCoverArt" then
      let tempCanvas :=
        {| canvas_id := next; canvas_width := 1; canvas_height := 1;
           canvas_paint := Blank |} in
      let tempTexture :=
        {| texture_id := S next; texture_image := tempCanvas |} in
      Some (VTexture (JObj tempTexture))
    else Some (VTexture JNull)
  else None.

Definition GetShaderUniformsRecord (next : nat) : gmap string UniformValue :=
  fold_left
    (fun uniforms '(uniformName, uniformType) =>
       match default_uniform next uniformName uniformType with
       | Some v => <[uniformName := v]> uniforms
       | None => uniforms
       end)
    ShaderUniformStructure ∅.

(** The typed view [ShaderUniforms] of that record. *)
Record ShaderUniforms := {
  Time : Q;
  RotationSpeed : Q;
  BlurredCoverArt : Nullable Texture;
  NewBlurredCoverArt : Nullable Texture;
  TransitionProgress : Q;
  BackgroundCircleOrigin : Q * Q;
  BackgroundCircleRadius : Q;
  CenterCircleOrigin : Q * Q;
  CenterCircleRadius : Q;
  LeftCircleOrigin : Q * Q;
  LeftCircleRadius : Q;
  RightCircleOrigin : Q * Q;
  RightCircleRadius : Q
}.

Definition get_number (r : gmap string UniformValue) (k : string) : option Q :=
  match r !! k with Some (VNumber q) => Some q | _ => None end.
Definition get_vector (r : gmap string UniformValue) (k : string)
  : option (Q * Q) :=
  match r !! k with Some (VVector2 x y) => Some (x, y) | _ => None end.
Definition get_texture (r : gmap string UniformValue) (k : string)
  : option (Nullable Texture) :=
  match r !! k with Some (VTexture t) => Some t | _ => None end.

(** [uniforms as ShaderUniforms] *)
Definition as_ShaderUniforms (r : gmap string UniformValue)
  : option ShaderUniforms :=
  time ← get_number r "Time";
  speed ← get_number r "RotationSpeed";
  cur ← get_texture r "BlurredCoverArt";
  new ← get_texture r "NewBlurredCoverArt";
  progress ← get_number r "TransitionProgress";
  bo ← get_vector r "BackgroundCircleOrigin";
  br ← get_number r "BackgroundCircleRadius";
  co ← get_vector r "CenterCircleOrigin";
  cr ← get_number r "CenterCircleRadius";
  lo ← get_vector r "LeftCircleOrigin";
  lr ← get_number r "LeftCircleRadius";
  ro ← get_vector r "RightCircleOrigin";
  rr ← get_number r "RightCircleRadius";
  Some {| Time := time; RotationSpeed := speed; BlurredCoverArt := cur;
          NewBlurredCoverArt := new; TransitionProgress := progress;
          BackgroundCircleOrigin := bo; BackgroundCircleRadius := br;
          CenterCircleOrigin := co; CenterCircleRadius := cr;
          LeftCircleOrigin := lo; LeftCircleRadius := lr;
          RightCircleOrigin := ro; RightCircleRadius := rr |}.

Definition GetShaderUniforms (next : nat) : option ShaderUniforms :=
  as_ShaderUniforms (GetShaderUniformsRecord next).

End Shaders.

Section UniformUpdates.
Import Shaders.
Definition set_Time v (u : ShaderUniforms) : ShaderUniforms :=
  {| Time := v; RotationSpeed := RotationSpeed u;
     BlurredCoverArt := BlurredCoverArt u;
     NewBlurredCoverArt := NewBlurredCoverArt u;
     TransitionProgress := TransitionProgress u;
     BackgroundCircleOrigin := BackgroundCircleOrigin u;
     BackgroundCircleRadius := BackgroundCircleRadius u;
     CenterCircleOrigin := CenterCircleOrigin u;
     CenterCircleRadius := CenterCircleRadius u;
     LeftCircleOrigin := LeftCircleOrigin u;
     LeftCircleRadius := LeftCircleRadius u;
     RightCircleOrigin := RightCircleOrigin u;
     RightCircleRadius := RightCircleRadius u |}.
Definition set_RotationSpeed v (u : ShaderUniforms) : ShaderUniforms :=
  {| Time := Time u; RotationSpeed := v; BlurredCoverArt := BlurredCoverArt u;
     NewBlurredCoverArt := NewBlurredCoverArt u;
     TransitionProgress := TransitionProgress u;
     BackgroundCircleOrigin := BackgroundCircleOrigin u;
     BackgroundCircleRadius := BackgroundCircleRadius u;
     CenterCircleOrigin := CenterCircleOrigin u;
     CenterCircleRadius := CenterCircleRadius u;
     LeftCircleOrigin := LeftCircleOrigin u;
     LeftCircleRadius := LeftCircleRadius u;
     RightCircleOrigin := RightCircleOrigin u;
     RightCircleRadius := RightCircleRadius u |}.
Definition set_BlurredCoverArt v (u : ShaderUniforms) : ShaderUniforms :=
  {| Time := Time u; RotationSpeed := RotationSpeed u; BlurredCoverArt := v;
     NewBlurredCoverArt := NewBlurredCoverArt u;
     TransitionProgress := TransitionProgress u;
     BackgroundCircleOrigin := BackgroundCircleOrigin u;
     BackgroundCircleRadius := BackgroundCircleRadius u;
     CenterCircleOrigin := CenterCircleOrigin u;
     CenterCircleRadius := CenterCircleRadius u;
     LeftCircleOrigin := LeftCircleOrigin u;
     LeftCircleRadius := LeftCircleRadius u;
     RightCircleOrigin := RightCircleOrigin u;
     RightCircleRadius := RightCircleRadius u |}.
Definition set_NewBlurredCoverArt v (u : ShaderUniforms) : ShaderUniforms :=
  {| Time := Time u; RotationSpeed := RotationSpeed u;
     BlurredCoverArt := BlurredCoverArt u; NewBlurredCoverArt := v;
     TransitionProgress := TransitionProgress u;
     BackgroundCircleOrigin := BackgroundCircleOrigin u;
     BackgroundCircleRadius := BackgroundCircleRadius u;
     CenterCircleOrigin := CenterCircleOrigin u;
     CenterCircleRadius := CenterCircleRadius u;
     LeftCircleOrigin := LeftCircleOrigin u;
     LeftCircleRadius := LeftCircleRadius u;
     RightCircleOrigin := RightCircleOrigin u;
     RightCircleRadius := RightCircleRadius u |}.
Definition set_TransitionProgress v (u : ShaderUniforms) : ShaderUniforms :=
  {| Time := Time u; RotationSpeed := RotationSpeed u;
     BlurredCoverArt := BlurredCoverArt u;
     NewBlurredCoverArt := NewBlurredCoverArt u; TransitionProgress := v;
     BackgroundCircleOrigin := BackgroundCircleOrigin u;
     BackgroundCircleRadius := BackgroundCircleRadius u;
     CenterCircleOrigin := CenterCircleOrigin u;
     CenterCircleRadius := CenterCircleRadius u;
     LeftCircleOrigin := LeftCircleOrigin u;
     LeftCircleRadius := LeftCircleRadius u;
     RightCircleOrigin := RightCircleOrigin u;
     RightCircleRadius := RightCircleRadius u |}.
End UniformUpdates.

Module Dispose.
Import Shaders.

(** [DisposeShaderUniforms]: the new uniform values and the textures whose
    [dispose] was called, the one of the current slot and the one of the
    incoming slot.  ([uniforms] itself is never undefined in this program, so
    the first guard is not taken.) *)
Definition DisposeShaderUniforms (u : ShaderUniforms)
  : ShaderUniforms * (option Texture * option Texture) :=
  let '(u, d1) :=
    match BlurredCoverArt u with
    | JObj t => (set_BlurredCoverArt JUndefined u, Some t)
    | _ => (u, None)
    end in
  let '(u, d2) :=
    match NewBlurredCoverArt u with
    | JObj t => (set_NewBlurredCoverArt JNull u, Some t)
    | _ => (u, None)
    end in
  let u := set_TransitionProgress 0 u in
  ({| Time := Time u; RotationSpeed := RotationSpeed u;
      BlurredCoverArt := BlurredCoverArt u;
      NewBlurredCoverArt := NewBlurredCoverArt u;
      TransitionProgress := TransitionProgress u;
      BackgroundCircleOrigin := (0, 0);
      BackgroundCircleRadius := BackgroundCircleRadius u;
      CenterCircleOrigin := (0, 0);
      CenterCircleRadius := CenterCircleRadius u;
      LeftCircleOrigin := (0, 0);
      LeftCircleRadius := LeftCircleRadius u;
      RightCircleOrigin := (0, 0);
      RightCircleRadius := RightCircleRadius u |},
   (d1, d2)).

End Dispose.

Export Shaders.
Export Dispose.

(** ** The resource tracker *)

(** The disposer closures this class hands to its tracker, one constructor
    per closure of the source. *)
Inductive Cleanup :=
  | CleanGeometry
  | CleanRenderer
  | CleanMaterial
  | CleanTexture
  | CleanUniforms
  | CleanAnimationFrame
  | CleanDom
  | CleanCache
  | CleanFallback
  | CleanResizeObserver
  | CleanTransition (sid : nat).

(** Modelled from the spec: the resource tracker ([Maid], imported from
    another package) with its four operations [register_cleanup]
    ([Give]), [is_destroyed] ([IsDestroyed]), [destroy] ([Destroy], below,
    once the closures have a meaning) and [cancel_cleanup] ([Clean]).  The
    specification does not say in which order [destroy] runs the disposers,
    nor whether [cancel_cleanup] runs the disposer it removes: the order is
    the order of [Items], which is arbitrary, and [RunsOnClean] records the
    second choice, so that a statement about every state covers both.  The
    token of a registration is a key no registered disposer has. *)
Record Maid := {
  Destroyed : bool;
  Items : list (nat * Cleanup);
  RunsOnClean : bool
}.

Definition IsDestroyed (m : Maid) : bool := Destroyed m.

Definition fresh_key (items : list (nat * Cleanup)) : nat :=
  S (list_max (map fst items)).

Definition Give (c : Cleanup) (m : Maid) : Maid * nat :=
  let key := fresh_key (Items m) in
  ({| Destroyed := Destroyed m; Items := Items m ++ [(key, c)];
      RunsOnClean := RunsOnClean m |},
   key).

Definition new_Maid (runsOnClean : bool) : Maid :=
  {| Destroyed := false; Items := []; RunsOnClean := runsOnClean |}.

(** ** The instance *)

Record Renderer := {
  contextLost : bool;
  rendererSize : option (Q * Q);
  pixelRatio : option Q
}.

Inductive Material := ShaderMaterial.

(** The canvas element of the renderer, with the properties the class
    attaches to it. *)
Record Container := {
  renderer : option Renderer;
  uniforms : ShaderUniforms;
  texture : option Texture;
  material : option Material;
  animationFrameId : option positive;
  parentElement : option nat;
  data_cover_id : option string
}.

(** One call of [animateTransition]: the variables its closures share, the
    timer that is pending for it, and whether its promise has resolved. *)
Record Session := {
  newTexture : Texture;
  newCoverArtUrl : string;
  stepDuration : Q;
  currentStep : nat;
  canceled : bool;
  cleanupKey : option nat;
  scheduled : option Q;
  resolved : bool
}.

Definition totalSteps : nat := 10.

(** The promise of [getBlurredCoverArt] an [Update] is waiting for. *)
Inductive Stage :=
  | Decoding
  | Decoded (c : OffscreenCanvas).

(** One call of [Update] that reached an [await]. *)
Inductive UpdateStatus :=
  | AwaitingCover (first : bool) (image : string) (hue : Q) (st : Stage)
  | Animating (sid : nat)
  | Fulfilled
  | Rejected.

Inductive Effect :=
  | Render (u : ShaderUniforms)
  | TextureAlloc (id : nat)
  | CanvasAlloc (id : nat)
  | CacheLookup (url : string)
  | ImageDecode (url : string) (crossOrigin : bool)
  | TextureDispose (id : nat)
  | MaterialDispose
  | GeometryDispose
  | RendererDispose.

Record DynamicBackground := {
  container : Container;
  maid : Maid;
  resizeObserver : option nat;
  blurAmount : Q;
  transitionDuration : Q;
  rotationSpeed : Q;
  currentImage : option string;
  currentPlaceholderHueShift : Q;
  blurredCoverArts : gmap string OffscreenCanvas;
  (* closures and promises alive in the event loop *)
  sessions : list Session;
  updates : list UpdateStatus;
  (* the host: pending animation frames, counters, clock, screen *)
  frames : list positive;
  nextFrame : positive;
  nextObject : nat;
  performance_now : Q;
  devicePixelRatio : Q;
  log : list Effect
}.

Section FieldUpdates.
Definition set_renderer v (c : Container) : Container :=
  {| renderer := v; uniforms := uniforms c; texture := texture c;
     material := material c; animationFrameId := animationFrameId c;
     parentElement := parentElement c; data_cover_id := data_cover_id c |}.
Definition set_uniforms v (c : Container) : Container :=
  {| renderer := renderer c; uniforms := v; texture := texture c;
     material := material c; animationFrameId := animationFrameId c;
     parentElement := parentElement c; data_cover_id := data_cover_id c |}.
Definition set_texture v (c : Container) : Container :=
  {| renderer := renderer c; uniforms := uniforms c; texture := v;
     material := material c; animationFrameId := animationFrameId c;
     parentElement := parentElement c; data_cover_id := data_cover_id c |}.
Definition set_material v (c : Container) : Container :=
  {| renderer := renderer c; uniforms := uniforms c; texture := texture c;
     material := v; animationFrameId := animationFrameId c;
     parentElement := parentElement c; data_cover_id := data_cover_id c |}.
Definition set_animationFrameId v (c : Container) : Container :=
  {| renderer := renderer c; uniforms := uniforms c; texture := texture c;
     material := material c; animationFrameId := v;
     parentElement := parentElement c; data_cover_id := data_cover_id c |}.
Definition set_parentElement v (c : Container) : Container :=
  {| renderer := renderer c; uniforms := uniforms c; texture := texture c;
     material := material c; animationFrameId := animationFrameId c;
     parentElement := v; data_cover_id := data_cover_id c |}.
Definition set_data_cover_id v (c : Container) : Container :=
  {| renderer := renderer c; uniforms := uniforms c; texture := texture c;
     material := material c; animationFrameId := animationFrameId c;
     parentElement := parentElement c; data_cover_id := v |}.
Definition set_currentStep v (a : Session) : Session :=
  {| newTexture := newTexture a; newCoverArtUrl := newCoverArtUrl a;
     stepDuration := stepDuration a; currentStep := v; canceled := canceled a;
     cleanupKey := cleanupKey a; scheduled := scheduled a;
     resolved := resolved a |}.
Definition set_canceled v (a : Session) : Session :=
  {| newTexture := newTexture a; newCoverArtUrl := newCoverArtUrl a;
     stepDuration := stepDuration a; currentStep := currentStep a;
     canceled := v; cleanupKey := cleanupKey a; scheduled := scheduled a;
     resolved := resolved a |}.
Definition set_scheduled v (a : Session) : Session :=
  {| newTexture := newTexture a; newCoverArtUrl := newCoverArtUrl a;
     stepDuration := stepDuration a; currentStep := currentStep a;
     canceled := canceled a; cleanupKey := cleanupKey a; scheduled := v;
     resolved := resolved a |}.
Definition set_resolved v (a : Session) : Session :=
  {| newTexture := newTexture a; newCoverArtUrl := newCoverArtUrl a;
     stepDuration := stepDuration a; currentStep := currentStep a;
     canceled := canceled a; cleanupKey := cleanupKey a;
     scheduled := scheduled a; resolved := v |}.
Definition set_container v (s : DynamicBackground) : DynamicBackground :=
  {| container := v; maid := maid s; resizeObserver := resizeObserver s;
     blurAmount := blurAmount s; transitionDuration := transitionDuration s;
     rotationSpeed := rotationSpeed s; currentImage := currentImage s;
     currentPlaceholderHueShift := currentPlaceholderHueShift s;
     blurredCoverArts := blurredCoverArts s; sessions := sessions s;
     updates := updates s; frames := frames s; nextFrame := nextFrame s;
     nextObject := nextObject s; performance_now := performance_now s;
     devicePixelRatio := devicePixelRatio s; log := log s |}.
Definition set_maid v (s : DynamicBackground) : DynamicBackground :=
  {| container := container s; maid := v; resizeObserver := resizeObserver s;
     blurAmount := blurAmount s; transitionDuration := transitionDuration s;
     rotationSpeed := rotationSpeed s; currentImage := currentImage s;
     currentPlaceholderHueShift := currentPlaceholderHueShift s;
     blurredCoverArts := blurredCoverArts s; sessions := sessions s;
     updates := updates s; frames := frames s; nextFrame := nextFrame s;
     nextObject := nextObject s; performance_now := performance_now s;
     devicePixelRatio := devicePixelRatio s; log := log s |}.
Definition set_resizeObserver v (s : DynamicBackground) : DynamicBackground :=
  {| container := container s; maid := maid s; resizeObserver := v;
     blurAmount := blurAmount s; transitionDuration := transitionDuration s;
     rotationSpeed := rotationSpeed s; currentImage := currentImage s;
     currentPlaceholderHueShift := currentPlaceholderHueShift s;
     blurredCoverArts := blurredCoverArts s; sessions := sessions s;
     updates := updates s; frames := frames s; nextFrame := nextFrame s;
     nextObject := nextObject s; performance_now := performance_now s;
     devicePixelRatio := devicePixelRatio s; log := log s |}.
Definition set_blurAmount v (s : DynamicBackground) : DynamicBackground :=
  {| container := container s; maid := maid s;
     resizeObserver := resizeObserver s; blurAmount := v;
     transitionDuration := transitionDuration s;
     rotationSpeed := rotationSpeed s; currentImage := currentImage s;
     currentPlaceholderHueShift := currentPlaceholderHueShift s;
     blurredCoverArts := blurredCoverArts s; sessions := sessions s;
     updates := updates s; frames := frames s; nextFrame := nextFrame s;
     nextObject := nextObject s; performance_now := performance_now s;
     devicePixelRatio := devicePixelRatio s; log := log s |}.
Definition set_rotationSpeed v (s : DynamicBackground) : DynamicBackground :=
  {| container := container s; maid := maid s;
     resizeObserver := resizeObserver s; blurAmount := blurAmount s;
     transitionDuration := transitionDuration s; rotationSpeed := v;
     currentImage := currentImage s;
     currentPlaceholderHueShift := currentPlaceholderHueShift s;
     blurredCoverArts := blurredCoverArts s; sessions := sessions s;
     updates := updates s; frames := frames s; nextFrame := nextFrame s;
     nextObject := nextObject s; performance_now := performance_now s;
     devicePixelRatio := devicePixelRatio s; log := log s |}.
Definition set_currentImage v (s : DynamicBackground) : DynamicBackground :=
  {| container := container s; maid := maid s;
     resizeObserver := resizeObserver s; blurAmount := blurAmount s;
     transitionDuration := transitionDuration s;
     rotationSpeed := rotationSpeed s; currentImage := v;
     currentPlaceholderHueShift := currentPlaceholderHueShift s;
     blurredCoverArts := blurredCoverArts s; sessions := sessions s;
     updates := updates s; frames := frames s; nextFrame := nextFrame s;
     nextObject := nextObject s; performance_now := performance_now s;
     devicePixelRatio := devicePixelRatio s; log := log s |}.
Definition set_currentPlaceholderHueShift v (s : DynamicBackground) : DynamicBackground :=
  {| container := container s; maid := maid s;
     resizeObserver := resizeObserver s; blurAmount := blurAmount s;
     transitionDuration := transitionDuration s;
     rotationSpeed := rotationSpeed s; currentImage := currentImage s;
     currentPlaceholderHueShift := v; blurredCoverArts := blurredCoverArts s;
     sessions := sessions s; updates := updates s; frames := frames s;
     nextFrame := nextFrame s; nextObject := nextObject s;
     performance_now := performance_now s;
     devicePixelRatio := devicePixelRatio s; log := log s |}.
Definition set_blurredCoverArts v (s : DynamicBackground) : DynamicBackground :=
  {| container := container s; maid := maid s;
     resizeObserver := resizeObserver s; blurAmount := blurAmount s;
     transitionDuration := transitionDuration s;
     rotationSpeed := rotationSpeed s; currentImage := currentImage s;
     currentPlaceholderHueShift := currentPlaceholderHueShift s;
     blurredCoverArts := v; sessions := sessions s; updates := updates s;
     frames := frames s; nextFrame := nextFrame s; nextObject := nextObject s;
     performance_now := performance_now s;
     devicePixelRatio := devicePixelRatio s; log := log s |}.
Definition set_sessions v (s : DynamicBackground) : DynamicBackground :=
  {| container := container s; maid := maid s;
     resizeObserver := resizeObserver s; blurAmount := blurAmount s;
     transitionDuration := transitionDuration s;
     rotationSpeed := rotationSpeed s; currentImage := currentImage s;
     currentPlaceholderHueShift := currentPlaceholderHueShift s;
     blurredCoverArts := blurredCoverArts s; sessions := v;
     updates := updates s; frames := frames s; nextFrame := nextFrame s;
     nextObject := nextObject s; performance_now := performance_now s;
     devicePixelRatio := devicePixelRatio s; log := log s |}.
Definition set_updates v (s : DynamicBackground) : DynamicBackground :=
  {| container := container s; maid := maid s;
     resizeObserver := resizeObserver s; blurAmount := blurAmount s;
     transitionDuration := transitionDuration s;
     rotationSpeed := rotationSpeed s; currentImage := currentImage s;
     currentPlaceholderHueShift := currentPlaceholderHueShift s;
     blurredCoverArts := blurredCoverArts s; sessions := sessions s;
     updates := v; frames := frames s; nextFrame := nextFrame s;
     nextObject := nextObject s; performance_now := performance_now s;
     devicePixelRatio := devicePixelRatio s; log := log s |}.
Definition set_frames v (s : DynamicBackground) : DynamicBackground :=
  {| container := container s; maid := maid s;
     resizeObserver := resizeObserver s; blurAmount := blurAmount s;
     transitionDuration := transitionDuration s;
     rotationSpeed := rotationSpeed s; currentImage := currentImage s;
     currentPlaceholderHueShift := currentPlaceholderHueShift s;
     blurredCoverArts := blurredCoverArts s; sessions := sessions s;
     updates := updates s; frames := v; nextFrame := nextFrame s;
     nextObject := nextObject s; performance_now := performance_now s;
     devicePixelRatio := devicePixelRatio s; log := log s |}.
Definition set_nextFrame v (s : DynamicBackground) : DynamicBackground :=
  {| container := container s; maid := maid s;
     resizeObserver := resizeObserver s; blurAmount := blurAmount s;
     transitionDuration := transitionDuration s;
     rotationSpeed := rotationSpeed s; currentImage := currentImage s;
     currentPlaceholderHueShift := currentPlaceholderHueShift s;
     blurredCoverArts := blurredCoverArts s; sessions := sessions s;
     updates := updates s; frames := frames s; nextFrame := v;
     nextObject := nextObject s; performance_now := performance_now s;
     devicePixelRatio := devicePixelRatio s; log := log s |}.
Definition set_nextObject v (s : DynamicBackground) : DynamicBackground :=
  {| container := container s; maid := maid s;
     resizeObserver := resizeObserver s; blurAmount := blurAmount s;
     transitionDuration := transitionDuration s;
     rotationSpeed := rotationSpeed s; currentImage := currentImage s;
     currentPlaceholderHueShift := currentPlaceholderHueShift s;
     blurredCoverArts := blurredCoverArts s; sessions := sessions s;
     updates := updates s; frames := frames s; nextFrame := nextFrame s;
     nextObject := v; performance_now := performance_now s;
     devicePixelRatio := devicePixelRatio s; log := log s |}.
Definition set_performance_now v (s : DynamicBackground) : DynamicBackground :=
  {| container := container s; maid := maid s;
     resizeObserver := resizeObserver s; blurAmount := blurAmount s;
     transitionDuration := transitionDuration s;
     rotationSpeed := rotationSpeed s; currentImage := currentImage s;
     currentPlaceholderHueShift := currentPlaceholderHueShift s;
     blurredCoverArts := blurredCoverArts s; sessions := sessions s;
     updates := updates s; frames := frames s; nextFrame := nextFrame s;
     nextObject := nextObject s; performance_now := v;
     devicePixelRatio := devicePixelRatio s; log := log s |}.
Definition set_devicePixelRatio v (s : DynamicBackground) : DynamicBackground :=
  {| container := container s; maid := maid s;
     resizeObserver := resizeObserver s; blurAmount := blurAmount s;
     transitionDuration := transitionDuration s;
     rotationSpeed := rotationSpeed s; currentImage := currentImage s;
     currentPlaceholderHueShift := currentPlaceholderHueShift s;
     blurredCoverArts := blurredCoverArts s; sessions := sessions s;
     updates := updates s; frames := frames s; nextFrame := nextFrame s;
     nextObject := nextObject s; performance_now := performance_now s;
     devicePixelRatio := v; log := log s |}.
Definition set_log v (s : DynamicBackground) : DynamicBackground :=
  {| container := container s; maid := maid s;
     resizeObserver := resizeObserver s; blurAmount := blurAmount s;
     transitionDuration := transitionDuration s;
     rotationSpeed := rotationSpeed s; currentImage := currentImage s;
     currentPlaceholderHueShift := currentPlaceholderHueShift s;
     blurredCoverArts := blurredCoverArts s; sessions := sessions s;
     updates := updates s; frames := frames s; nextFrame := nextFrame s;
     nextObject := nextObject s; performance_now := performance_now s;
     devicePixelRatio := devicePixelRatio s; log := v |}.
End FieldUpdates.

(** ** Small steps shared by the methods *)

Definition logE (e : Effect) (s : DynamicBackground) : DynamicBackground :=
  set_log (e :: log s) s.

Definition with_container (f : Container -> Container)
  (s : DynamicBackground) : DynamicBackground :=
  set_container (f (container s)) s.

Definition with_uniforms (f : ShaderUniforms -> ShaderUniforms)
  (s : DynamicBackground) : DynamicBackground :=
  with_container (fun c => set_uniforms (f (uniforms c)) c) s.

Definition dispose_texture (t : Texture) (s : DynamicBackground)
  : DynamicBackground :=
  logE (TextureDispose (texture_id t)) s.

(** [if (renderer && scene) renderer.render(scene, camera)]; the scene is
    never unset. *)
Definition render_if_ready (s : DynamicBackground) : DynamicBackground :=
  match renderer (container s) with
  | Some _ => logE (Render (uniforms (container s))) s
  | None => s
  end.

(** [if (animationFrameId) { cancelAnimationFrame(animationFrameId);
    animationFrameId = undefined }] *)
Definition cancel_frame (s : DynamicBackground) : DynamicBackground :=
  match animationFrameId (container s) with
  | Some f =>
      with_container (set_animationFrameId None)
        (set_frames (filter (fun g => g <> f) (frames s)) s)
  | None => s
  end.

(** [if (resizeObserver) { resizeObserver.disconnect(); resizeObserver =
    undefined }] *)
Definition disconnect_observer (s : DynamicBackground) : DynamicBackground :=
  match resizeObserver s with
  | Some _ => set_resizeObserver None s
  | None => s
  end.

(** [new THREE.CanvasTexture(canvas)] *)
Definition new_texture (c : OffscreenCanvas) (s : DynamicBackground)
  : DynamicBackground * Texture :=
  let t := {| texture_id := nextObject s; texture_image := c |} in
  (logE (TextureAlloc (nextObject s)) (set_nextObject (S (nextObject s)) s), t).

(** [new OffscreenCanvas(size, size)] and what is drawn into it. *)
Definition new_canvas (size : Q) (p : Paint) (s : DynamicBackground)
  : DynamicBackground * OffscreenCanvas :=
  let c := {| canvas_id := nextObject s; canvas_width := size;
              canvas_height := size; canvas_paint := p |} in
  (logE (CanvasAlloc (nextObject s)) (set_nextObject (S (nextObject s)) s), c).

Fixpoint includes (needle s : string) : bool :=
  String.prefix needle s
  || match s with
     | EmptyString => false
     | String _ r => includes needle r
     end.

(** ** The render loop *)

(** The callback [animate] of [startAnimation]. *)
Definition animate (s : DynamicBackground) : DynamicBackground :=
  match renderer (container s) with
  | None => cancel_frame s
  | Some r =>
      if contextLost r then cancel_frame s
      else
        let s := with_uniforms (set_Time (performance_now s / 1000)) s in
        let s := logE (Render (uniforms (container s))) s in
        let f := nextFrame s in
        with_container (set_animationFrameId (Some f))
          (set_frames (frames s ++ [f]) (set_nextFrame (Pos.succ f) s))
  end.

Definition startAnimation (s : DynamicBackground) : DynamicBackground :=
  animate (cancel_frame s).

(** ** Transitions *)

Definition completeTransition (newTexture : Texture) (newCoverArtUrl : string)
  (s : DynamicBackground) : DynamicBackground :=
  let s := match texture (container s) with
           | Some t => dispose_texture t s
           | None => s
           end in
  let s := with_container (set_texture (Some newTexture)) s in
  let s := with_uniforms (set_BlurredCoverArt (JObj newTexture)) s in
  let s := with_uniforms (set_NewBlurredCoverArt JNull) s in
  let s := with_uniforms (set_TransitionProgress 0) s in
  let s := with_uniforms (set_RotationSpeed (rotationSpeed s)) s in
  let s := with_container (set_data_cover_id (Some newCoverArtUrl)) s in
  let s := set_currentImage (Some newCoverArtUrl) s in
  let s := render_if_ready s in
  startAnimation s.

Definition with_session (sid : nat) (f : Session -> Session)
  (s : DynamicBackground) : DynamicBackground :=
  match sessions s !! sid with
  | Some a => set_sessions (<[sid := f a]> (sessions s)) s
  | None => s
  end.

(** The closure given to the tracker by [animateTransition]. *)
Definition cancel_transition (sid : nat) (s : DynamicBackground)
  : DynamicBackground :=
  let s := with_session sid (set_canceled true) s in
  let s := with_uniforms (set_TransitionProgress 0) s in
  with_uniforms (set_RotationSpeed (rotationSpeed s)) s.

(** [animateTransition], up to and including [setTimeout(performAnimationStep,
    50)].  The new session's identifier is its index in [sessions]. *)
Definition animateTransition (newTexture : Texture) (newCoverArtUrl : string)
  (s : DynamicBackground) : DynamicBackground * nat :=
  let sid := List.length (sessions s) in
  let stepDuration := (transitionDuration s * 1000) / 10 in
  let '(s, cleanupKey) :=
    if IsDestroyed (maid s) then (s, None)
    else let '(m, k) := Give (CleanTransition sid) (maid s) in
         (set_maid m s, Some k) in
  let a := {| newTexture := newTexture; newCoverArtUrl := newCoverArtUrl;
              stepDuration := stepDuration; currentStep := O;
              canceled := false; cleanupKey := cleanupKey;
              scheduled := Some 50; resolved := false |} in
  (set_sessions (sessions s ++ [a]) s, sid).

(** ** Teardown *)

(** [DisposeShaderUniforms(this.container.uniforms)] *)
Definition dispose_uniforms (s : DynamicBackground) : DynamicBackground :=
  let '(u, (d1, d2)) := DisposeShaderUniforms (uniforms (container s)) in
  let s := match d1 with Some t => dispose_texture t s | None => s end in
  let s := match d2 with Some t => dispose_texture t s | None => s end in
  with_uniforms (fun _ => u) s.

Definition dispose_material (s : DynamicBackground) : DynamicBackground :=
  match material (container s) with
  | Some _ => with_container (set_material None) (logE MaterialDispose s)
  | None => s
  end.

Definition dispose_current_texture (s : DynamicBackground)
  : DynamicBackground :=
  match texture (container s) with
  | Some t => with_container (set_texture None) (dispose_texture t s)
  | None => s
  end.

(** [renderer.dispose()], the context given up, [renderer = undefined]. *)
Definition dispose_renderer (s : DynamicBackground) : DynamicBackground :=
  match renderer (container s) with
  | Some _ => with_container (set_renderer None) (logE RendererDispose s)
  | None => s
  end.

(** [cleanup]: the comprehensive fallback.  The scene keeps its one mesh,
    whose geometry and material are disposed of at every traversal. *)
Definition cleanup (s : DynamicBackground) : DynamicBackground :=
  let s := disconnect_observer s in
  let s := cancel_frame s in
  let s := dispose_uniforms s in
  let s := dispose_material s in
  let s := dispose_current_texture s in
  let s := logE MaterialDispose (logE GeometryDispose s) in
  let s := dispose_renderer s in
  let s := with_container (set_parentElement None) s in
  let s := logE GeometryDispose s in
  let s := set_blurredCoverArts ∅ s in
  let s := set_currentImage None s in
  set_currentPlaceholderHueShift 0 s.

(** The body of each closure given to the tracker. *)
Definition run_cleanup (c : Cleanup) (s : DynamicBackground)
  : DynamicBackground :=
  match c with
  | CleanGeometry => logE GeometryDispose s
  | CleanRenderer => dispose_renderer s
  | CleanMaterial => dispose_material s
  | CleanTexture => dispose_current_texture s
  | CleanUniforms => dispose_uniforms s
  | CleanAnimationFrame => cancel_frame s
  | CleanDom =>
      match parentElement (container s) with
      | Some _ => with_container (set_parentElement None) s
      | None => s
      end
  | CleanCache => set_blurredCoverArts ∅ s
  | CleanFallback => cleanup s
  | CleanResizeObserver => disconnect_observer s
  | CleanTransition sid => cancel_transition sid s
  end.

(** Modelled from the spec: [destroy] of the resource tracker runs every
    registered disposer and marks the tracker destroyed; a destroyed tracker
    holds nothing and destroying it again does nothing. *)
Definition Maid_Destroy (s : DynamicBackground) : DynamicBackground :=
  if Destroyed (maid s) then s
  else
    let s := fold_left (fun s '(_, c) => run_cleanup c s) (Items (maid s)) s in
    set_maid {| Destroyed := true; Items := [];
                RunsOnClean := RunsOnClean (maid s) |} s.

(** Modelled from the spec: [cancel_cleanup] of the resource tracker removes
    the registration named by the token, and runs its disposer when the
    tracker is one that does ([RunsOnClean]). *)
Definition Maid_Clean (key : nat) (s : DynamicBackground)
  : DynamicBackground :=
  if Destroyed (maid s) then s
  else
    match List.find (fun i => Nat.eqb (fst i) key) (Items (maid s)) with
    | None => s
    | Some (_, c) =>
        let m := maid s in
        let s :=
          set_maid
            {| Destroyed := Destroyed m;
               Items :=
                 List.filter (fun i => negb (Nat.eqb (fst i) key)) (Items m);
               RunsOnClean := RunsOnClean m |} s in
        if RunsOnClean m then run_cleanup c s else s
    end.

Definition Destroy (s : DynamicBackground) : DynamicBackground :=
  if IsDestroyed (maid s) then cleanup s
  else Maid_Destroy (cleanup s).

(** ** The steps of a transition *)

Definition is_canceled (sid : nat) (s : DynamicBackground) : bool :=
  match sessions s !! sid with
  | Some a => canceled a
  | None => false
  end.

Definition resolve (sid : nat) (s : DynamicBackground) : DynamicBackground :=
  with_session sid (set_resolved true) s.

(** [currentStep / totalSteps] *)
Definition progress_of (step : nat) : Q :=
  inject_Z (Z.of_nat step) / inject_Z (Z.of_nat totalSteps).

(** The part of [performAnimationStep] from [currentStep++] to the forced
    render. *)
Definition advance (sid : nat) (s : DynamicBackground) : DynamicBackground :=
  let s := with_session sid (fun a => set_currentStep (S (currentStep a)) a) s in
  let step := match sessions s !! sid with
              | Some a => currentStep a
              | None => O
              end in
  let s := with_uniforms (set_TransitionProgress (progress_of step)) s in
  render_if_ready s.

(** The branch "animation complete" of [performAnimationStep]. *)
Definition finish (sid : nat) (a : Session) (s : DynamicBackground)
  : DynamicBackground :=
  if is_canceled sid s then resolve sid s
  else
    let s := completeTransition (newTexture a) (newCoverArtUrl a) s in
    let s := match cleanupKey a with
             | Some k => if IsDestroyed (maid s) then s else Maid_Clean k s
             | None => s
             end in
    resolve sid s.

(** [performAnimationStep], run when the timer of session [sid] fires. *)
Definition performAnimationStep (sid : nat) (s : DynamicBackground)
  : DynamicBackground :=
  match sessions s !! sid with
  | None => s
  | Some a =>
      let s := with_session sid (set_scheduled None) s in
      if is_canceled sid s then resolve sid s
      else
        let s := advance sid s in
        if (S (currentStep a) <? totalSteps)%nat && negb (is_canceled sid s)
        then with_session sid (set_scheduled (Some (stepDuration a))) s
        else finish sid a s
  end.

(** ** The blur cache *)

(** [getBlurredCoverArt] up to its [await image.decode()]: a hit returns the
    cached canvas, a miss starts the decoding of the image. *)
Definition getBlurredCoverArt_start (coverArtUrl : string)
  (placeholderHueShift : Q) (s : DynamicBackground)
  : DynamicBackground * Stage :=
  let s := logE (CacheLookup coverArtUrl) s in
  match blurredCoverArts s !! coverArtUrl with
  | Some canvas => (s, Decoded canvas)
  | None =>
      let crossOrigin :=
        includes "https://" coverArtUrl || includes "http://" coverArtUrl in
      (logE (ImageDecode coverArtUrl crossOrigin) s, Decoding)
  end.

(** [getBlurredCoverArt] after the image has been decoded, [width] by
    [height] pixels. *)
Definition getBlurredCoverArt_finish (coverArtUrl : string)
  (placeholderHueShift : Q) (width height : nat) (s : DynamicBackground)
  : DynamicBackground * OffscreenCanvas :=
  let originalSize :=
    Math_min (inject_Z (Z.of_nat width)) (inject_Z (Z.of_nat height)) in
  let blurExtent := Math_ceil (3 * blurAmount s) in
  let '(s, circleCanvas) :=
    new_canvas originalSize (CircleCrop coverArtUrl) s in
  let padding := blurExtent * (3 # 2) in
  let expandedSize := originalSize + padding in
  let '(s, blurredCanvas) :=
    new_canvas expandedSize
      (Blurred coverArtUrl (blurAmount s) placeholderHueShift) s in
  (set_blurredCoverArts (<[coverArtUrl := blurredCanvas]> (blurredCoverArts s)) s,
   blurredCanvas).

(** ** Update *)

Record UpdateOptions := {
  image : string;
  placeholderHueShift : option Q;
  blur : option Q;
  speed : option Q
}.

Definition set_status (uid : nat) (st : UpdateStatus) (s : DynamicBackground)
  : DynamicBackground :=
  set_updates (<[uid := st]> (updates s)) s.

(** [Update] up to its first [await].  A call that reaches the [await] is
    appended to [updates]; a call that returns before leaves no trace. *)
Definition Update (options : UpdateOptions) (s : DynamicBackground)
  : DynamicBackground :=
  if IsDestroyed (maid s) then s
  else
    let image := image options in
    let placeholderHueShift := nullish (placeholderHueShift options) 0 in
    let blur := nullish (blur options) (blurAmount s) in
    let speed := nullish (speed options) (rotationSpeed s) in
    let imageChanged := negb (bool_decide (Some image = currentImage s)) in
    let hueShiftChanged :=
      num_neq placeholderHueShift (currentPlaceholderHueShift s) in
    let blurChanged := num_neq blur (blurAmount s) in
    let speedChanged := num_neq speed (rotationSpeed s) in
    if negb imageChanged && negb hueShiftChanged && negb blurChanged
       && negb speedChanged
    then s
    else
      let s := set_blurAmount blur s in
      let s := set_rotationSpeed speed s in
      let s := set_currentImage (Some image) s in
      let s := set_currentPlaceholderHueShift placeholderHueShift s in
      match texture (container s) with
      | None =>
          (* initializeTexture, up to its await *)
          let '(s, st) :=
            getBlurredCoverArt_start image placeholderHueShift s in
          set_updates
            (updates s ++ [AwaitingCover true image placeholderHueShift st]) s
      | Some _ =>
          let s := cancel_frame s in
          let '(s, st) :=
            getBlurredCoverArt_start image placeholderHueShift s in
          set_updates
            (updates s ++ [AwaitingCover false image placeholderHueShift st]) s
      end.

(** [image.decode()] of the call [uid] succeeds. *)
Definition decode_resolved (uid width height : nat) (s : DynamicBackground)
  : option DynamicBackground :=
  match updates s !! uid with
  | Some (AwaitingCover first image hue Decoding) =>
      let '(s, canvas) := getBlurredCoverArt_finish image hue width height s in
      Some (set_status uid (AwaitingCover first image hue (Decoded canvas)) s)
  | _ => None
  end.

(** [image.decode()] of the call [uid] fails: the rejection passes through
    [getBlurredCoverArt] (and [initializeTexture]) to the promise of
    [Update]. *)
Definition decode_rejected (uid : nat) (s : DynamicBackground)
  : option DynamicBackground :=
  match updates s !! uid with
  | Some (AwaitingCover _ _ _ Decoding) => Some (set_status uid Rejected s)
  | _ => None
  end.

(** [initializeTexture] after its [await]. *)
Definition initializeTexture_resume (imageCoverUrl : string)
  (placeholderHueShift : Q) (blurredCover : OffscreenCanvas)
  (s : DynamicBackground) : DynamicBackground :=
  let '(s, texture) := new_texture blurredCover s in
  let s := with_container (set_texture (Some texture)) s in
  let s := with_uniforms (set_BlurredCoverArt (JObj texture)) s in
  let s := with_uniforms (set_Time 0) s in
  let s := with_uniforms (set_RotationSpeed (rotationSpeed s)) s in
  let s := with_container (set_data_cover_id (Some imageCoverUrl)) s in
  let s := set_currentImage (Some imageCoverUrl) s in
  set_currentPlaceholderHueShift placeholderHueShift s.

(** [Update] after [await this.getBlurredCoverArt(...)], for the call
    [uid]. *)
Definition transition_resume (uid : nat) (image : string)
  (newBlurredCover : OffscreenCanvas) (s : DynamicBackground)
  : DynamicBackground :=
  let '(s, newTexture) := new_texture newBlurredCover s in
  let s := match NewBlurredCoverArt (uniforms (container s)) with
           | JObj t => dispose_texture t s
           | _ => s
           end in
  let s := with_uniforms (set_NewBlurredCoverArt (JObj newTexture)) s in
  let s := with_uniforms (set_RotationSpeed (rotationSpeed s)) s in
  let s := render_if_ready s in
  let s := with_uniforms (set_TransitionProgress 0) s in
  if Qle_bool (transitionDuration s) 0 then
    set_status uid Fulfilled (completeTransition newTexture image s)
  else
    let '(s, sid) := animateTransition newTexture image s in
    set_status uid (Animating sid) s.

Definition Update_resume (uid : nat) (s : DynamicBackground)
  : option DynamicBackground :=
  match updates s !! uid with
  | Some (AwaitingCover first image hue (Decoded canvas)) =>
      if first
      then Some (set_status uid Fulfilled
                   (initializeTexture_resume image hue canvas s))
      else Some (transition_resume uid image canvas s)
  | _ => None
  end.

(** ** Mounting and resizing *)

(** A method either returns or throws (a property read on [undefined]);
    either way it leaves a state behind. *)
Inductive Outcome :=
  | Returned (s : DynamicBackground)
  | Thrown (s : DynamicBackground).

Definition state_of (o : Outcome) : DynamicBackground :=
  match o with Returned s | Thrown s => s end.

Definition updateContainerDimensions (width height : Q)
  (s : DynamicBackground) : Outcome :=
  match renderer (container s) with
  | None => Thrown s
  | Some r =>
      let s :=
        with_container
          (set_renderer
             (Some {| contextLost := contextLost r;
                      rendererSize := Some (width, height);
                      pixelRatio := Some (devicePixelRatio s) |})) s in
      let scaledWidth := width * devicePixelRatio s in
      let scaledHeight := height * devicePixelRatio s in
      let largestAxisX := negb (Qle_bool scaledWidth scaledHeight) in
      let largestAxisSize :=
        if negb (Qle_bool scaledWidth scaledHeight) then scaledWidth
        else scaledHeight in
      let s :=
        with_uniforms
          (fun u =>
             {| Time := Time u; RotationSpeed := RotationSpeed u;
                BlurredCoverArt := BlurredCoverArt u;
                NewBlurredCoverArt := NewBlurredCoverArt u;
                TransitionProgress := TransitionProgress u;
                BackgroundCircleOrigin := (scaledWidth / 2, scaledHeight / 2);
                BackgroundCircleRadius := largestAxisSize * (3 # 2);
                CenterCircleOrigin := (scaledWidth / 2, scaledHeight / 2);
                CenterCircleRadius :=
                  largestAxisSize * (if largestAxisX then 1 else 3 # 4);
                LeftCircleOrigin := (0, scaledHeight);
                LeftCircleRadius := largestAxisSize * (3 # 4);
                RightCircleOrigin := (scaledWidth, 0);
                RightCircleRadius :=
                  largestAxisSize * (if largestAxisX then 65 # 100 else 1 # 2)
             |}) s in
      let s := logE (Render (uniforms (container s))) s in
      Returned (startAnimation s)
  end.

(** The callback of the [ResizeObserver], for its one observed element. *)
Definition on_resize (contentWidth contentHeight : Q) (s : DynamicBackground)
  : Outcome :=
  let width := Math_max contentWidth 500 in
  let height := Math_max contentHeight 500 in
  updateContainerDimensions width height s.

Definition AppendToElement (element : nat) (clientWidth clientHeight : Q)
  (s : DynamicBackground) : Outcome :=
  if IsDestroyed (maid s) then Returned s
  else
    let s := match parentElement (container s) with
             | Some _ => with_container (set_parentElement None) s
             | None => s
             end in
    let s := disconnect_observer s in
    let s := with_container (set_parentElement (Some element)) s in
    let s := set_resizeObserver (Some element) s in
    let s := if IsDestroyed (maid s) then s
             else set_maid (fst (Give CleanResizeObserver (maid s))) s in
    let width := Math_max clientWidth 500 in
    let height := Math_max clientHeight 500 in
    updateContainerDimensions width height s.

(** ** Construction *)

Record DynamicBackgroundOptions := {
  opt_transition : option (bool + Q);
  opt_blur : option Q;
  opt_maid : option Maid;
  opt_speed : option Q;
  opt_coverArtCache : option (gmap string OffscreenCanvas)
}.

Definition give (c : Cleanup) (m : Maid) : Maid := fst (Give c m).

(** The constructor, in a host whose clock shows [now] and whose screen has
    pixel ratio [ratio].  A tracker created here ([new Maid()]) is one that
    runs, or not, the disposer it is asked to cancel ([runsOnClean]). *)
Definition constructor (options : DynamicBackgroundOptions)
  (runsOnClean : bool) (now ratio : Q) : option DynamicBackground :=
  let blurAmount := nullish (opt_blur options) 40 in
  let rotationSpeed := nullish (opt_speed options) (2 # 10) in
  let blurredCoverArts := nullish (opt_coverArtCache options) ∅ in
  let transitionDuration :=
    match opt_transition options with
    | Some (inl b) => if b then 1 # 2 else 0
    | Some (inr d) => d
    | None => 1 # 2
    end in
  let maid := nullish (opt_maid options) (new_Maid runsOnClean) in
  let maid := give CleanGeometry maid in
  materialUniforms ← GetShaderUniforms O;
  let uniforms := set_RotationSpeed rotationSpeed materialUniforms in
  let maid := give CleanRenderer maid in
  let maid := give CleanMaterial maid in
  let maid := give CleanTexture maid in
  let maid := give CleanUniforms maid in
  let maid := give CleanAnimationFrame maid in
  let maid := give CleanDom maid in
  let maid := give CleanCache maid in
  let maid := give CleanFallback maid in
  Some
    {| container :=
         {| renderer := Some {| contextLost := false; rendererSize := None;
                                pixelRatio := None |};
            uniforms := uniforms; texture := None;
            material := Some ShaderMaterial; animationFrameId := None;
            parentElement := None; data_cover_id := None |};
       maid := maid; resizeObserver := None; blurAmount := blurAmount;
       transitionDuration := transitionDuration;
       rotationSpeed := rotationSpeed; currentImage := None;
       currentPlaceholderHueShift := 0;
       blurredCoverArts := blurredCoverArts; sessions := []; updates := [];
       frames := []; nextFrame := 1%positive; nextObject := 2%nat;
       performance_now := now; devicePixelRatio := ratio;
       log := [TextureAlloc 1; CanvasAlloc 0] |}.

(** ** The event loop *)

Inductive Event :=
  | CallUpdate (options : UpdateOptions)
  | CallAppendToElement (element : nat) (clientWidth clientHeight : Q)
  | CallDestroy
  | ImageDecoded (uid width height : nat)
  | ImageFailed (uid : nat)
  | Resume (uid : nat)
  | TimerFired (sid : nat)
  | FrameFired (f : positive)
  | Resized (contentWidth contentHeight : Q)
  | TrackerDestroyed
  | ContextLost
  | ClockAdvanced (now : Q)
  | PixelRatioChanged (ratio : Q).

Definition timer_pending (sid : nat) (s : DynamicBackground) : bool :=
  match sessions s !! sid with
  | Some a => match scheduled a with Some _ => true | None => false end
  | None => false
  end.

(** One turn of the event loop; [None] when the host cannot produce the
    event in this state. *)
Definition step (e : Event) (s : DynamicBackground)
  : option DynamicBackground :=
  match e with
  | CallUpdate options => Some (Update options s)
  | CallAppendToElement element w h =>
      Some (state_of (AppendToElement element w h s))
  | CallDestroy => Some (Destroy s)
  | ImageDecoded uid w h => decode_resolved uid w h s
  | ImageFailed uid => decode_rejected uid s
  | Resume uid => Update_resume uid s
  | TimerFired sid =>
      if timer_pending sid s then Some (performAnimationStep sid s) else None
  | FrameFired f =>
      if bool_decide (f ∈ frames s)
      then Some (animate (set_frames (filter (fun g => g <> f) (frames s)) s))
      else None
  | Resized w h =>
      match resizeObserver s with
      | Some _ => Some (state_of (on_resize w h s))
      | None => None
      end
  | TrackerDestroyed => Some (Maid_Destroy s)
  | ContextLost =>
      match renderer (container s) with
      | Some r =>
          Some (with_container
                  (set_renderer
                     (Some {| contextLost := true;
                              rendererSize := rendererSize r;
                              pixelRatio := pixelRatio r |})) s)
      | None => None
      end
  | ClockAdvanced now => Some (set_performance_now now s)
  | PixelRatioChanged ratio => Some (set_devicePixelRatio ratio s)
  end.

(** Runs a list of events, as far as each is possible. *)
Fixpoint run (es : list Event) (s : DynamicBackground)
  : option DynamicBackground :=
  match es with
  | [] => Some s
  | e :: es' => s' ← step e s; run es' s'
  end.

(** The states an instance can be in: built by the constructor, then driven
    by the event loop.  A tracker supplied by the caller is alive at
    construction; the disposers other owners gave it do not touch this
    instance and are left out. *)
Inductive reachable : DynamicBackground -> Prop :=
  | reach_new options runsOnClean now ratio s :
      constructor options runsOnClean now ratio = Some s ->
      match opt_maid options with
      | Some m => IsDestroyed m = false /\ Items m = []
      | None => True
      end ->
      reachable s
  | reach_step e s s' :
      reachable s -> step e s = Some s' -> reachable s'.

(** * Notions used in the statements *)

(** ** Shapes of states *)

(** The value of the transition-progress uniform. *)
Definition progress (s : DynamicBackground) : Q :=
  TransitionProgress (uniforms (container s)).


(** The placeholder texture [GetShaderUniforms] puts in the incoming slot. *)
Definition placeholder (next : nat) : Texture :=
  {| texture_id := S next;
     texture_image := {| canvas_id := next; canvas_width := 1;
                         canvas_height := 1; canvas_paint := Blank |} |}.

Definition is_render (e : Effect) : bool :=
  match e with Render _ => true | _ => false end.

(** Has the instance rendered at all? *)
Definition rendered (s : DynamicBackground) : bool :=
  existsb is_render (log s).

(** Has [dispose] been called on the texture numbered [id]? *)
Definition disposed (id : nat) (s : DynamicBackground) : bool :=
  existsb (fun e => match e with
                    | TextureDispose i => Nat.eqb i id
                    | _ => false
                    end) (log s).

(** The state without its effect log. *)
Definition observable (s : DynamicBackground) : DynamicBackground :=
  set_log [] s.

(** The arguments of an [Update] are those already applied. *)
Definition same_args (o : UpdateOptions) (s : DynamicBackground) : Prop :=
  currentImage s = Some (image o)
  /\ nullish (placeholderHueShift o) 0 == currentPlaceholderHueShift s
  /\ nullish (blur o) (blurAmount s) == blurAmount s
  /\ nullish (speed o) (rotationSpeed s) == rotationSpeed s.

(** ** Transitions *)

(** The state after the step numbered [S (currentStep a)] of session [sid],
    not canceled: the timer has fired, the step is counted, the progress is
    set and the render forced; the branch on [currentStep < totalSteps] is
    still to come. *)
Definition stepped (sid : nat) (a : Session) (s : DynamicBackground)
  : DynamicBackground :=
  render_if_ready
    (with_uniforms (set_TransitionProgress (progress_of (S (currentStep a))))
       (set_sessions
          (<[sid := set_currentStep (S (currentStep a)) (set_scheduled None a)]>
             (sessions s)) s)).

(** The registration of a session's canceller is the one its key finds. *)
Definition registered (m : Maid) (key : option nat) (sid : nat) : Prop :=
  match key with
  | None => True
  | Some k =>
      Destroyed m = true
      \/ List.find (fun i => Nat.eqb (fst i) k) (Items m)
         = Some (k, CleanTransition sid)
  end.

(** Session [sid], which brings in texture [t] for image [url], has taken
    [k] steps and waits for its next timer; nothing has been committed
    since [s0]. *)
Definition in_flight (sid : nat) (t : Texture) (url : string) (k : nat)
  (s0 s : DynamicBackground) : Prop :=
  exists a,
    sessions s !! sid = Some a
    /\ currentStep a = k /\ canceled a = false /\ is_Some (scheduled a)
    /\ newTexture a = t /\ newCoverArtUrl a = url
    /\ registered (maid s) (cleanupKey a) sid
    /\ texture (container s) = texture (container s0)
    /\ currentImage s = currentImage s0
    /\ NewBlurredCoverArt (uniforms (container s)) = JObj t
    /\ progress s == progress_of k.

(** The transition to texture [t] of image [url] has been committed. *)
Definition committed (t : Texture) (url : string) (s : DynamicBackground)
  : Prop :=
  progress s = 0
  /\ texture (container s) = Some t
  /\ BlurredCoverArt (uniforms (container s)) = JObj t
  /\ NewBlurredCoverArt (uniforms (container s)) = JNull
  /\ currentImage s = Some url.

(** The effects since [s0] are [l], newest first, and no render is among
    them. *)
Definition without_render (l : list Effect) (s0 s : DynamicBackground)
  : Prop :=
  log s = l ++ log s0 /\ existsb is_render l = false.

(** What a first-time [Update] leaves behind once its texture is in place:
    the texture made from canvas [c] is current, no render call was made
    since [s0] and no animation frame was requested or canceled. *)
Definition initialized (c : OffscreenCanvas) (s0 s : DynamicBackground)
  : Prop :=
  exists t,
    texture_image t = c
    /\ texture (container s) = Some t
    /\ BlurredCoverArt (uniforms (container s)) = JObj t
    /\ Time (uniforms (container s)) = 0
    /\ RotationSpeed (uniforms (container s)) = rotationSpeed s
    /\ (exists l, without_render l s0 s)
    /\ frames s = frames s0
    /\ animationFrameId (container s) = animationFrameId (container s0).

(** ** Invariants and footprints *)

(** A session with a pending timer has steps left to take. *)
Definition steps_ok (s : DynamicBackground) : Prop :=
  Forall (fun a => is_Some (scheduled a) -> (currentStep a < totalSteps)%nat)
         (sessions s).

(** No session has a pending timer. *)
Definition idle (s : DynamicBackground) : Prop :=
  Forall (fun a => scheduled a = None) (sessions s).

(** [s] comes from [s0] by code that takes no transition step. *)
Definition gentle (s0 s : DynamicBackground) : Prop :=
  (steps_ok s0 -> steps_ok s)
  /\ (progress s = progress s0 \/ progress s = 0).

(** [s] comes from [s0] by code that neither renders nor schedules. *)
Definition quiet (s0 s : DynamicBackground) : Prop :=
  rendered s = rendered s0
  /\ (frames s0 = [] -> frames s = [])
  /\ (resizeObserver s0 = None -> resizeObserver s = None)
  /\ (renderer (container s0) = None -> renderer (container s) = None)
  /\ (idle s0 -> idle s).

(** [s] comes from [s0] by code that renders only through a renderer. *)
Definition dark (s0 s : DynamicBackground) : Prop :=
  (rendered s0 = true -> rendered s = true)
  /\ (renderer (container s0) = None ->
      rendered s = rendered s0
      /\ renderer (container s) = None
      /\ (frames s0 = [] -> frames s = [])).

(** [calm]: no step, no render; [tame]: no step, renders only through a
    renderer. *)
Definition calm (s0 s : DynamicBackground) : Prop := gentle s0 s /\ quiet s0 s.
Definition tame (s0 s : DynamicBackground) : Prop := gentle s0 s /\ dark s0 s.

(** Until the first render, no frame is pending, and a live renderer has
    neither an observer nor a running transition to call it. *)
Definition unseen (s : DynamicBackground) : Prop :=
  rendered s = false ->
  frames s = []
  /\ (renderer (container s) = None \/ (resizeObserver s = None /\ idle s)).

(** The pending animation frames are the one the instance remembers. *)
Definition framed (s : DynamicBackground) : Prop :=
  frames s = match animationFrameId (container s) with
             | Some f => [f]
             | None => []
             end.

(** [s] comes from [s0] by code that keeps track of its frames. *)
Definition steady (s0 s : DynamicBackground) : Prop := framed s0 -> framed s.

(** ** Teardown *)

(** Every pending animation frame is the one the instance remembers. *)
Definition frames_tracked (s : DynamicBackground) : bool :=
  forallb (fun f => bool_decide (animationFrameId (container s) = Some f))
          (frames s).

(** The tracker is alive and holds the canceller of session [sid]. *)
Definition holds_canceller (m : Maid) (sid : nat) : bool :=
  negb (Destroyed m)
  && existsb (fun i => match snd i with
                       | CleanTransition sid' => Nat.eqb sid' sid
                       | _ => false
                       end) (Items m).

Fixpoint cancellable_from (sid : nat) (m : Maid) (l : list Session) : bool :=
  match l with
  | [] => true
  | a :: l' =>
      (match scheduled a with None => true | Some _ => false end
       || canceled a || holds_canceller m sid)
      && cancellable_from (S sid) m l'
  end.

(** Every session with a pending timer is canceled already or can still be
    canceled by the tracker. *)
Definition cancellable (s : DynamicBackground) : bool :=
  cancellable_from O (maid s) (sessions s).

(** The state left by [cleanup]. *)
Definition cleaned (s : DynamicBackground) : Prop :=
  resizeObserver s = None
  /\ container s =
     {| renderer := None;
        uniforms :=
          {| Time := Time (uniforms (container s));
             RotationSpeed := RotationSpeed (uniforms (container s));
             BlurredCoverArt := BlurredCoverArt (uniforms (container s));
             NewBlurredCoverArt := NewBlurredCoverArt (uniforms (container s));
             TransitionProgress := 0;
             BackgroundCircleOrigin := (0, 0);
             BackgroundCircleRadius :=
               BackgroundCircleRadius (uniforms (container s));
             CenterCircleOrigin := (0, 0);
             CenterCircleRadius := CenterCircleRadius (uniforms (container s));
             LeftCircleOrigin := (0, 0);
             LeftCircleRadius := LeftCircleRadius (uniforms (container s));
             RightCircleOrigin := (0, 0);
             RightCircleRadius := RightCircleRadius (uniforms (container s)) |};
        texture := None; material := None; animationFrameId := None;
        parentElement := None;
        data_cover_id := data_cover_id (container s) |}
  /\ truthy (BlurredCoverArt (uniforms (container s))) = false
  /\ truthy (NewBlurredCoverArt (uniforms (container s))) = false
  /\ blurredCoverArts s = ∅
  /\ currentImage s = None
  /\ currentPlaceholderHueShift s = 0.

(** Session [sid], if there is one, is canceled. *)
Definition doomed (sid : nat) (s : DynamicBackground) : Prop :=
  forall a, sessions s !! sid = Some a -> canceled a = true.

(** ** Scenarios *)

Definition default_options : DynamicBackgroundOptions :=
  {| opt_transition := None; opt_blur := None; opt_maid := None;
     opt_speed := None; opt_coverArtCache := None |}.

Definition update_to (img : string) : UpdateOptions :=
  {| image := img; placeholderHueShift := None; blur := None;
     speed := None |}.

(** An instance built with the default options, then driven by [es]. *)
Definition boot (es : list Event) : option DynamicBackground :=
  s ← constructor default_options true 0 1; run es s.

(** Image A is shown (a first-time update), then the instance is mounted. *)
Definition show_A : list Event :=
  [CallUpdate (update_to "A"); ImageDecoded 0 100 80; Resume 0;
   CallAppendToElement 7 10 10].

(** [update(C)] is issued; its image is decoded. *)
Definition request_C : list Event :=
  [CallUpdate (update_to "C"); ImageDecoded 1 100 80].

(** The crossfade from A to C starts and takes its first step. *)
Definition start_C : list Event := [Resume 1; TimerFired 0].

(** [update(B)] is issued while that crossfade is in flight, and starts its
    own crossfade (session 1). *)
Definition supersede_with_B : list Event :=
  [CallUpdate (update_to "B"); ImageDecoded 2 10 10; Resume 2].

(** The timers of both sessions fire in the order of their due times: the
    steps 2 to 10 of session 0, each but the last followed by a step of
    session 1. *)
Definition rest_of_C : list Event :=
  List.concat (replicate 8 [TimerFired 0; TimerFired 1]) ++ [TimerFired 0].

(** The last two steps of session 1. *)
Definition rest_of_B : list Event := [TimerFired 1; TimerFired 1].
(** ** Ownership *)

(** While its tracker is alive the instance has its renderer, every session
    has a key, and the tracker holds, under distinct keys, the fallback
    disposer of the constructor and the canceller of every session that is
    still running. *)
Definition guarded (s : DynamicBackground) : Prop :=
  Destroyed (maid s) = false ->
  is_Some (renderer (container s))
  /\ NoDup (map fst (Items (maid s)))
  /\ (exists k, (k, CleanFallback) ∈ Items (maid s))
  /\ forall sid a,
       sessions s !! sid = Some a ->
       exists k,
         cleanupKey a = Some k
         /\ (is_Some (scheduled a) -> canceled a = false ->
             (k, CleanTransition sid) ∈ Items (maid s)).

(** Without a renderer no resize observer is connected. *)
Definition unplugged (s : DynamicBackground) : Prop :=
  renderer (container s) = None -> resizeObserver s = None.

(** [s] comes from [s0] by code that leaves the tracker, the sessions, the
    observer and the renderer's existence alone. *)
Definition aside (s0 s : DynamicBackground) : Prop :=
  maid s = maid s0 /\ sessions s = sessions s0
  /\ resizeObserver s = resizeObserver s0
  /\ (renderer (container s) = None <-> renderer (container s0) = None).

(** [s] comes from [s0] by code that leaves the tracker, the observer and
    the renderer's existence alone and starts no session: a session that
    runs in [s] ran in [s0], with the same key. *)
Definition follows (s0 s : DynamicBackground) : Prop :=
  maid s = maid s0
  /\ resizeObserver s = resizeObserver s0
  /\ (renderer (container s) = None <-> renderer (container s0) = None)
  /\ forall sid a,
       sessions s !! sid = Some a ->
       exists a0,
         sessions s0 !! sid = Some a0 /\ cleanupKey a0 = cleanupKey a
         /\ (is_Some (scheduled a) -> canceled a = false ->
             is_Some (scheduled a0) /\ canceled a0 = false).

(** ** What goes on beside a transition *)




(** [s] comes from [s0] by code that leaves the transitions alone: the
    sessions, the progress, the two texture slots and the current texture
    are the same, and the tracker has at most been given more. *)
Definition beside (s0 s : DynamicBackground) : Prop :=
  sessions s = sessions s0
  /\ TransitionProgress (uniforms (container s))
     = TransitionProgress (uniforms (container s0))
  /\ BlurredCoverArt (uniforms (container s))
     = BlurredCoverArt (uniforms (container s0))
  /\ NewBlurredCoverArt (uniforms (container s))
     = NewBlurredCoverArt (uniforms (container s0))
  /\ texture (container s) = texture (container s0)
  /\ Destroyed (maid s) = Destroyed (maid s0)
  /\ exists more, Items (maid s) = Items (maid s0) ++ more.



(** ** Further scenarios *)

(** An instance built with the options [o], then driven by [es]. *)
Definition boot_with (o : DynamicBackgroundOptions) (es : list Event)
  : option DynamicBackground :=
  s ← constructor o true 0 1; run es s.

(** Crossfades switched off ([transition: false]). *)
Definition no_transition : DynamicBackgroundOptions :=
  {| opt_transition := Some (inl false); opt_blur := None; opt_maid := None;
     opt_speed := None; opt_coverArtCache := None |}.


(** * The stores

    A shallow embedding of the second module of the sources: the instant
    store, the dynamic store and the expire store, which keep JSON data in
    the browser's [localStorage] and Cache API.

    Conventions of the embedding.
    - The data the stores hold is JSON data ([Json]); [undefined] is the
      absence of a value ([None]).  An object is the list of its own
      properties in the order the engine enumerates them.
    - [JSON.parse] and [JSON.stringify], the URL a request path resolves to
      and the local calendar of [Date] belong to the host ([Host]); nothing
      is assumed of them but what a statement says.
    - [JSON.parse(JSON.stringify(v))], the deep copy of JSON data [v], is [v]:
      the model has no object identity.  A reference to an object inside a
      parsed document is the path that leads to it, no two paths of such a
      document leading to the same object.
    - [localStorage.setItem] succeeds (no quota); the Cache API can fail
      where the code catches its failure or passes it on ([Fault]).
    - Where the behaviour of the engine depends on the properties of the
      built-in prototypes or on holes in an array, the model stops with
      [Beyond] instead of guessing. *)

Module Stores.

#[local] Open Scope string_scope.

(** ** JSON data *)

#[local] Unset Elimination Schemes.
Inductive Json :=
  | JsonNull
  | JsonBool (b : bool)
  | JsonNumber (n : Q)
  | JsonString (s : string)
  | JsonArray (items : list Json)
  | JsonObject (fields : list (string * Json)).
#[local] Set Elimination Schemes.

(** [typeof v] *)
Definition typeof (v : Json) : string :=
  match v with
  | JsonNull | JsonArray _ | JsonObject _ => "object"
  | JsonBool _ => "boolean"
  | JsonNumber _ => "number"
  | JsonString _ => "string"
  end.

(** The values that pass [if (v)]. *)
Definition truthy_value (v : option Json) : bool :=
  match v with
  | None | Some JsonNull => false
  | Some (JsonBool b) => b
  | Some (JsonNumber n) => negb (Qeq_bool n 0)
  | Some (JsonString s) => negb (String.eqb s EmptyString)
  | Some (JsonArray _) | Some (JsonObject _) => true
  end.

(** The own property [key] of an object. *)
Fixpoint own (key : string) (fields : list (string * Json)) : option Json :=
  match fields with
  | [] => None
  | (k, v) :: rest => if String.eqb k key then Some v else own key rest
  end.

(** [v.key] for a value other than [null] and [undefined] and a key that no
    built-in prototype defines. *)
Definition property (v : Json) (key : string) : option Json :=
  match v with
  | JsonObject fields => own key fields
  | _ => None
  end.

(** [a === n] for a number [n]. *)
Definition is_number (a : option Json) (n : Q) : bool :=
  match a with
  | Some (JsonNumber m) => Qeq_bool m n
  | _ => false
  end.

(** ** The host *)

Class Host := {
  (** [JSON.parse]; [None] is its [SyntaxError] *)
  JSON_parse : string -> option Json;
  JSON_stringify : Json -> string;
  (** the URL of the request for a path, as the Cache API compares
      requests *)
  request_url : string -> string;
  (** the calendar of [Date] in the local time zone, on a valid time value;
      [None] is the invalid date *)
  Date_setHours_0 : Z -> option Z;
  Date_getDate : Z -> Z;
  Date_setDate : Z -> Q -> option Z;
  Date_getMonth : Z -> Z;
  Date_setMonth : Z -> Q -> option Z
}.

Inductive Exception :=
  | Error (message : string)
  | TypeError
  | SyntaxError
  | HostError.

(** How a call ends: with a value, with an exception (a rejected promise,
    for an asynchronous call), or outside the model. *)
Inductive Completion (A : Type) :=
  | Normal (a : A)
  | Throw (e : Exception)
  | Beyond.
Arguments Normal {A} a.
Arguments Throw {A} e.
Arguments Beyond {A}.

Inductive Console :=
  | Warn (message : string)
  | LogError (e : Exception).

Record World := {
  localStorage : gmap string string;
  (** the Cache API: cache name, request URL, body of the response *)
  caches : gmap string (gmap string string);
  RetrievedInstantStores : gset string;
  RetrievedExpireStores : gset string;
  console : list Console
}.

Definition set_localStorage v (w : World) : World :=
  {| localStorage := v; caches := caches w;
     RetrievedInstantStores := RetrievedInstantStores w;
     RetrievedExpireStores := RetrievedExpireStores w; console := console w |}.
Definition set_caches v (w : World) : World :=
  {| localStorage := localStorage w; caches := v;
     RetrievedInstantStores := RetrievedInstantStores w;
     RetrievedExpireStores := RetrievedExpireStores w; console := console w |}.
Definition set_RetrievedInstantStores v (w : World) : World :=
  {| localStorage := localStorage w; caches := caches w;
     RetrievedInstantStores := v;
     RetrievedExpireStores := RetrievedExpireStores w; console := console w |}.
Definition set_RetrievedExpireStores v (w : World) : World :=
  {| localStorage := localStorage w; caches := caches w;
     RetrievedInstantStores := RetrievedInstantStores w;
     RetrievedExpireStores := v; console := console w |}.
Definition set_console v (w : World) : World :=
  {| localStorage := localStorage w; caches := caches w;
     RetrievedInstantStores := RetrievedInstantStores w;
     RetrievedExpireStores := RetrievedExpireStores w; console := v |}.

(** ** Instant store *)

(** *** Objects and arrays as the merge reads and writes them *)

(** The property names every object inherits. *)
Definition Object_prototype : list string :=
  ["__proto__"; "constructor"; "hasOwnProperty"; "isPrototypeOf";
   "propertyIsEnumerable"; "toLocaleString"; "toString"; "valueOf";
   "__defineGetter__"; "__defineSetter__"; "__lookupGetter__";
   "__lookupSetter__"].

(** The array index a property name denotes: the canonical decimal numeral
    of a number below 2^32 - 1. *)
Definition digit (a : ascii) : option N :=
  let n := N_of_ascii a in
  if ((48 <=? n) && (n <=? 57))%N then Some (n - 48)%N else None.

Fixpoint numeral (acc : N) (s : string) : option N :=
  match s with
  | EmptyString => Some acc
  | String a r =>
      match digit a with
      | Some d => numeral (acc * 10 + d)%N r
      | None => None
      end
  end.

Definition array_index (key : string) : option nat :=
  match key with
  | EmptyString => None
  | _ =>
      match numeral 0 key with
      | Some n =>
          if String.eqb (pretty n) key && (n <? 4294967295)%N
          then Some (N.to_nat n) else None
      | None => None
      end
  end.

(** The index up to [n] that a property name denotes. *)
Definition element_index (n : nat) (key : string) : option nat :=
  List.find (fun i => String.eqb (pretty i) key) (seq 0 (S n)).

(** What [checkObj[key]] reads. *)
Inductive Read :=
  | Has (v : Json)
  | Missing
  | ReadThrows
  | ReadBeyond.

Definition read (checkObj : option Json) (key : string) : Read :=
  match checkObj with
  | None | Some JsonNull => ReadThrows
  | Some (JsonObject fields) =>
      match own key fields with
      | Some v => Has v
      | None =>
          if bool_decide (key ∈ Object_prototype) then ReadBeyond else Missing
      end
  | Some (JsonArray items) =>
      (* an element, the index after the last one, or what the model
         leaves out: a name that is no index, or an index further on,
         where an assignment would leave holes *)
      match element_index (List.length items) key with
      | Some i =>
          match items !! i with
          | Some v => Has v
          | None => Missing
          end
      | None => ReadBeyond
      end
  | Some _ => ReadBeyond
  end.

(** The own properties of an object after [obj[key] = v] for a new [key]:
    array indices come first, in ascending order, then the other names in
    the order of their creation. *)
Fixpoint define (key : string) (v : Json) (fields : list (string * Json))
  : list (string * Json) :=
  match array_index key, fields with
  | None, _ => fields ++ [(key, v)]
  | Some _, [] => [(key, v)]
  | Some i, (k, x) :: rest =>
      match array_index k with
      | Some j =>
          if (j <? i)%nat then (k, x) :: define key v rest
          else (key, v) :: fields
      | None => (key, v) :: fields
      end
  end.

(** [checkObj[key] = v] after [checkObj[key]] was read as [undefined]. *)
Definition write (checkObj : Json) (key : string) (v : Json) : option Json :=
  match checkObj with
  | JsonObject fields => Some (JsonObject (define key v fields))
  | JsonArray items =>
      match element_index (List.length items) key with
      | Some i =>
          if (i =? List.length items)%nat then Some (JsonArray (items ++ [v]))
          else None
      | None => None
      end
  | _ => None
  end.

(** The object a path leads to. *)
Fixpoint follow (root : option Json) (path : list string) : option Json :=
  match path with
  | [] => root
  | key :: rest =>
      match read root key with
      | Has v => follow (Some v) rest
      | _ => None
      end
  end.

(** [obj[key] = v] for a [key] the object or array has. *)
Fixpoint replace_own (key : string) (v : Json) (fields : list (string * Json))
  : list (string * Json) :=
  match fields with
  | [] => []
  | (k, x) :: rest =>
      if String.eqb k key then (k, v) :: rest
      else (k, x) :: replace_own key v rest
  end.

Definition replace (obj : Json) (key : string) (v : Json) : Json :=
  match obj with
  | JsonObject fields => JsonObject (replace_own key v fields)
  | JsonArray items =>
      match element_index (List.length items) key with
      | Some i => JsonArray (<[i := v]> items)
      | None => obj
      end
  | _ => obj
  end.

(** The document after the object at the end of [path] has become
    [f] of itself. *)
Fixpoint change (root : Json) (path : list string)
  (f : Json -> option Json) : option Json :=
  match path with
  | [] => f root
  | key :: rest =>
      match read (Some root) key with
      | Has v =>
          match change v rest f with
          | Some v' => Some (replace root key v')
          | None => None
          end
      | _ => None
      end
  end.

(** The own enumerable properties of a value of type "object", in the order
    of [for ... in]. *)
Definition entries (v : Json) : list (string * Json) :=
  match v with
  | JsonObject fields => fields
  | JsonArray items => imap (fun i x => (pretty i, x)) items
  | _ => []
  end.

(** *** The merge of the template into the stored items *)

(** The character that encloses the path in an error message. *)
Definition quote : string := String (ascii_of_nat 34) EmptyString.

(** One entry of [templateChecks]: the object to check (the path to it from
    [store.Items]), the part of the template it is checked against, and the
    path shown in an error. *)
Record Check := {
  checkObj : list string;
  defaultObj : Json;
  path : string
}.

(** The body of [for (const key in defaultObj)], for the keys still to
    visit; [items] is [store.Items] and [templateChecks] the stack, its last
    element first. *)
Fixpoint for_in (todo : list (string * Json)) (c : Check)
  (items : option Json) (templateChecks : list Check)
  : Completion (option Json * list Check) :=
  match todo with
  | [] => Normal (items, templateChecks)
  | (key, want) :: todo' =>
      match read (follow items (checkObj c)) key with
      | ReadThrows => Throw TypeError
      | ReadBeyond => Beyond
      | Missing =>
          match items with
          | Some root =>
              match change root (checkObj c) (fun o => write o key want) with
              | Some root' => for_in todo' c (Some root') templateChecks
              | None => Beyond
              end
          | None => Beyond
          end
      | Has have =>
          if String.eqb (typeof have) "object"
             && String.eqb (typeof want) "object"
          then
            for_in todo' c items
              ({| checkObj := checkObj c ++ [key]; defaultObj := want;
                  path := path c ++ "." ++ key |} :: templateChecks)
          else if negb (String.eqb (typeof have) (typeof want))
          then Throw (Error ("Template Type mismatch for " ++ quote
                             ++ path c ++ "." ++ key ++ quote))
          else for_in todo' c items templateChecks
      end
  end.

Inductive Merge :=
  | Merged (items : option Json)
  | MergeThrows (e : Exception)
  | MergeBeyond
  | OutOfFuel.

(** [while (templateChecks.length > 0) { ... }] *)
Fixpoint merge_loop (fuel : nat) (templateChecks : list Check)
  (items : option Json) : Merge :=
  match fuel with
  | O => OutOfFuel
  | S fuel' =>
      match templateChecks with
      | [] => Merged items
      | c :: rest =>
          match for_in (entries (defaultObj c)) c items rest with
          | Normal (items', templateChecks') =>
              merge_loop fuel' templateChecks' items'
          | Throw e => MergeThrows e
          | Beyond => MergeBeyond
          end
      end
  end.

(** The number of values in a document. *)
Fixpoint size (v : Json) : nat :=
  match v with
  | JsonArray items => S (list_sum (map size items))
  | JsonObject fields => S (list_sum (map (fun kv => size (snd kv)) fields))
  | _ => 1
  end.

(** The template is merged into the items of a store that is a parsed
    document whose [Items] is an object; anything else a hand-made entry of
    [localStorage] could hold is left out. *)
Definition merge_template (storeName : string)
  (template : list (string * Json)) (store : Json) : Completion Json :=
  match store with
  | JsonObject fields =>
      match own "Items" fields with
      | Some (JsonObject items) =>
          match merge_loop (S (size (JsonObject template)))
                  [{| checkObj := []; defaultObj := JsonObject template;
                      path := storeName ++ ".Items" |}]
                  (Some (JsonObject items)) with
          | Merged (Some items') =>
              Normal (JsonObject (replace_own "Items" items' fields))
          | MergeThrows e => Throw e
          | _ => Beyond
          end
      | _ => Beyond
      end
  | _ => Beyond
  end.

(** [GetInstantStore]: the world it leaves, and the store object the
    returned interface works on ([Items] is its property of that name). *)
Definition GetInstantStore `{Host} (storeName : string) (version : Q)
  (template : list (string * Json)) (forceNewData : bool) (w : World)
  : World * Completion Json :=
  if bool_decide (storeName ∈ RetrievedInstantStores w)
  then (w, Throw (Error ("Can't retrieve InstantStore (" ++ storeName
                         ++ ") twice.")))
  else
    let w :=
      set_RetrievedInstantStores ({[storeName]} ∪ RetrievedInstantStores w) w in
    let fresh :=
      JsonObject [("Version", JsonNumber version);
                  ("Items", JsonObject template)] in
    if forceNewData then (w, Normal fresh)
    else
      match localStorage w !! storeName with
      | None => (w, Normal fresh)
      | Some serialized =>
          match JSON_parse serialized with
          | None => (w, Throw SyntaxError)
          | Some JsonNull => (w, Throw TypeError)
          | Some parsed =>
              if is_number (property parsed "Version") version
              then (w, merge_template storeName template parsed)
              else (w, Normal fresh)
          end
      end.

(** The [Items] of the returned interface. *)
Definition Items (store : Json) : option Json := property store "Items".

(** [SaveChanges] of the returned interface, when the store object is
    [store]. *)
Definition SaveChanges `{Host} (storeName : string) (store : Json) (w : World)
  : World :=
  set_localStorage (<[storeName := JSON_stringify store]> (localStorage w)) w.

(** ** Dynamic store *)

Definition GetDynamicStoreItem (storeName itemName : string) (w : World)
  : option string :=
  localStorage w !! (storeName ++ ":" ++ itemName).

Definition SetDynamicStoreItem (storeName itemName content : string)
  (w : World) : World :=
  set_localStorage
    (<[storeName ++ ":" ++ itemName := content]> (localStorage w)) w.

(** ** Expire store *)

Inductive TimeUnit := Weeks | Months | Days | Hours | Minutes | Seconds.

Record ExpirationSettings := {
  Duration : Q;
  Unit : TimeUnit
}.

(** What the Cache API does to a call: it works, [caches.open] rejects, or
    the operation on the opened cache rejects. *)
Inductive Fault := Works | OpenRejects | OperationRejects.

(** [caches.open(storeName)]: the cache of that name, created when there is
    none. *)
Definition caches_open (storeName : string) (w : World)
  : World * gmap string string :=
  match caches w !! storeName with
  | Some cache => (w, cache)
  | None => (set_caches (<[storeName := ∅]> (caches w)) w, ∅)
  end.

Definition GetFromCacheAPI `{Host} (storeName itemName : string)
  (fault : Fault) (w : World) : World * Completion (option Json) :=
  match fault with
  | OpenRejects => (w, Throw HostError)
  | _ =>
      let '(w, cache) := caches_open storeName w in
      match fault with
      | OperationRejects => (w, Throw HostError)
      | _ =>
          match cache !! request_url ("/" ++ itemName) with
          | Some body =>
              match JSON_parse body with
              | Some v => (w, Normal (Some v))
              | None => (w, Throw SyntaxError)
              end
          | None => (w, Normal None)
          end
      end
  end.

Definition UpdateCacheAPI `{Host} (storeName itemName : string)
  (content : Json) (fault : Fault) (w : World) : World :=
  let failed w :=
    set_console
      (console w
       ++ [Warn ("Failed to Update Cache API (" ++ storeName ++ "/"
                 ++ itemName ++ ")");
           LogError HostError]) w in
  match fault with
  | OpenRejects => failed w
  | _ =>
      let '(w, cache) := caches_open storeName w in
      match fault with
      | OperationRejects => failed w
      | _ =>
          set_caches
            (<[storeName :=
                 <[request_url ("/" ++ itemName) := JSON_stringify content]>
                   cache]> (caches w)) w
      end
  end.

(** The interface [GetExpireStore] returns: the variables its two closures
    share. *)
Record ExpireStore := {
  storeName : string;
  version : Q;
  itemExpirationSettings : ExpirationSettings;
  forceNewData : bool
}.

Definition GetExpireStore (storeName : string) (version : Q)
  (itemExpirationSettings : ExpirationSettings) (forceNewData : bool)
  (w : World) : World * Completion ExpireStore :=
  if bool_decide (storeName ∈ RetrievedExpireStores w)
  then (w, Throw (Error ("Can't retrieve ExpireStore (" ++ storeName
                         ++ ") twice.")))
  else
    (set_RetrievedExpireStores ({[storeName]} ∪ RetrievedExpireStores w) w,
     Normal {| storeName := storeName; version := version;
               itemExpirationSettings := itemExpirationSettings;
               forceNewData := forceNewData |}).

(** [a < now] for the value [a] of a property and a number [now]; [None]
    where the comparison would convert a string or an object. *)
Definition less_than (a : option Json) (now : Z) : option bool :=
  match a with
  | None => Some false
  | Some JsonNull => Some (0 <? now)%Z
  | Some (JsonBool b) => Some ((if b then 1 else 0) <? now)%Z
  | Some (JsonNumber n) => Some (negb (Qle_bool (inject_Z now) n))
  | Some _ => None
  end.

(** [GetItem], when the clock shows [now] as the cached item arrives. *)
Definition GetItem `{Host} (store : ExpireStore) (itemName : string)
  (fault : Fault) (now : Z) (w : World) : World * Completion (option Json) :=
  if forceNewData store then (w, Normal None)
  else
    match GetFromCacheAPI (storeName store) itemName fault w with
    | (w, Normal expireItem) =>
        if negb (truthy_value expireItem) then (w, Normal None)
        else
          match expireItem with
          | Some item =>
              if negb (is_number (property item "CacheVersion")
                         (version store))
              then (w, Normal None)
              else
                match less_than (property item "ExpiresAt") now with
                | Some true => (w, Normal None)
                | Some false => (w, Normal (property item "Content"))
                | None => (w, Beyond)
                end
          | None => (w, Normal None)
          end
    | (w, Throw e) => (w, Throw e)
    | (w, Beyond) => (w, Beyond)
    end.

(** The integer a time value is clipped to, [None] for one out of the range
    of [Date]. *)
Definition TimeClip (t : Q) : option Z :=
  if Qle_bool (Qabs t) 8640000000000000
  then Some (if Qle_bool 0 t then Qfloor t else Qceiling t)
  else None.

(** [expireAtDate.getTime()] at the end of the [switch], when the clock
    shows [now]. *)
Definition expireAt `{Host} (settings : ExpirationSettings) (now : Z)
  : option Z :=
  match Unit settings with
  | Weeks =>
      d ← Date_setHours_0 now;
      Date_setDate d (inject_Z (Date_getDate d) + Duration settings * 7)
  | Months =>
      d ← Date_setHours_0 now;
      d ← Date_setMonth d (inject_Z (Date_getMonth d) + Duration settings);
      Date_setDate d 0
  | Days =>
      d ← Date_setHours_0 now;
      Date_setDate d (inject_Z (Date_getDate d) + Duration settings)
  | Hours => TimeClip (inject_Z now + Duration settings * 60 * 60 * 1000)
  | Minutes => TimeClip (inject_Z now + Duration settings * 60 * 1000)
  | Seconds => TimeClip (inject_Z now + Duration settings * 1000)
  end.

(** The JSON data of an [ExpireItem]; the time of an invalid date is
    written as [null]. *)
Definition ExpireItem (ExpiresAt : option Z) (CacheVersion : Q)
  (Content : Json) : Json :=
  JsonObject
    [("ExpiresAt", match ExpiresAt with
                   | Some t => JsonNumber (inject_Z t)
                   | None => JsonNull
                   end);
     ("CacheVersion", JsonNumber CacheVersion);
     ("Content", Content)].

(** [SetItem], when the clock shows [now]; the promise resolves to
    [content]. *)
Definition SetItem `{Host} (store : ExpireStore) (itemName : string)
  (content : Json) (fault : Fault) (now : Z) (w : World) : World * Json :=
  let expireItem :=
    ExpireItem (expireAt (itemExpirationSettings store) now) (version store)
      content in
  (UpdateCacheAPI (storeName store) itemName expireItem fault w, content).

(** ** Notions used in the statements *)

(** Every object of a document has its properties under distinct names. *)
Fixpoint unique_keys (v : Json) : bool :=
  match v with
  | JsonArray items => forallb unique_keys items
  | JsonObject fields =>
      bool_decide (NoDup (map fst fields))
      && forallb (fun kv => unique_keys (snd kv)) fields
  | _ => true
  end.

(** [new] is [old] or, for an object or an array, a value of the same
    kind. *)
Definition alike (old new : Json) : Prop :=
  match old, new with
  | JsonObject _, JsonObject _ => True
  | JsonArray _, JsonArray _ => True
  | JsonObject _, _ | JsonArray _, _ => False
  | _, _ => new = old
  end.

(** Every path that leads to a value in [old] leads to the like of it in
    [new]. *)
Definition keeps (old new : Json) : Prop :=
  forall p v,
    follow (Some old) p = Some v ->
    exists v', follow (Some new) p = Some v' /\ alike v v'.

(** [obj] has every property of [want], with a value of the same type, and
    so on inside the values of type "object". *)
#[local] Unset Elimination Schemes.
Inductive fits : Json -> Json -> Prop :=
  | fits_all obj want :
      (forall key w,
         (key, w) ∈ entries want ->
         exists x,
           read (Some obj) key = Has x
           /\ typeof x = typeof w
           /\ (typeof w = "object" -> fits x w)) ->
      fits obj want.
#[local] Set Elimination Schemes.

(** The merge, told as a recursion on the template: [visit] is one pass of
    the [for ... in] loop over the object [obj] itself, which notes in
    [later] the properties to descend into, last first; [settle] then
    descends into them in that order, to a depth of at most [depth].  The
    loop of the source is compared with it in [merge_loop_settle]. *)
Fixpoint visit (todo : list (string * Json)) (path : string) (obj : Json)
  (later : list (string * Json)) : Completion (Json * list (string * Json)) :=
  match todo with
  | [] => Normal (obj, later)
  | (key, want) :: todo' =>
      match read (Some obj) key with
      | ReadThrows => Throw TypeError
      | ReadBeyond => Beyond
      | Missing =>
          match write obj key want with
          | Some obj' => visit todo' path obj' later
          | None => Beyond
          end
      | Has have =>
          if String.eqb (typeof have) "object"
             && String.eqb (typeof want) "object"
          then visit todo' path obj ((key, want) :: later)
          else if negb (String.eqb (typeof have) (typeof want))
          then Throw (Error ("Template Type mismatch for " ++ quote
                             ++ path ++ "." ++ key ++ quote))
          else visit todo' path obj later
      end
  end.

(** The descent into the properties noted by [visit], [rec] settling each
    of them. *)
Fixpoint descend (rec : string -> Json -> Json -> Completion Json)
  (path : string) (later : list (string * Json)) (obj : Json)
  : Completion Json :=
  match later with
  | [] => Normal obj
  | (key, want) :: later' =>
      match read (Some obj) key with
      | Has have =>
          match rec (path ++ "." ++ key) have want with
          | Normal have' => descend rec path later' (replace obj key have')
          | Throw e => Throw e
          | Beyond => Beyond
          end
      | _ => Beyond
      end
  end.

Fixpoint settle (depth : nat) (path : string) (obj want : Json)
  : Completion Json :=
  match depth with
  | O => Beyond
  | S depth' =>
      match visit (entries want) path obj [] with
      | Normal (obj', later) => descend (settle depth') path later obj'
      | Throw e => Throw e
      | Beyond => Beyond
      end
  end.

(** ** A host for the examples

    JSON with whole numbers and strings without escapes, printed without
    white space; request paths resolved against one origin; the calendar of
    UTC. *)

Fixpoint sample_stringify (v : Json) : string :=
  match v with
  | JsonNull => "null"
  | JsonBool b => if b then "true" else "false"
  | JsonNumber n => pretty (Qfloor n)
  | JsonString s => quote ++ s ++ quote
  | JsonArray items =>
      "["
      ++ (fix elements (l : list Json) : string :=
            match l with
            | [] => EmptyString
            | x :: r =>
                sample_stringify x
                ++ match r with [] => EmptyString | _ => "," ++ elements r end
            end) items
      ++ "]"
  | JsonObject fields =>
      "{"
      ++ (fix members (l : list (string * Json)) : string :=
            match l with
            | [] => EmptyString
            | (k, x) :: r =>
                quote ++ k ++ quote ++ ":" ++ sample_stringify x
                ++ match r with [] => EmptyString | _ => "," ++ members r end
            end) fields
      ++ "}"
  end.

(** [s] without its prefix [p]. *)
Fixpoint strip (p s : string) : option string :=
  match p, s with
  | EmptyString, _ => Some s
  | String a p', String b s' => if Ascii.eqb a b then strip p' s' else None
  | String _ _, EmptyString => None
  end.

(** The characters up to the closing quote, and what follows it. *)
Fixpoint parse_string (s : string) : option (string * string) :=
  match s with
  | EmptyString => None
  | String a r =>
      if Ascii.eqb a (ascii_of_nat 34) then Some (EmptyString, r)
      else '(x, r') ← parse_string r; Some (String a x, r')
  end.

Fixpoint parse_digits (acc : N) (s : string) : N * string :=
  match s with
  | EmptyString => (acc, s)
  | String a r =>
      match digit a with
      | Some d => parse_digits (acc * 10 + d)%N r
      | None => (acc, s)
      end
  end.

Definition parse_number (s : string) : option (Json * string) :=
  let '(negative, s) :=
    match strip "-" s with
    | Some r => (true, r)
    | None => (false, s)
    end in
  match s with
  | EmptyString => None
  | String a _ =>
      match digit a with
      | Some _ =>
          let '(n, r) := parse_digits 0 s in
          Some (JsonNumber
                  (inject_Z (if negative then - Z.of_N n else Z.of_N n)%Z), r)
      | None => None
      end
  end.

Fixpoint parse_value (fuel : nat) (s : string) : option (Json * string) :=
  match fuel with
  | O => None
  | S fuel =>
      match strip "null" s, strip "true" s, strip "false" s with
      | Some r, _, _ => Some (JsonNull, r)
      | _, Some r, _ => Some (JsonBool true, r)
      | _, _, Some r => Some (JsonBool false, r)
      | _, _, _ =>
          match strip "[]" s, strip "[" s, strip "{}" s, strip "{" s with
          | Some r, _, _, _ => Some (JsonArray [], r)
          | _, Some r, _, _ =>
              '(l, r') ← parse_elements fuel r; Some (JsonArray l, r')
          | _, _, Some r, _ => Some (JsonObject [], r)
          | _, _, _, Some r =>
              '(l, r') ← parse_members fuel r; Some (JsonObject l, r')
          | _, _, _, _ =>
              match strip quote s with
              | Some r => '(x, r') ← parse_string r; Some (JsonString x, r')
              | None => parse_number s
              end
          end
      end
  end
with parse_elements (fuel : nat) (s : string) : option (list Json * string) :=
  match fuel with
  | O => None
  | S fuel =>
      '(v, r) ← parse_value fuel s;
      match strip "," r, strip "]" r with
      | Some r', _ => '(l, r'') ← parse_elements fuel r'; Some (v :: l, r'')
      | _, Some r' => Some ([v], r')
      | _, _ => None
      end
  end
with parse_members (fuel : nat) (s : string)
  : option (list (string * Json) * string) :=
  match fuel with
  | O => None
  | S fuel =>
      r ← strip quote s;
      '(k, r) ← parse_string r;
      r ← strip ":" r;
      '(v, r) ← parse_value fuel r;
      match strip "," r, strip "}" r with
      | Some r', _ => '(l, r'') ← parse_members fuel r'; Some ((k, v) :: l, r'')
      | _, Some r' => Some ([(k, v)], r')
      | _, _ => None
      end
  end.

Definition sample_parse (s : string) : option Json :=
  match parse_value (2 * String.length s + 2) s with
  | Some (v, EmptyString) => Some v
  | _ => None
  end.

(** The day number of a date of the Gregorian calendar ([m] from 1 to 12),
    counted from 1 January 1970, and the date of a day number. *)
Definition days_from_civil (y m d : Z) : Z :=
  (let y := if m <=? 2 then y - 1 else y in
   let era := y / 400 in
   let yoe := y - era * 400 in
   let doy := (153 * (if 2 <? m then m - 3 else m + 9) + 2) / 5 + d - 1 in
   let doe := yoe * 365 + yoe / 4 - yoe / 100 + doy in
   era * 146097 + doe - 719468)%Z.

Definition civil_from_days (z : Z) : Z * Z * Z :=
  (let z := z + 719468 in
   let era := z / 146097 in
   let doe := z - era * 146097 in
   let yoe := (doe - doe / 1460 + doe / 36524 - doe / 146096) / 365 in
   let doy := doe - (365 * yoe + yoe / 4 - yoe / 100) in
   let mp := (5 * doy + 2) / 153 in
   let d := doy - (153 * mp + 2) / 5 + 1 in
   let m := if mp <? 10 then mp + 3 else mp - 9 in
   (if m <=? 2 then yoe + era * 400 + 1 else yoe + era * 400, m, d))%Z.

Definition msPerDay : Z := 86400000.

(** The time of the day [t] is in, moved to the day [date] of the month
    [month] (from 0) of the year [year]; months and days out of range carry
    over. *)
Definition sample_date (t year month : Z) (date : Q) : option Z :=
  (let date := if Qle_bool 0 date then Qfloor date else Qceiling date in
   let day := days_from_civil (year + month / 12) (month mod 12 + 1) 1
              + date - 1 in
   TimeClip (inject_Z (day * msPerDay + t mod msPerDay)))%Z.

Definition sample_Host : Host := {|
  JSON_parse := sample_parse;
  JSON_stringify := sample_stringify;
  request_url := fun path => "https://example.org" ++ path;
  Date_setHours_0 := fun t => Some (t - t mod msPerDay)%Z;
  Date_getDate := fun t => snd (civil_from_days (t / msPerDay));
  Date_setDate := fun t date =>
    let '(y, m, _) := civil_from_days (t / msPerDay) in
    sample_date t y (m - 1) date;
  Date_getMonth := fun t => (snd (fst (civil_from_days (t / msPerDay))) - 1)%Z;
  Date_setMonth := fun t month =>
    let '(y, _, d) := civil_from_days (t / msPerDay) in
    sample_date t y (if Qle_bool 0 month then Qfloor month else Qceiling month)
      (inject_Z d)
|}.

(** A world in which nothing is stored yet. *)
Definition sample_World : World := {|
  localStorage := ∅; caches := ∅;
  RetrievedInstantStores := ∅; RetrievedExpireStores := ∅; console := []
|}.

(** A template, a store saved under it earlier, and the world that holds
    it. *)
Definition sample_template : list (string * Json) :=
  [("volume", JsonNumber 5);
   ("theme", JsonObject [("dark", JsonBool true); ("accent", JsonString "red")])].

Definition sample_stored : Json :=
  JsonObject [("Version", JsonNumber 1);
              ("Items", JsonObject [("theme", JsonObject [("dark", JsonBool false)]);
                                    ("seen", JsonArray [JsonNumber 3])])].

Definition sample_saved : World :=
  SaveChanges (H := sample_Host) "settings" sample_stored sample_World.

(** An expire store whose items last two hours. *)
Definition sample_ExpireStore : ExpireStore := {|
  storeName := "covers"; version := 2;
  itemExpirationSettings := {| Duration := 2; Unit := Hours |};
  forceNewData := false
|}.

End Stores.

(** * Proofs *)

#[local] Arguments Qmult : simpl never.
#[local] Arguments Qdiv : simpl never.
#[local] Arguments Qle_bool : simpl never.
#[local] Arguments inject_Z : simpl never.
#[local] Arguments progress_of : simpl never.

(** ** Evaluating the model

    The methods are chains of record updates.  [norm] evaluates them by
    value, unfolding the definitions of the model and nothing else; a branch
    on a field of the state would stay stuck in the middle of a chain, so the
    state is first opened into its fields ([open_state]) and the fields the
    code branches on are split by cases. *)

Ltac norm :=
  cbv beta iota zeta delta
    [logE with_container with_uniforms dispose_texture render_if_ready
     cancel_frame disconnect_observer new_texture new_canvas
     animate startAnimation completeTransition cancel_transition
     dispose_uniforms dispose_material dispose_current_texture
     dispose_renderer cleanup run_cleanup DisposeShaderUniforms
     initializeTexture_resume set_status state_of
     updateContainerDimensions on_resize
     set_Time set_RotationSpeed set_BlurredCoverArt set_NewBlurredCoverArt
     set_TransitionProgress
     set_renderer set_uniforms set_texture set_material set_animationFrameId
     set_parentElement set_data_cover_id
     set_container set_maid set_resizeObserver set_blurAmount set_rotationSpeed
     set_currentImage set_currentPlaceholderHueShift set_blurredCoverArts
     set_sessions set_updates set_frames set_nextFrame set_nextObject
     set_performance_now set_devicePixelRatio set_log
     container maid resizeObserver blurAmount transitionDuration rotationSpeed
     currentImage currentPlaceholderHueShift blurredCoverArts sessions updates
     frames nextFrame nextObject performance_now devicePixelRatio log
     renderer uniforms texture material animationFrameId parentElement
     data_cover_id
     Time RotationSpeed BlurredCoverArt NewBlurredCoverArt TransitionProgress
     BackgroundCircleOrigin BackgroundCircleRadius CenterCircleOrigin
     CenterCircleRadius LeftCircleOrigin LeftCircleRadius RightCircleOrigin
     RightCircleRadius contextLost rendererSize pixelRatio
     Destroyed Items RunsOnClean IsDestroyed
     transition_resume animateTransition Give give
     getBlurredCoverArt_start getBlurredCoverArt_finish Update
     AppendToElement nullish image placeholderHueShift blur speed
     texture_id texture_image canvas_paint
     fst snd negb andb orb mbind option_bind] in *.

Ltac open_state s :=
  destruct s as [[ren [ut ur ucur unew utp ubo ubr uco ucr ulo ulr uro urr]
                    tex mat af pe dc] [md mi mr] ro ba td rs ci ch bc ss us
                   fr nf no pn dp lg].

Ltac stuck_split :=
  match goal with
  | |- context [match ?x with _ => _ end] =>
      lazymatch x with
      | context [match _ with _ => _ end] => fail
      | _ => destruct x eqn:?
      end
  end.

(** ** Numbers and the uniform declarations *)

Lemma num_neq_false a b : a == b -> num_neq a b = false.
Proof.
  intros H. unfold num_neq. apply Qeq_bool_iff in H. rewrite H. reflexivity.
Qed.

Lemma Math_max_r a b : b <= Math_max a b.
Proof.
  unfold Math_max. destruct (Qle_bool a b) eqn:E.
  - apply Qle_refl.
  - apply Qlt_le_weak, Qnot_le_lt. intros H. apply Qle_bool_iff in H. congruence.
Qed.

Lemma Math_max_clamp a b : a <= b -> Math_max a b = b.
Proof.
  intros H. unfold Math_max. apply Qle_bool_iff in H. rewrite H. reflexivity.
Qed.

Lemma Math_max_keep a b : b < a -> Math_max a b = a.
Proof.
  intros H. unfold Math_max. destruct (Qle_bool a b) eqn:E; [|reflexivity].
  apply Qle_bool_iff in E. exfalso. apply (Qlt_not_le _ _ H E).
Qed.

Lemma ShaderUniformStructure_eq :
  ShaderUniformStructure =
  [("Time", "float"); ("RotationSpeed", "float");
   ("BlurredCoverArt", "sampler2D"); ("NewBlurredCoverArt", "sampler2D");
   ("TransitionProgress", "float");
   ("BackgroundCircleOrigin", "vec2"); ("BackgroundCircleRadius", "float");
   ("CenterCircleOrigin", "vec2"); ("CenterCircleRadius", "float");
   ("LeftCircleOrigin", "vec2"); ("LeftCircleRadius", "float");
   ("RightCircleOrigin", "vec2"); ("RightCircleRadius", "float")].
Proof. vm_compute. reflexivity. Qed.

(** ** Sessions *)

Section Sessions.
Implicit Types (s : DynamicBackground) (a : Session) (sid : nat).

Lemma with_session_hit sid f s a :
  sessions s !! sid = Some a ->
  with_session sid f s = set_sessions (<[sid := f a]> (sessions s)) s.
Proof. intros H. unfold with_session. rewrite H. reflexivity. Qed.

Lemma sessions_set_sessions l s : sessions (set_sessions l s) = l.
Proof. destruct s; reflexivity. Qed.

Lemma set_sessions_twice l l' s :
  set_sessions l (set_sessions l' s) = set_sessions l s.
Proof. destruct s; reflexivity. Qed.

Lemma lookup_with_session sid f s a :
  sessions s !! sid = Some a ->
  sessions (with_session sid f s) !! sid = Some (f a).
Proof.
  intros H. rewrite (with_session_hit _ _ _ _ H), sessions_set_sessions.
  apply list_lookup_insert_eq. eapply lookup_lt_Some, H.
Qed.

Lemma lookup_with_session_ne sid sid' f s :
  sid <> sid' ->
  sessions (with_session sid f s) !! sid' = sessions s !! sid'.
Proof.
  intros H. unfold with_session. destruct (sessions s !! sid); [|reflexivity].
  rewrite sessions_set_sessions. apply list_lookup_insert_ne, H.
Qed.

Lemma sessions_with_uniforms f s : sessions (with_uniforms f s) = sessions s.
Proof. open_state s. reflexivity. Qed.

Lemma sessions_render_if_ready s : sessions (render_if_ready s) = sessions s.
Proof. open_state s. destruct ren; reflexivity. Qed.

Lemma is_canceled_hit sid s a :
  sessions s !! sid = Some a -> is_canceled sid s = canceled a.
Proof. intros H. unfold is_canceled. rewrite H. reflexivity. Qed.

Lemma advance_unscheduled sid s a :
  sessions s !! sid = Some a ->
  advance sid (with_session sid (set_scheduled None) s) = stepped sid a s.
Proof.
  intros Ha. unfold advance, stepped.
  pose proof (lookup_with_session _ (set_scheduled None) _ _ Ha) as H1.
  rewrite (lookup_with_session _ _ _ _ H1).
  rewrite (with_session_hit _ _ _ _ H1), (with_session_hit _ _ _ _ Ha).
  rewrite sessions_set_sessions, set_sessions_twice, list_insert_insert_eq.
  destruct a; reflexivity.
Qed.

Lemma lookup_stepped sid s a :
  sessions s !! sid = Some a ->
  sessions (stepped sid a s) !! sid
  = Some (set_currentStep (S (currentStep a)) (set_scheduled None a)).
Proof.
  intros Ha. unfold stepped. rewrite sessions_render_if_ready.
  rewrite sessions_with_uniforms, sessions_set_sessions.
  apply list_lookup_insert_eq. eapply lookup_lt_Some, Ha.
Qed.

Lemma performAnimationStep_live sid s a :
  sessions s !! sid = Some a -> canceled a = false ->
  performAnimationStep sid s =
    if (S (currentStep a) <? totalSteps)%nat
    then with_session sid (set_scheduled (Some (stepDuration a))) (stepped sid a s)
    else finish sid a (stepped sid a s).
Proof.
  intros Ha Hc. unfold performAnimationStep. rewrite Ha.
  rewrite (is_canceled_hit _ _ _ (lookup_with_session _ _ _ _ Ha)).
  replace (canceled (set_scheduled None a)) with false
    by (destruct a; symmetry; exact Hc).
  rewrite (advance_unscheduled _ _ _ Ha).
  rewrite (is_canceled_hit _ _ _ (lookup_stepped _ _ _ Ha)).
  replace (canceled _) with false by (destruct a; symmetry; exact Hc).
  rewrite andb_true_r. reflexivity.
Qed.

Lemma performAnimationStep_canceled sid s a :
  sessions s !! sid = Some a -> canceled a = true ->
  performAnimationStep sid s
  = resolve sid (with_session sid (set_scheduled None) s).
Proof.
  intros Ha Hc. unfold performAnimationStep. rewrite Ha.
  rewrite (is_canceled_hit _ _ _ (lookup_with_session _ _ _ _ Ha)).
  replace (canceled (set_scheduled None a)) with true
    by (destruct a; symmetry; exact Hc).
  reflexivity.
Qed.

End Sessions.

Lemma completeTransition_commit t url s :
  let s' := completeTransition t url s in
  TransitionProgress (uniforms (container s')) = 0
  /\ texture (container s') = Some t
  /\ BlurredCoverArt (uniforms (container s')) = JObj t
  /\ NewBlurredCoverArt (uniforms (container s')) = JNull
  /\ RotationSpeed (uniforms (container s')) = rotationSpeed s
  /\ currentImage s' = Some url
  /\ sessions s' = sessions s
  /\ maid s' = maid s
  /\ rotationSpeed s' = rotationSpeed s.
Proof.
  open_state s. destruct tex, ren as [[[] ? ?]|], af; norm; repeat split; reflexivity.
Qed.

(** ** One transition, from its start to its commit *)

Section Transition.
Implicit Types (s : DynamicBackground) (a : Session) (sid : nat).

Lemma find_fresh (items : list (nat * Cleanup)) (c : Cleanup) :
  List.find (fun i => Nat.eqb (fst i) (fresh_key items)) (items ++ [(fresh_key items, c)])
  = Some (fresh_key items, c).
Proof.
  assert (H : forall (l : list (nat * Cleanup)) n,
            Forall (fun k => (k <= n)%nat) (map fst l) ->
            List.find (fun i : nat * Cleanup => Nat.eqb (fst i) (S n))
              (l ++ [(S n, c)]) = Some (S n, c)).
  { induction l as [|[k c'] l IH]; intros n Hn; cbn [map fst app List.find].
    - rewrite Nat.eqb_refl. reflexivity.
    - apply Forall_cons in Hn as [Hk Hn]. cbn [fst] in Hk.
      destruct (Nat.eqb_spec k (S n)); [lia|]. apply IH, Hn. }
  apply H. apply list_max_le. reflexivity.
Qed.

Lemma transition_resume_starts uid image c s :
  Qle_bool (transitionDuration s) 0 = false ->
  let t := {| texture_id := nextObject s; texture_image := c |} in
  let sid := List.length (sessions s) in
  let s1 := transition_resume uid image c s in
  exists key,
    sessions s1 =
      sessions s ++
      [{| newTexture := t; newCoverArtUrl := image;
          stepDuration := transitionDuration s * 1000 / 10;
          currentStep := O; canceled := false; cleanupKey := key;
          scheduled := Some 50; resolved := false |}]
    /\ registered (maid s1) key sid
    /\ texture (container s1) = texture (container s)
    /\ currentImage s1 = currentImage s
    /\ NewBlurredCoverArt (uniforms (container s1)) = JObj t
    /\ TransitionProgress (uniforms (container s1)) = 0.
Proof.
  intros Hd. open_state s.
  destruct md, unew, ren as [[[] ? ?]|], tex, af; norm; rewrite Hd.
  all: eexists; (split; [reflexivity|]); (split; [|repeat split; reflexivity]).
  all: cbn; auto using find_fresh.
Qed.

Lemma stepped_fields sid a s :
  maid (stepped sid a s) = maid s
  /\ texture (container (stepped sid a s)) = texture (container s)
  /\ currentImage (stepped sid a s) = currentImage s
  /\ NewBlurredCoverArt (uniforms (container (stepped sid a s)))
     = NewBlurredCoverArt (uniforms (container s))
  /\ progress (stepped sid a s) = progress_of (S (currentStep a)).
Proof.
  unfold stepped, progress. open_state s. destruct ren; norm; repeat split; reflexivity.
Qed.

Lemma with_session_fields sid f s :
  maid (with_session sid f s) = maid s
  /\ container (with_session sid f s) = container s
  /\ currentImage (with_session sid f s) = currentImage s.
Proof.
  unfold with_session. destruct (sessions s !! sid); [|auto].
  destruct s; auto.
Qed.

Lemma in_flight_step sid t url k s0 s :
  in_flight sid t url k s0 s -> (S k < totalSteps)%nat ->
  in_flight sid t url (S k) s0 (performAnimationStep sid s)
  /\ timer_pending sid (performAnimationStep sid s) = true.
Proof.
  intros (a & Ha & Hk & Hc & Hs & Ht & Hu & Hr & Htex & Hci & Hnew & Hp) Hlt.
  rewrite (performAnimationStep_live _ _ _ Ha Hc). subst k.
  apply Nat.ltb_lt in Hlt. rewrite Hlt.
  pose proof (lookup_with_session _ (set_scheduled (Some (stepDuration a))) _ _
                (lookup_stepped _ _ _ Ha)) as Hl.
  destruct (with_session_fields sid (set_scheduled (Some (stepDuration a)))
              (stepped sid a s)) as (Em & Ec & Ei).
  destruct (stepped_fields sid a s) as (Fm & Ft & Fi & Fn & Fp).
  split.
  - eexists. split; [exact Hl|]. unfold progress. rewrite Em, Ec, Ei, Fm, Ft, Fi, Fn.
    fold (progress (stepped sid a s)). rewrite Fp.
    destruct a; cbn in *. repeat split; eauto.
  - unfold timer_pending. rewrite Hl. destruct a; reflexivity.
Qed.

Lemma committed_with_session sid f t url s :
  committed t url s -> committed t url (with_session sid f s).
Proof.
  unfold committed, progress.
  destruct (with_session_fields sid f s) as (_ & -> & ->). auto.
Qed.

Lemma committed_cancel_transition sid t url s :
  committed t url s -> committed t url (cancel_transition sid s).
Proof.
  unfold cancel_transition. intros H.
  apply (committed_with_session sid (set_canceled true)) in H.
  revert H. generalize (with_session sid (set_canceled true) s). clear s.
  intros s. unfold committed, progress. open_state s. norm. tauto.
Qed.

Lemma sessions_cancel_transition sid s :
  sessions (cancel_transition sid s)
  = sessions (with_session sid (set_canceled true) s).
Proof.
  unfold cancel_transition.
  generalize (with_session sid (set_canceled true) s). clear s.
  intros s. open_state s. reflexivity.
Qed.

(** What [maid.Clean(cleanupKey)] does at the end of a transition. *)
Lemma Maid_Clean_transition k sid s :
  Destroyed (maid s) = false ->
  List.find (fun i => Nat.eqb (fst i) k) (Items (maid s))
  = Some (k, CleanTransition sid) ->
  exists m,
    Maid_Clean k s
    = if RunsOnClean (maid s) then cancel_transition sid (set_maid m s)
      else set_maid m s.
Proof.
  intros Hd Hf. unfold Maid_Clean. rewrite Hd, Hf. eexists. reflexivity.
Qed.

Lemma committed_set_maid m t url s :
  committed t url s -> committed t url (set_maid m s).
Proof. unfold committed, progress. destruct s. auto. Qed.

Lemma sessions_set_maid m s : sessions (set_maid m s) = sessions s.
Proof. destruct s; reflexivity. Qed.

(** The effect of the last step: the state just before the commit shows
    progress one, and the step ends with the commit. *)
Lemma in_flight_last sid t url s0 s :
  in_flight sid t url (totalSteps - 1) s0 s ->
  exists a pre,
    sessions s !! sid = Some a
    /\ pre = stepped sid a s
    /\ progress pre == 1
    /\ texture (container pre) = texture (container s0)
    /\ NewBlurredCoverArt (uniforms (container pre)) = JObj t
    /\ performAnimationStep sid s = finish sid a pre
    /\ committed t url (performAnimationStep sid s)
    /\ timer_pending sid (performAnimationStep sid s) = false
    /\ (exists a', sessions (performAnimationStep sid s) !! sid = Some a'
                   /\ resolved a' = true).
Proof.
  intros (a & Ha & Hk & Hc & Hs & Ht & Hu & Hr & Htex & Hci & Hnew & Hp).
  exists a, (stepped sid a s).
  destruct (stepped_fields sid a s) as (Fm & Ft & Fi & Fn & Fp).
  rewrite (performAnimationStep_live _ _ _ Ha Hc), Hk. cbn [totalSteps Nat.sub Nat.ltb Nat.leb].
  split; [exact Ha|]. split; [reflexivity|].
  split; [rewrite Fp, Hk; reflexivity|].
  split; [congruence|]. split; [congruence|]. split; [reflexivity|].
  pose proof (lookup_stepped _ _ _ Ha) as Hl.
  unfold finish. rewrite (is_canceled_hit _ _ _ Hl).
  replace (canceled _) with false by (destruct a; symmetry; exact Hc).
  destruct (completeTransition_commit (newTexture a) (newCoverArtUrl a)
              (stepped sid a s)) as (C1 & C2 & C3 & C4 & _ & C6 & C7 & C8 & _).
  set (s2 := completeTransition _ _ _) in *.
  assert (Hcom : committed t url s2).
  { unfold committed, progress. subst t url. auto. }
  assert (Hl2 : sessions s2 !! sid
                = Some (set_currentStep (S (currentStep a)) (set_scheduled None a)))
    by (rewrite C7; exact Hl).
  (* the cancellation of the tracker registration *)
  assert (Hclean : exists s3,
             match cleanupKey a with
             | Some k => if IsDestroyed (maid s2) then s2 else Maid_Clean k s2
             | None => s2
             end = s3
             /\ committed t url s3
             /\ exists a3, sessions s3 !! sid = Some a3 /\ scheduled a3 = None).
  { eexists. split; [reflexivity|].
    assert (Hbase : committed t url s2 /\
              exists a3, sessions s2 !! sid = Some a3 /\ scheduled a3 = None).
    { split; [exact Hcom|]. eexists. split; [exact Hl2|]. destruct a; reflexivity. }
    destruct (cleanupKey a) as [k|]; [|exact Hbase].
    unfold IsDestroyed. destruct (Destroyed (maid s2)) eqn:Hd; [exact Hbase|].
    cbn in Hr. rewrite C8, Fm in Hd. destruct Hr as [Hr|Hr]; [congruence|].
    destruct (Maid_Clean_transition k sid s2) as (m & ->).
    { rewrite C8, Fm. exact Hd. } { rewrite C8, Fm. exact Hr. }
    assert (Hm : committed t url (set_maid m s2) /\
              exists a3, sessions (set_maid m s2) !! sid = Some a3 /\ scheduled a3 = None).
    { split; [apply committed_set_maid, Hcom|].
      rewrite sessions_set_maid. eexists. split; [exact Hl2|]. destruct a; reflexivity. }
    destruct (RunsOnClean (maid s2)); [|exact Hm].
    destruct Hm as (Hm1 & a3 & Hm2 & Hm3).
    split; [apply committed_cancel_transition, Hm1|].
    rewrite sessions_cancel_transition.
    eexists. split; [apply lookup_with_session, Hm2|]. destruct a3; exact Hm3. }
  destruct Hclean as (s3 & -> & Hc3 & a3 & Hl3 & Hs3).
  split; [apply committed_with_session, Hc3|].
  unfold resolve. pose proof (lookup_with_session _ (set_resolved true) _ _ Hl3) as Hl4.
  split.
  - unfold timer_pending. rewrite Hl4. destruct a3; cbn in *. rewrite Hs3. reflexivity.
  - eexists. split; [exact Hl4|]. destruct a3; reflexivity.
Qed.


Lemma in_flight_iter sid t url s0 s1 :
  in_flight sid t url 0 s0 s1 ->
  forall k, (k < totalSteps)%nat ->
    in_flight sid t url k s0 (Nat.iter k (performAnimationStep sid) s1).
Proof.
  intros H0 k. induction k as [|k IH]; intros Hk; [exact H0|].
  cbn [Nat.iter nat_rect]. apply in_flight_step; [apply IH; lia | exact Hk].
Qed.

End Transition.

(** ** Footprints of the methods *)

Section Relations.
Implicit Types s : DynamicBackground.

Lemma gentle_refl s : gentle s s.
Proof. split; auto. Qed.

Lemma gentle_trans s0 s1 s2 : gentle s0 s1 -> gentle s1 s2 -> gentle s0 s2.
Proof.
  intros [A1 A2] [B1 B2]. split; [auto|].
  destruct B2 as [B2|B2]; [rewrite B2; exact A2 | right; exact B2].
Qed.

Lemma quiet_refl s : quiet s s.
Proof. repeat split; auto. Qed.

Lemma quiet_trans s0 s1 s2 : quiet s0 s1 -> quiet s1 s2 -> quiet s0 s2.
Proof.
  intros (A1 & A2 & A3 & A4 & A5) (B1 & B2 & B3 & B4 & B5).
  repeat split; auto; congruence.
Qed.

Lemma dark_refl s : dark s s.
Proof. repeat split; auto. Qed.

Lemma dark_trans s0 s1 s2 : dark s0 s1 -> dark s1 s2 -> dark s0 s2.
Proof.
  intros (A1 & A2) (B1 & B2). split; [auto|].
  intros H. destruct (A2 H) as (A3 & A4 & A5). destruct (B2 A4) as (B3 & B4 & B5).
  repeat split; auto; congruence.
Qed.

Lemma quiet_dark s0 s : quiet s0 s -> dark s0 s.
Proof.
  intros (A1 & A2 & A3 & A4 & A5). split; [congruence|]. auto.
Qed.

End Relations.

Ltac settle :=
  norm; unfold gentle, quiet, dark, rendered, progress, steps_ok, idle in *;
  cbn [log sessions container uniforms TransitionProgress frames
       resizeObserver renderer existsb is_render orb] in *;
  repeat split; intros; subst; auto; try discriminate; try congruence.

Ltac settle_all := norm; repeat (stuck_split; norm); settle.

Section Footprints.
Implicit Types (s : DynamicBackground) (a : Session) (sid : nat).

Lemma calm_refl s : calm s s.
Proof. split; [apply gentle_refl | apply quiet_refl]. Qed.

Lemma calm_trans s0 s1 s2 : calm s0 s1 -> calm s1 s2 -> calm s0 s2.
Proof.
  intros [A B] [C D]. split; [eapply gentle_trans | eapply quiet_trans]; eauto.
Qed.

Lemma tame_refl s : tame s s.
Proof. split; [apply gentle_refl | apply dark_refl]. Qed.

Lemma tame_trans s0 s1 s2 : tame s0 s1 -> tame s1 s2 -> tame s0 s2.
Proof.
  intros [A B] [C D]. split; [eapply gentle_trans | eapply dark_trans]; eauto.
Qed.

Lemma calm_tame s0 s : calm s0 s -> tame s0 s.
Proof. intros [A B]. split; [exact A | apply quiet_dark, B]. Qed.

(** *** Sessions *)

Lemma with_session_calm sid f s :
  (forall a, (is_Some (scheduled (f a)) -> is_Some (scheduled a))
             /\ currentStep (f a) = currentStep a) ->
  calm s (with_session sid f s).
Proof.
  intros Hf. unfold with_session.
  destruct (sessions s !! sid) as [a|] eqn:Ha; [|apply calm_refl].
  assert (Hs : sessions (set_sessions (<[sid:=f a]> (sessions s)) s)
               = <[sid:=f a]> (sessions s)) by (destruct s; reflexivity).
  unfold calm, gentle, quiet, steps_ok, idle, rendered, progress.
  rewrite Hs. destruct s; cbn in *.
  repeat split; auto; intros H; apply Forall_insert; auto.
  - destruct (Hf a) as [Hs' ->]. intros Hsome.
    eapply (proj1 (Forall_lookup _ _) H); [exact Ha | auto].
  - destruct (Hf a) as [Hs' _].
    pose proof (proj1 (Forall_lookup _ _) H _ _ Ha) as Hn. cbn in Hn.
    destruct (scheduled (f a)) eqn:E; [|reflexivity].
    destruct Hs' as [x Hx]; [eauto | congruence].
Qed.

Lemma with_session_dark sid f s : dark s (with_session sid f s).
Proof.
  unfold with_session. destruct (sessions s !! sid); [|apply dark_refl].
  unfold dark, rendered. destruct s; cbn. auto.
Qed.

Lemma resolve_calm sid s : calm s (resolve sid s).
Proof. apply with_session_calm. intros []; auto. Qed.

Lemma cancel_uniforms_calm s :
  calm s (with_uniforms (set_RotationSpeed (rotationSpeed s))
            (with_uniforms (set_TransitionProgress 0) s)).
Proof. open_state s. split; settle. Qed.

Lemma cancel_transition_calm sid s : calm s (cancel_transition sid s).
Proof.
  unfold cancel_transition.
  eapply calm_trans; [apply (with_session_calm sid (set_canceled true)); intros []; auto|].
  set (s1 := with_session _ _ _).
  replace (rotationSpeed (with_uniforms (set_TransitionProgress 0) s1))
    with (rotationSpeed s1) by (destruct s1; reflexivity).
  apply cancel_uniforms_calm.
Qed.

(** *** Teardown *)

Lemma cleanup_calm s : calm s (cleanup s).
Proof.
  open_state s. destruct ro, af, ucur, unew, mat, tex, ren; split; settle.
Qed.

Lemma run_cleanup_calm c s : calm s (run_cleanup c s).
Proof.
  destruct c; try apply cleanup_calm; try apply cancel_transition_calm.
  - open_state s. split; settle.
  - open_state s. destruct ren; split; settle.
  - open_state s. destruct mat; split; settle.
  - open_state s. destruct tex; split; settle.
  - open_state s. destruct ucur, unew; split; settle.
  - open_state s. destruct af; split; settle.
  - open_state s. destruct pe; split; settle.
  - open_state s. split; settle.
  - open_state s. destruct ro; split; settle.
Qed.

Lemma run_all_calm (items : list (nat * Cleanup)) s :
  calm s (fold_left (fun s '(_, c) => run_cleanup c s) items s).
Proof.
  revert s. induction items as [|[k c] items IH]; intros s; [apply calm_refl|].
  cbn [fold_left]. eapply calm_trans; [apply run_cleanup_calm | apply IH].
Qed.

Lemma set_maid_calm m s : calm s (set_maid m s).
Proof. open_state s. split; settle. Qed.

Lemma Maid_Destroy_calm s : calm s (Maid_Destroy s).
Proof.
  unfold Maid_Destroy. destruct (Destroyed (maid s)); [apply calm_refl|].
  eapply calm_trans; [apply run_all_calm | apply set_maid_calm].
Qed.

Lemma Destroy_calm s : calm s (Destroy s).
Proof.
  unfold Destroy. destruct (IsDestroyed (maid s)); [apply cleanup_calm|].
  eapply calm_trans; [apply cleanup_calm | apply Maid_Destroy_calm].
Qed.

Lemma Maid_Clean_calm k s : calm s (Maid_Clean k s).
Proof.
  unfold Maid_Clean. destruct (Destroyed (maid s)); [apply calm_refl|].
  destruct (List.find _ _) as [[k' c]|]; [|apply calm_refl].
  destruct (RunsOnClean (maid s)); [|apply set_maid_calm].
  eapply calm_trans; [apply set_maid_calm | apply run_cleanup_calm].
Qed.

(** *** Rendering and transitions *)

Lemma frame_tame f s :
  tame s (animate (set_frames (filter (fun g => g <> f) (frames s)) s)).
Proof. open_state s. destruct ren as [[[] ? ?]|], af; split; settle. Qed.

Lemma completeTransition_tame t url s : tame s (completeTransition t url s).
Proof.
  open_state s. destruct tex, ren as [[[] ? ?]|], af; split; settle.
Qed.

Lemma finish_tame sid a s : tame s (finish sid a s).
Proof.
  unfold finish. destruct (is_canceled sid s); [apply calm_tame, resolve_calm|].
  eapply tame_trans; [apply completeTransition_tame|].
  eapply tame_trans; [|apply calm_tame, resolve_calm].
  destruct (cleanupKey a); [|apply tame_refl].
  destruct (IsDestroyed _); [apply tame_refl | apply calm_tame, Maid_Clean_calm].
Qed.

Lemma stepped_dark sid a s : dark s (stepped sid a s).
Proof. unfold stepped. open_state s. destruct ren; settle. Qed.

Lemma unschedule_calm sid s : calm s (with_session sid (set_scheduled None) s).
Proof.
  apply with_session_calm. intros []; cbn. split; [|reflexivity].
  intros [x Hx]. discriminate.
Qed.

Lemma performAnimationStep_dark sid s : dark s (performAnimationStep sid s).
Proof.
  destruct (sessions s !! sid) as [a|] eqn:Ha.
  - destruct (canceled a) eqn:Hc.
    + rewrite (performAnimationStep_canceled _ _ _ Ha Hc).
      eapply dark_trans; apply quiet_dark;
        [apply unschedule_calm | apply resolve_calm].
    + rewrite (performAnimationStep_live _ _ _ Ha Hc).
      destruct (_ <? _)%nat.
      * eapply dark_trans; [apply stepped_dark | apply with_session_dark].
      * eapply dark_trans; [apply stepped_dark | apply finish_tame].
  - unfold performAnimationStep. rewrite Ha. apply dark_refl.
Qed.

End Footprints.

(** *** The public methods and the awaited continuations *)

Lemma Update_calm o s : calm s (Update o s).
Proof.
  open_state s. destruct o as [img oh ob os]. destruct md, tex, af.
  all: split; settle_all.
Qed.

Lemma set_status_calm uid st s : calm s (set_status uid st s).
Proof. open_state s. split; settle. Qed.

Lemma finish_cover_calm url hue w h s :
  calm s (fst (getBlurredCoverArt_finish url hue w h s)).
Proof. open_state s. split; settle. Qed.

Lemma decode_resolved_calm uid w h s s' :
  decode_resolved uid w h s = Some s' -> calm s s'.
Proof.
  unfold decode_resolved.
  destruct (updates s !! uid) as [[first img hue [|c]| | |]|]; try discriminate.
  destruct (getBlurredCoverArt_finish img hue w h s) as [s1 c] eqn:E.
  intros [= <-]. eapply calm_trans; [|apply set_status_calm].
  replace s1 with (fst (getBlurredCoverArt_finish img hue w h s))
    by (rewrite E; reflexivity).
  apply finish_cover_calm.
Qed.

Lemma decode_rejected_calm uid s s' :
  decode_rejected uid s = Some s' -> calm s s'.
Proof.
  unfold decode_rejected.
  destruct (updates s !! uid) as [[first img hue [|c]| | |]|]; try discriminate.
  intros [= <-]. apply set_status_calm.
Qed.

Lemma initializeTexture_resume_calm url hue c s :
  calm s (initializeTexture_resume url hue c s).
Proof. open_state s. split; settle. Qed.

Lemma transition_resume_tame uid url c s :
  tame s (transition_resume uid url c s).
Proof.
  open_state s. destruct md, unew, ren as [[[] ? ?]|], tex, af.
  all: split; settle_all.
  all: try (apply Forall_app; split; [assumption|]; apply Forall_singleton;
            cbn; intros _; unfold totalSteps; lia).
Qed.

Lemma on_resize_tame w h s : tame s (state_of (on_resize w h s)).
Proof. open_state s. destruct ren as [[[] ? ?]|], af; split; settle. Qed.

Lemma AppendToElement_tame el w h s :
  tame s (state_of (AppendToElement el w h s)).
Proof.
  open_state s. destruct md, pe, ro, ren as [[[] ? ?]|], af; split; settle.
Qed.

(** ** Invariants of the reachable states *)





Lemma constructor_fields options runsOnClean now ratio s :
  constructor options runsOnClean now ratio = Some s ->
  sessions s = [] /\ updates s = [] /\ frames s = []
  /\ resizeObserver s = None /\ texture (container s) = None
  /\ animationFrameId (container s) = None
  /\ progress s = 0
  /\ NewBlurredCoverArt (uniforms (container s))
     = JObj {| texture_id := 1;
               texture_image := {| canvas_id := 0; canvas_width := 1;
                                   canvas_height := 1; canvas_paint := Blank |} |}
  /\ BlurredCoverArt (uniforms (container s)) = JNull
  /\ rendered s = false.
Proof.
  unfold constructor.
  assert (E : GetShaderUniforms 0
              = Some {| Time := 0; RotationSpeed := 1; BlurredCoverArt := JNull;
                        NewBlurredCoverArt :=
                          JObj {| texture_id := 1;
                                  texture_image :=
                                    {| canvas_id := 0; canvas_width := 1;
                                       canvas_height := 1; canvas_paint := Blank |} |};
                        TransitionProgress := 0;
                        BackgroundCircleOrigin := (0, 0); BackgroundCircleRadius := 0;
                        CenterCircleOrigin := (0, 0); CenterCircleRadius := 0;
                        LeftCircleOrigin := (0, 0); LeftCircleRadius := 0;
                        RightCircleOrigin := (0, 0); RightCircleRadius := 0 |})
    by (vm_compute; reflexivity).
  rewrite E. cbn [mbind option_bind]. intros [= <-].
  repeat split; reflexivity.
Qed.


Lemma quiet_unseen s0 s : quiet s0 s -> unseen s0 -> unseen s.
Proof.
  intros (Q1 & Q2 & Q3 & Q4 & Q5) H Hr. rewrite Q1 in Hr.
  destruct (H Hr) as [Hf Hd]. split; [auto|].
  destruct Hd as [Hd | [Ho Hi]]; [left | right]; auto.
Qed.

Lemma dark_unseen s0 s :
  dark s0 s -> (rendered s0 = false -> renderer (container s0) = None) ->
  unseen s0 -> unseen s.
Proof.
  intros (D1 & D2) Hn H Hr.
  assert (Hr0 : rendered s0 = false).
  { destruct (rendered s0) eqn:E; [|reflexivity]. rewrite D1 in Hr; [discriminate | reflexivity]. }
  destruct (D2 (Hn Hr0)) as (_ & D3 & D4). destruct (H Hr0) as [Hf _]. auto.
Qed.

Lemma dark_same s0 s :
  dark s0 s -> renderer (container s0) = None -> rendered s = rendered s0.
Proof. intros (_ & D2) Hn. apply D2, Hn. Qed.

Lemma pending_not_idle sid s : timer_pending sid s = true -> idle s -> False.
Proof.
  unfold timer_pending, idle. intros Hp Hi.
  destruct (sessions s !! sid) as [a|] eqn:Ha; [|discriminate].
  pose proof (proj1 (Forall_lookup _ _) Hi _ _ Ha) as Hn. cbn in Hn.
  rewrite Hn in Hp. discriminate.
Qed.

(** With a live renderer and a live tracker, mounting renders. *)
Lemma AppendToElement_renders el w h s :
  state_of (AppendToElement el w h s) = s
  \/ renderer (container s) = None
  \/ rendered (state_of (AppendToElement el w h s)) = true.
Proof.
  open_state s. destruct md; [left; reflexivity|]. right.
  destruct ren as [[[] ? ?]|]; [right | right | left; reflexivity].
  all: destruct pe, ro, af; reflexivity.
Qed.

Lemma transition_resume_renders uid url c s :
  renderer (container s) = None
  \/ rendered (transition_resume uid url c s) = true.
Proof.
  open_state s. destruct ren as [[[] ? ?]|]; [right | right | left; reflexivity].
  all: destruct md, unew, tex, af; norm; destruct (Qle_bool td 0); reflexivity.
Qed.

Lemma step_unseen e s s' : step e s = Some s' -> unseen s -> unseen s'.
Proof.
  intros He H. destruct e; cbn [step] in He.
  - injection He as <-. eapply quiet_unseen; [apply Update_calm | exact H].
  - injection He as <-.
    destruct (AppendToElement_renders element clientWidth clientHeight s)
      as [E | [E | E]].
    + rewrite E. exact H.
    + eapply dark_unseen; [apply AppendToElement_tame | auto | exact H].
    + intros Hr. congruence.
  - injection He as <-. eapply quiet_unseen; [apply Destroy_calm | exact H].
  - eapply quiet_unseen; [eapply decode_resolved_calm, He | exact H].
  - eapply quiet_unseen; [eapply decode_rejected_calm, He | exact H].
  - unfold Update_resume in He.
    destruct (updates s !! uid) as [[[] img hue [|c]| | |]|]; try discriminate;
      injection He as <-.
    + eapply quiet_unseen; [|exact H].
      eapply quiet_trans; [apply initializeTexture_resume_calm | apply set_status_calm].
    + destruct (transition_resume_renders uid img c s) as [E | E].
      * eapply dark_unseen; [apply transition_resume_tame | auto | exact H].
      * intros Hr. congruence.
  - destruct (timer_pending sid s) eqn:Hp; [|discriminate]. injection He as <-.
    eapply dark_unseen; [apply performAnimationStep_dark | | exact H].
    intros Hr. destruct (H Hr) as [_ [Hn | [_ Hi]]]; [exact Hn|].
    destruct (pending_not_idle _ _ Hp Hi).
  - case_bool_decide as Hin; [|discriminate].
    injection He as <-.
    eapply dark_unseen; [apply frame_tame | | exact H].
    intros Hr. destruct (H Hr) as [Hf _]. rewrite Hf in Hin.
    apply elem_of_nil in Hin. destruct Hin.
  - destruct (resizeObserver s) eqn:Ho; [|discriminate]. injection He as <-.
    eapply dark_unseen; [apply on_resize_tame | | exact H].
    intros Hr. destruct (H Hr) as [_ [Hn | [Hx _]]]; [exact Hn | congruence].
  - injection He as <-. eapply quiet_unseen; [apply Maid_Destroy_calm | exact H].
  - destruct (renderer (container s)) eqn:Hren; [|discriminate]. injection He as <-.
    eapply quiet_unseen; [|exact H]. clear - Hren. open_state s.
    cbn in Hren. subst ren. settle.
  - injection He as <-. eapply quiet_unseen; [|exact H]. clear. open_state s. settle.
  - injection He as <-. eapply quiet_unseen; [|exact H]. clear. open_state s. settle.
Qed.

Theorem reachable_unseen s : reachable s -> unseen s.
Proof.
  induction 1 as [options roc now ratio s Hc Hm | e s s' Hr IH He].
  - destruct (constructor_fields _ _ _ _ _ Hc) as (Hs & _ & Hf & Ho & _).
    intros _. split; [exact Hf|]. right. split; [exact Ho|].
    unfold idle. rewrite Hs. constructor.
  - eapply step_unseen; eassumption.
Qed.

(** Only mounting and the transition path of [Update] can render first. *)
Lemma first_render e s s' :
  unseen s -> rendered s = false -> step e s = Some s' -> rendered s' = true ->
  (exists el w h, e = CallAppendToElement el w h)
  \/ (exists uid img hue c,
        e = Resume uid
        /\ updates s !! uid = Some (AwaitingCover false img hue (Decoded c))).
Proof.
  intros H Hr He Hr'. destruct (H Hr) as [Hf Hd].
  assert (Hq : forall x, quiet s x -> x = s' -> False).
  { intros x (Q1 & _) ->. congruence. }
  assert (Hk : forall x, dark s x -> renderer (container s) = None -> x = s' -> False).
  { intros x D Hn ->. rewrite (dark_same _ _ D Hn) in Hr'. congruence. }
  destruct e; cbn [step] in He.
  - injection He as He. destruct (Hq _ (proj2 (Update_calm _ _)) He).
  - left. eauto.
  - injection He as He. destruct (Hq _ (proj2 (Destroy_calm _)) He).
  - destruct (Hq _ (proj2 (decode_resolved_calm _ _ _ _ _ He)) eq_refl).
  - destruct (Hq _ (proj2 (decode_rejected_calm _ _ _ He)) eq_refl).
  - unfold Update_resume in He.
    destruct (updates s !! uid) as [[[] img hue [|c]| | |]|] eqn:Hu;
      try discriminate; injection He as He.
    + exfalso. eapply Hq; [|exact He].
      eapply quiet_trans; [apply initializeTexture_resume_calm | apply set_status_calm].
    + right. eauto 10.
  - destruct (timer_pending sid s) eqn:Hp; [|discriminate]. injection He as He.
    destruct Hd as [Hn | [_ Hi]]; [|destruct (pending_not_idle _ _ Hp Hi)].
    destruct (Hk _ (performAnimationStep_dark _ _) Hn He).
  - case_bool_decide as Hin; [|discriminate].
    rewrite Hf in Hin. apply elem_of_nil in Hin. destruct Hin.
  - destruct (resizeObserver s) eqn:Ho; [|discriminate]. injection He as He.
    destruct Hd as [Hn | [Hx _]]; [|congruence].
    destruct (Hk _ (proj2 (on_resize_tame _ _ _)) Hn He).
  - injection He as He. destruct (Hq _ (proj2 (Maid_Destroy_calm _)) He).
  - destruct (renderer (container s)) eqn:Hren; [|discriminate]. injection He as <-.
    revert Hr Hr'. clear. open_state s. unfold rendered. cbn. congruence.
  - injection He as <-. revert Hr Hr'. clear. open_state s. unfold rendered. cbn. congruence.
  - injection He as <-. revert Hr Hr'. clear. open_state s. unfold rendered. cbn. congruence.
Qed.

(** ** The pending animation frames *)

Section Frames.
Implicit Types (s : DynamicBackground) (a : Session) (sid : nat).

Lemma filter_self (f : positive) : filter (fun g => g <> f) [f] = [].
Proof.
  rewrite filter_cons_False by (intros H; apply H; reflexivity).
  reflexivity.
Qed.

Lemma steady_refl s : steady s s.
Proof. intros H. exact H. Qed.

Lemma steady_trans s0 s1 s2 : steady s0 s1 -> steady s1 s2 -> steady s0 s2.
Proof. unfold steady. auto. Qed.

Ltac steady_tac :=
  norm; unfold steady, framed;
  cbn [frames container animationFrameId];
  intros; subst; rewrite ?filter_self; try reflexivity; try discriminate;
  auto.

Lemma with_session_steady sid f s : steady s (with_session sid f s).
Proof.
  unfold with_session. destruct (sessions s !! sid); [|apply steady_refl].
  unfold steady, framed. destruct s; cbn. auto.
Qed.

Lemma cancel_transition_steady sid s : steady s (cancel_transition sid s).
Proof.
  unfold cancel_transition.
  eapply steady_trans; [apply (with_session_steady sid (set_canceled true))|].
  generalize (with_session sid (set_canceled true) s). clear s. intros s.
  open_state s. steady_tac.
Qed.

Lemma cleanup_steady s : steady s (cleanup s).
Proof.
  open_state s. destruct ro, af, ucur, unew, mat, tex, ren; steady_tac.
Qed.

Lemma run_cleanup_steady c s : steady s (run_cleanup c s).
Proof.
  destruct c; try apply cleanup_steady; try apply cancel_transition_steady.
  - open_state s. steady_tac.
  - open_state s. destruct ren; steady_tac.
  - open_state s. destruct mat; steady_tac.
  - open_state s. destruct tex; steady_tac.
  - open_state s. destruct ucur, unew; steady_tac.
  - open_state s. destruct af; steady_tac.
  - open_state s. destruct pe; steady_tac.
  - open_state s. steady_tac.
  - open_state s. destruct ro; steady_tac.
Qed.

Lemma run_all_steady (items : list (nat * Cleanup)) s :
  steady s (fold_left (fun s '(_, c) => run_cleanup c s) items s).
Proof.
  revert s. induction items as [|[k c] items IH]; intros s; [apply steady_refl|].
  cbn [fold_left]. eapply steady_trans; [apply run_cleanup_steady | apply IH].
Qed.

Lemma set_maid_steady m s : steady s (set_maid m s).
Proof. open_state s. steady_tac. Qed.

Lemma Maid_Destroy_steady s : steady s (Maid_Destroy s).
Proof.
  unfold Maid_Destroy. destruct (Destroyed (maid s)); [apply steady_refl|].
  eapply steady_trans; [apply run_all_steady | apply set_maid_steady].
Qed.

Lemma Destroy_steady s : steady s (Destroy s).
Proof.
  unfold Destroy. destruct (IsDestroyed (maid s)); [apply cleanup_steady|].
  eapply steady_trans; [apply cleanup_steady | apply Maid_Destroy_steady].
Qed.

Lemma Maid_Clean_steady k s : steady s (Maid_Clean k s).
Proof.
  unfold Maid_Clean. destruct (Destroyed (maid s)); [apply steady_refl|].
  destruct (List.find _ _) as [[k' c]|]; [|apply steady_refl].
  destruct (RunsOnClean (maid s)); [|apply set_maid_steady].
  eapply steady_trans; [apply set_maid_steady | apply run_cleanup_steady].
Qed.

Lemma completeTransition_steady t url s : steady s (completeTransition t url s).
Proof.
  open_state s. destruct tex, ren as [[[] ? ?]|], af; steady_tac.
Qed.

Lemma finish_steady sid a s : steady s (finish sid a s).
Proof.
  unfold finish. destruct (is_canceled sid s); [apply with_session_steady|].
  eapply steady_trans; [apply completeTransition_steady|].
  eapply steady_trans; [|apply with_session_steady].
  destruct (cleanupKey a); [|apply steady_refl].
  destruct (IsDestroyed _); [apply steady_refl | apply Maid_Clean_steady].
Qed.

Lemma stepped_steady sid a s : steady s (stepped sid a s).
Proof. unfold stepped. open_state s. destruct ren; steady_tac. Qed.

Lemma performAnimationStep_steady sid s : steady s (performAnimationStep sid s).
Proof.
  destruct (sessions s !! sid) as [a|] eqn:Ha.
  - destruct (canceled a) eqn:Hc.
    + rewrite (performAnimationStep_canceled _ _ _ Ha Hc).
      eapply steady_trans; apply with_session_steady.
    + rewrite (performAnimationStep_live _ _ _ Ha Hc).
      destruct (_ <? _)%nat.
      * eapply steady_trans; [apply stepped_steady | apply with_session_steady].
      * eapply steady_trans; [apply stepped_steady | apply finish_steady].
  - unfold performAnimationStep. rewrite Ha. apply steady_refl.
Qed.

Lemma Update_steady o s : steady s (Update o s).
Proof.
  open_state s. destruct o as [img oh ob os]. destruct md, tex, af.
  all: norm; repeat (stuck_split; norm); steady_tac.
Qed.

Lemma set_status_steady uid st s : steady s (set_status uid st s).
Proof. open_state s. steady_tac. Qed.

Lemma decode_resolved_steady uid w h s s' :
  decode_resolved uid w h s = Some s' -> steady s s'.
Proof.
  unfold decode_resolved.
  destruct (updates s !! uid) as [[first img hue [|c]| | |]|]; try discriminate.
  destruct (getBlurredCoverArt_finish img hue w h s) as [s1 c] eqn:E.
  intros [= <-]. eapply steady_trans; [|apply set_status_steady].
  replace s1 with (fst (getBlurredCoverArt_finish img hue w h s))
    by (rewrite E; reflexivity).
  clear. open_state s. steady_tac.
Qed.

Lemma decode_rejected_steady uid s s' :
  decode_rejected uid s = Some s' -> steady s s'.
Proof.
  unfold decode_rejected.
  destruct (updates s !! uid) as [[first img hue [|c]| | |]|]; try discriminate.
  intros [= <-]. apply set_status_steady.
Qed.

Lemma Update_resume_steady uid s s' :
  Update_resume uid s = Some s' -> steady s s'.
Proof.
  unfold Update_resume.
  destruct (updates s !! uid) as [[[] img hue [|c]| | |]|]; try discriminate;
    intros [= <-].
  - eapply steady_trans; [|apply set_status_steady].
    open_state s. steady_tac.
  - open_state s. destruct md, unew, ren as [[[] ? ?]|], tex, af.
    all: norm; repeat (stuck_split; norm); steady_tac.
Qed.

Lemma on_resize_steady w h s : steady s (state_of (on_resize w h s)).
Proof. open_state s. destruct ren as [[[] ? ?]|], af; steady_tac. Qed.

Lemma AppendToElement_steady el w h s :
  steady s (state_of (AppendToElement el w h s)).
Proof.
  open_state s. destruct md, pe, ro, ren as [[[] ? ?]|], af; steady_tac.
Qed.

Lemma frame_steady f s :
  f ∈ frames s ->
  steady s (animate (set_frames (filter (fun g => g <> f) (frames s)) s)).
Proof.
  open_state s. cbn [frames]. intros Hin H. revert Hin. unfold framed in H.
  cbn [frames container animationFrameId] in H. subst fr.
  destruct af as [g|]; [|intros Hin; apply elem_of_nil in Hin; destruct Hin].
  intros Hin. apply list_elem_of_singleton in Hin. subst g.
  destruct ren as [[[] ? ?]|]; norm; unfold framed;
    cbn [frames container animationFrameId]; rewrite ?filter_self; reflexivity.
Qed.

Theorem reachable_framed s : reachable s -> framed s.
Proof.
  induction 1 as [options roc now ratio s Hc Hm | e s s' Hr IH He].
  - destruct (constructor_fields _ _ _ _ _ Hc) as (_ & _ & Hf & _ & _ & Ha & _).
    unfold framed. rewrite Hf, Ha. reflexivity.
  - destruct e; cbn [step] in He.
    + injection He as <-. apply Update_steady, IH.
    + injection He as <-. apply AppendToElement_steady, IH.
    + injection He as <-. apply Destroy_steady, IH.
    + eapply decode_resolved_steady; eassumption.
    + eapply decode_rejected_steady; eassumption.
    + eapply Update_resume_steady; eassumption.
    + destruct (timer_pending sid s); [|discriminate]. injection He as <-.
      apply performAnimationStep_steady, IH.
    + case_bool_decide as Hin; [|discriminate]. injection He as <-.
      apply frame_steady; assumption.
    + destruct (resizeObserver s); [|discriminate]. injection He as <-.
      apply on_resize_steady, IH.
    + injection He as <-. apply Maid_Destroy_steady, IH.
    + destruct (renderer (container s)) eqn:Hren; [|discriminate]. injection He as <-.
      revert IH. clear. open_state s. unfold framed. cbn. auto.
    + injection He as <-. revert IH. clear. open_state s. unfold framed. cbn. auto.
    + injection He as <-. revert IH. clear. open_state s. unfold framed. cbn. auto.
Qed.

Lemma framed_tracked s : framed s -> frames_tracked s = true.
Proof.
  unfold framed, frames_tracked. intros ->.
  destruct (animationFrameId (container s)); [|reflexivity].
  cbn. rewrite bool_decide_eq_true_2 by reflexivity. reflexivity.
Qed.

End Frames.

(** ** Teardown *)

Section Teardown.
Implicit Types (s : DynamicBackground) (a : Session) (sid : nat).

Lemma cleanup_cleaned s : cleaned (cleanup s).
Proof.
  open_state s. unfold cleaned.
  destruct ro, af, ucur, unew, mat, tex, ren; norm; repeat split; reflexivity.
Qed.

Lemma cleanup_again s :
  cleaned s ->
  observable (cleanup s) = observable s
  /\ log (cleanup s)
     = [GeometryDispose; MaterialDispose; GeometryDispose] ++ log s.
Proof.
  unfold cleaned, observable. open_state s.
  intros (H1 & H2 & Hc & Hn & H3 & H4 & H5). cbn in H1, H2, Hc, Hn, H3, H4, H5.
  injection H2; clear H2; intros; subst.
  destruct ucur; try discriminate; destruct unew; try discriminate;
    norm; split; reflexivity.
Qed.

Lemma cancel_transition_cleaned sid s :
  cleaned s -> cleaned (cancel_transition sid s).
Proof.
  unfold cancel_transition. intros H.
  assert (H1 : cleaned (with_session sid (set_canceled true) s)).
  { unfold with_session. destruct (sessions s !! sid); [|exact H].
    revert H. unfold cleaned. destruct s; cbn. auto. }
  revert H1. generalize (with_session sid (set_canceled true) s). clear.
  intros s. unfold cleaned. open_state s.
  intros (H1 & H2 & Hc & Hn & H3 & H4 & H5). cbn in H1, H2, Hc, Hn, H3, H4, H5.
  injection H2; clear H2; intros; subst.
  norm. repeat split; assumption.
Qed.

Lemma run_cleanup_cleaned c s : cleaned s -> cleaned (run_cleanup c s).
Proof.
  destruct c; try (intros _; apply cleanup_cleaned);
    try apply cancel_transition_cleaned.
  all: unfold cleaned; open_state s;
    intros (H1 & H2 & Hc & Hn & H3 & H4 & H5);
    cbn in H1, H2, Hc, Hn, H3, H4, H5; injection H2; clear H2; intros; subst.
  all: destruct ucur; try discriminate; destruct unew; try discriminate.
  all: norm; repeat split; reflexivity.
Qed.

Lemma run_all_cleaned (items : list (nat * Cleanup)) s :
  cleaned s -> cleaned (fold_left (fun s '(_, c) => run_cleanup c s) items s).
Proof.
  revert s. induction items as [|[k c] items IH]; intros s H; [exact H|].
  cbn [fold_left]. apply IH, run_cleanup_cleaned, H.
Qed.

Lemma set_maid_cleaned m s : cleaned s -> cleaned (set_maid m s).
Proof. unfold cleaned. destruct s; cbn. auto. Qed.

Lemma Destroy_cleaned s : cleaned (Destroy s).
Proof.
  unfold Destroy. destruct (IsDestroyed (maid s)); [apply cleanup_cleaned|].
  unfold Maid_Destroy. destruct (Destroyed (maid (cleanup s)));
    [apply cleanup_cleaned|].
  apply set_maid_cleaned, run_all_cleaned, cleanup_cleaned.
Qed.

(** No disposer touches the tracker. *)
Lemma maid_cleanup s : maid (cleanup s) = maid s.
Proof.
  open_state s. destruct ro, af, ucur, unew, mat, tex, ren; reflexivity.
Qed.

Lemma maid_cancel_transition sid s : maid (cancel_transition sid s) = maid s.
Proof.
  unfold cancel_transition.
  destruct (with_session_fields sid (set_canceled true) s) as (<- & _).
  generalize (with_session sid (set_canceled true) s). intros s'.
  destruct s'; reflexivity.
Qed.

Lemma maid_run_cleanup c s : maid (run_cleanup c s) = maid s.
Proof.
  destruct c; try apply maid_cleanup; try apply maid_cancel_transition.
  all: open_state s; try reflexivity.
  - destruct ren; reflexivity.
  - destruct mat; reflexivity.
  - destruct tex; reflexivity.
  - destruct ucur, unew; reflexivity.
  - destruct af; reflexivity.
  - destruct pe; reflexivity.
  - destruct ro; reflexivity.
Qed.

Lemma Destroy_destroyed s : Destroyed (maid (Destroy s)) = true.
Proof.
  unfold Destroy, IsDestroyed. destruct (Destroyed (maid s)) eqn:E.
  - rewrite maid_cleanup. exact E.
  - unfold Maid_Destroy. rewrite maid_cleanup, E. destruct s; reflexivity.
Qed.

(** *** Pending frames *)

Lemma tracked_frames_cancelled s :
  frames_tracked s = true -> frames (cancel_frame s) = [].
Proof.
  unfold frames_tracked. open_state s. cbn [frames container animationFrameId].
  intros H. destruct af as [f|]; norm.
  - induction fr as [|g fr IH]; [reflexivity|].
    cbn [forallb] in H. apply andb_prop in H as [Hg H].
    apply bool_decide_eq_true_1 in Hg. injection Hg as ->.
    rewrite filter_cons_False by (intros Hne; apply Hne; reflexivity).
    apply IH, H.
  - destruct fr as [|g fr]; [reflexivity|].
    cbn [forallb] in H. apply andb_prop in H as [Hg _].
    apply bool_decide_eq_true_1 in Hg. discriminate.
Qed.

Lemma frames_cleanup s : frames (cleanup s) = frames (cancel_frame s).
Proof.
  open_state s. destruct ro, af, ucur, unew, mat, tex, ren; reflexivity.
Qed.

Lemma Destroy_no_frames s :
  frames_tracked s = true ->
  frames (Destroy s) = [] /\ animationFrameId (container (Destroy s)) = None.
Proof.
  intros H. split.
  - assert (Hc : frames (cleanup s) = [])
      by (rewrite frames_cleanup; apply tracked_frames_cancelled, H).
    unfold Destroy. destruct (IsDestroyed (maid s)); [exact Hc|].
    destruct (Maid_Destroy_calm (cleanup s)) as (_ & _ & Hf & _). auto.
  - destruct (Destroy_cleaned s) as (_ & -> & _). reflexivity.
Qed.

(** *** Pending transition steps *)

Lemma timer_pending_with_session sid sid' f s :
  (forall a, scheduled (f a) = scheduled a) ->
  timer_pending sid (with_session sid' f s) = timer_pending sid s.
Proof.
  intros Hf. unfold timer_pending.
  destruct (decide (sid' = sid)) as [->|Hne].
  - destruct (sessions s !! sid) as [a|] eqn:Ha.
    + rewrite (lookup_with_session _ _ _ _ Ha), Hf. reflexivity.
    + unfold with_session. rewrite Ha, Ha. reflexivity.
  - rewrite lookup_with_session_ne by exact Hne. reflexivity.
Qed.

Lemma doomed_with_session sid sid' s :
  doomed sid s -> doomed sid (with_session sid' (set_canceled true) s).
Proof.
  intros H a. destruct (decide (sid' = sid)) as [->|Hne].
  - destruct (sessions s !! sid) as [a0|] eqn:Ha.
    + rewrite (lookup_with_session _ _ _ _ Ha). intros [= <-].
      destruct a0; reflexivity.
    + unfold with_session. rewrite Ha, Ha. discriminate.
  - rewrite lookup_with_session_ne by exact Hne. apply H.
Qed.

Lemma doomed_canceled sid s :
  doomed sid (with_session sid (set_canceled true) s).
Proof.
  intros a. destruct (sessions s !! sid) as [a0|] eqn:Ha.
  - rewrite (lookup_with_session _ _ _ _ Ha). intros [= <-].
    destruct a0; reflexivity.
  - unfold with_session. rewrite Ha, Ha. discriminate.
Qed.

Lemma sessions_run_cleanup c s :
  sessions (run_cleanup c s)
  = match c with
    | CleanTransition sid => sessions (with_session sid (set_canceled true) s)
    | _ => sessions s
    end.
Proof.
  destruct c; try apply sessions_cancel_transition.
  all: open_state s; try reflexivity.
  - destruct ren; reflexivity.
  - destruct mat; reflexivity.
  - destruct tex; reflexivity.
  - destruct ucur, unew; reflexivity.
  - destruct af; reflexivity.
  - destruct pe; reflexivity.
  - destruct ro, af, ucur, unew, mat, tex, ren; reflexivity.
  - destruct ro; reflexivity.
Qed.

Lemma run_cleanup_timer c sid s :
  timer_pending sid (run_cleanup c s) = timer_pending sid s.
Proof.
  unfold timer_pending. rewrite sessions_run_cleanup.
  destruct c; try reflexivity.
  apply (timer_pending_with_session sid sid0 (set_canceled true)).
  intros []; reflexivity.
Qed.

Lemma run_cleanup_doomed c sid s :
  doomed sid s \/ c = CleanTransition sid -> doomed sid (run_cleanup c s).
Proof.
  intros H. unfold doomed. rewrite sessions_run_cleanup.
  destruct H as [H | ->]; [|apply doomed_canceled].
  destruct c; try exact H. apply doomed_with_session, H.
Qed.

Lemma run_all_timer (items : list (nat * Cleanup)) sid s :
  timer_pending sid (fold_left (fun s '(_, c) => run_cleanup c s) items s)
  = timer_pending sid s.
Proof.
  revert s. induction items as [|[k c] items IH]; intros s; [reflexivity|].
  cbn [fold_left]. rewrite IH. apply run_cleanup_timer.
Qed.

Lemma run_all_doomed (items : list (nat * Cleanup)) sid s :
  doomed sid s
  \/ existsb (fun i => match snd i with
                       | CleanTransition sid' => Nat.eqb sid' sid
                       | _ => false
                       end) items = true ->
  doomed sid (fold_left (fun s '(_, c) => run_cleanup c s) items s).
Proof.
  revert s. induction items as [|[k c] items IH]; intros s H.
  - destruct H as [H | H]; [exact H | discriminate].
  - cbn [fold_left]. apply IH. cbn [existsb snd] in H.
    destruct H as [H | H]; [left; apply run_cleanup_doomed; auto|].
    apply orb_prop in H as [H | H]; [|right; exact H].
    left. apply run_cleanup_doomed. right.
    destruct c; try discriminate. apply Nat.eqb_eq in H. congruence.
Qed.

Lemma cancellable_lookup m (l : list Session) i sid a :
  cancellable_from i m l = true -> l !! sid = Some a ->
  scheduled a = None \/ canceled a = true
  \/ holds_canceller m (i + sid) = true.
Proof.
  revert i sid. induction l as [|b l IH]; intros i sid H Hl; [discriminate|].
  cbn [cancellable_from] in H. apply andb_prop in H as [Hb H].
  destruct sid as [|sid]; cbn in Hl.
  - injection Hl as ->. rewrite Nat.add_0_r.
    apply orb_prop in Hb as [Hb | Hb]; [|auto].
    apply orb_prop in Hb as [Hb | Hb]; [|auto].
    left. destruct (scheduled a); [discriminate | reflexivity].
  - replace (i + S sid)%nat with (S i + sid)%nat by lia. eapply IH; eauto.
Qed.

Lemma sessions_cleanup s : sessions (cleanup s) = sessions s.
Proof.
  open_state s. destruct ro, af, ucur, unew, mat, tex, ren; reflexivity.
Qed.

Lemma timer_pending_set_maid sid m s :
  timer_pending sid (set_maid m s) = timer_pending sid s.
Proof. destruct s; reflexivity. Qed.

Lemma Destroy_cancels sid s :
  cancellable s = true ->
  timer_pending sid (Destroy s) = true -> is_canceled sid (Destroy s) = true.
Proof.
  intros Hc Hp.
  assert (Hd : doomed sid (Destroy s) ).
  { assert (Hs : timer_pending sid s = true).
    { revert Hp. unfold Destroy, Maid_Destroy.
      destruct (IsDestroyed (maid s)).
      - unfold timer_pending. rewrite sessions_cleanup. auto.
      - destruct (Destroyed (maid (cleanup s))).
        + unfold timer_pending. rewrite sessions_cleanup. auto.
        + rewrite timer_pending_set_maid, run_all_timer.
          unfold timer_pending. rewrite sessions_cleanup. auto. }
    unfold timer_pending in Hs.
    destruct (sessions s !! sid) as [a|] eqn:Ha; [|discriminate].
    destruct (cancellable_lookup _ _ 0 _ _ Hc Ha) as [H | [H | H]].
    - rewrite H in Hs. discriminate.
    - assert (H0 : doomed sid (cleanup s)).
      { intros a'. rewrite sessions_cleanup, Ha. intros [= <-]. exact H. }
      unfold Destroy, Maid_Destroy. destruct (IsDestroyed (maid s)); [exact H0|].
      destruct (Destroyed (maid (cleanup s))); [exact H0|].
      intros a'. rewrite sessions_set_maid. apply run_all_doomed. auto.
    - unfold holds_canceller in H. apply andb_prop in H as [Hm Hi].
      unfold Destroy, Maid_Destroy, IsDestroyed. rewrite maid_cleanup.
      destruct (Destroyed (maid s)); [discriminate|].
      intros a'. rewrite sessions_set_maid. apply run_all_doomed. auto. }
  unfold timer_pending in Hp. unfold is_canceled.
  destruct (sessions (Destroy s) !! sid) as [a|] eqn:Ha; [|discriminate].
  apply Hd, Ha.
Qed.

Lemma with_session_sessions_only sid f s :
  set_sessions [] (with_session sid f s) = set_sessions [] s.
Proof.
  unfold with_session. destruct (sessions s !! sid); [|reflexivity].
  destruct s; reflexivity.
Qed.

(** A timer that fires for a canceled session only settles its promise. *)
Lemma canceled_step_noop sid s :
  is_canceled sid s = true ->
  performAnimationStep sid s
  = resolve sid (with_session sid (set_scheduled None) s)
  /\ set_sessions [] (performAnimationStep sid s) = set_sessions [] s.
Proof.
  unfold is_canceled. intros H.
  destruct (sessions s !! sid) as [a|] eqn:Ha; [|discriminate].
  rewrite (performAnimationStep_canceled _ _ _ Ha H). split; [reflexivity|].
  unfold resolve. rewrite !with_session_sessions_only. reflexivity.
Qed.

End Teardown.

(** ** A first-time update *)

Lemma first_update (o : UpdateOptions) (w h : nat) (hue : Q) (st : Stage)
  (s : DynamicBackground) :
  let uid := List.length (updates s) in
  updates (Update o s) !! uid = Some (AwaitingCover true (image o) hue st) ->
  texture (container s) = None
  /\ match st with
     | Decoded c =>
         blurredCoverArts s !! image o = Some c
         /\ exists s', run [CallUpdate o; Resume uid] s = Some s'
                       /\ initialized c s s'
     | Decoding =>
         blurredCoverArts s !! image o = None
         /\ exists s' c,
              run [CallUpdate o; ImageDecoded uid w h; Resume uid] s = Some s'
              /\ canvas_paint c
                 = Blurred (image o) (nullish (blur o) (blurAmount s)) hue
              /\ blurredCoverArts s' !! image o = Some c
              /\ initialized c s s'
     end.
Proof.
  intros uid. subst uid. cbn [run step mbind option_bind].
  open_state s. destruct o as [img oh ob os]. cbn [updates image].
  assert (Hno : forall x, us !! List.length us = Some x -> False).
  { intros x Hx. apply lookup_lt_Some in Hx. lia. }
  destruct md, tex, af; norm.
  all: try (intros H; destruct (Hno _ H)).
  all: match goal with
       | |- context [if ?b then _ else _] => destruct b
       end; norm.
  all: try (intros H; destruct (Hno _ H)).
  all: destruct (bc !! img) as [c|] eqn:Hc; norm.
  all: rewrite list_lookup_middle by reflexivity.
  all: intros E; try discriminate E; injection E as <- <-.
  all: split; [reflexivity|]; split; [reflexivity|].
  all: try (unfold decode_resolved; cbn [updates];
            rewrite list_lookup_middle by reflexivity; norm;
            unfold Update_resume; cbn [updates];
            rewrite list_lookup_insert_eq by (rewrite length_app; cbn; lia);
            norm;
            eexists; eexists; (split; [reflexivity|]);
            (split; [|split; [apply lookup_insert_eq|]]; [reflexivity|]);
            eexists; unfold without_render; norm;
            (split; [|split; [reflexivity|]]; [reflexivity|]);
            do 3 (split; [reflexivity|]);
            (split; [eexists [_; _; _; _; _]; split; reflexivity|]);
            split; reflexivity).
  all: unfold Update_resume; cbn [updates];
    rewrite list_lookup_middle by reflexivity; norm;
    eexists; (split; [reflexivity|]);
    eexists; unfold without_render; norm;
    (split; [|split; [reflexivity|]]; [reflexivity|]);
    do 3 (split; [reflexivity|]);
    (split; [eexists [_; _]; split; reflexivity|]);
    split; reflexivity.
Qed.

(** The resumption of a first-time [Update], in whatever state. *)
Lemma first_update_resumes (uid : nat) (img : string) (hue : Q)
  (c : OffscreenCanvas) (s : DynamicBackground) :
  updates s !! uid = Some (AwaitingCover true img hue (Decoded c)) ->
  exists s', step (Resume uid) s = Some s' /\ initialized c s s'.
Proof.
  intros H. cbn [step]. unfold Update_resume. rewrite H.
  eexists. split; [reflexivity|]. clear H.
  open_state s. eexists. unfold without_render. norm.
  split; [|split; [reflexivity|]]; [reflexivity|].
  do 3 (split; [reflexivity|]).
  split; [exists [TextureAlloc no]; split; reflexivity|].
  split; reflexivity.
Qed.

(** The effects a piece of code logs are put in front of the log. *)
Lemma since_nil (lg : list Effect) : lg = [] ++ lg.
Proof. reflexivity. Qed.

Lemma since_cons (e : Effect) (l l' lg : list Effect) :
  l = l' ++ lg -> e :: l = (e :: l') ++ lg.
Proof. intros ->. reflexivity. Qed.

Ltac since := repeat refine (since_cons _ _ _ _ _); exact (since_nil _).

Lemma Update_without_render (o : UpdateOptions) (s : DynamicBackground) :
  exists l, without_render l s (Update o s).
Proof.
  unfold without_render. open_state s. destruct o as [img oh ob os].
  destruct md; norm; [exists []; split; reflexivity|].
  match goal with
  | |- context [if ?b then _ else _] => destruct b
  end; norm; [exists []; split; reflexivity|].
  destruct tex, af, (bc !! img); norm.
  all: eexists; split; [since|reflexivity].
Qed.

Lemma decode_rejected_effects (uid : nat) (s s2 : DynamicBackground) :
  decode_rejected uid s = Some s2 ->
  frames s2 = frames s
  /\ animationFrameId (container s2) = animationFrameId (container s)
  /\ log s2 = log s.
Proof.
  unfold decode_rejected.
  destruct (updates s !! uid) as [[? ? ? []| | |]|]; try discriminate.
  intros [= <-]. destruct s; repeat split; reflexivity.
Qed.

Lemma decode_resolved_effects (uid w h : nat) (s s2 : DynamicBackground) :
  decode_resolved uid w h s = Some s2 ->
  frames s2 = frames s
  /\ animationFrameId (container s2) = animationFrameId (container s)
  /\ without_render [CanvasAlloc (S (nextObject s)); CanvasAlloc (nextObject s)]
       s s2.
Proof.
  unfold decode_resolved, without_render.
  destruct (updates s !! uid) as [[? ? ? []| | |]|]; try discriminate.
  open_state s. norm. intros [= <-]. repeat split; reflexivity.
Qed.

(** ** Runs of the event loop *)

Lemma reachable_run es s s' : reachable s -> run es s = Some s' -> reachable s'.
Proof.
  revert s. induction es as [|e es IH]; intros s Hr H; cbn [run] in H.
  - injection H as <-. exact Hr.
  - destruct (step e s) as [s1|] eqn:E; [|discriminate].
    cbn in H. eapply IH; [eapply reach_step; eassumption | exact H].
Qed.

Lemma reachable_boot es s : boot es = Some s -> reachable s.
Proof.
  unfold boot. destruct (constructor default_options true 0 1) as [s0|] eqn:E;
    [|discriminate].
  cbn. intros H. eapply reachable_run; [|exact H].
  eapply reach_new; [exact E | exact I].
Qed.

(** ** What the tracker holds *)

Section Ownership.

Lemma aside_refl s : aside s s.
Proof. repeat split; auto. Qed.

Lemma aside_trans s0 s1 s2 : aside s0 s1 -> aside s1 s2 -> aside s0 s2.
Proof.
  intros (A1 & A2 & A3 & A4) (B1 & B2 & B3 & B4).
  repeat split; try congruence; tauto.
Qed.

Lemma aside_guarded s0 s : aside s0 s -> guarded s0 -> guarded s.
Proof.
  intros (A1 & A2 & A3 & A4) G. unfold guarded in *.
  rewrite A1, A2. intros Hd. destruct (G Hd) as (G1 & G2 & G3 & G4).
  repeat split; auto.
  destruct (renderer (container s)) eqn:E; [eauto|].
  destruct A4 as [A4 _]. rewrite (A4 eq_refl) in G1. exact G1.
Qed.

Lemma aside_unplugged s0 s : aside s0 s -> unplugged s0 -> unplugged s.
Proof.
  intros (A1 & A2 & A3 & A4) U. unfold unplugged in *.
  rewrite A3. tauto.
Qed.

Ltac aside_tac :=
  norm; unfold aside;
  cbn [maid sessions resizeObserver container renderer];
  repeat split; intros; subst; auto; try discriminate; try congruence.

Lemma Update_aside o s : aside s (Update o s).
Proof.
  open_state s. destruct o as [img oh ob os]. destruct md, tex, af.
  all: norm; repeat (stuck_split; norm); aside_tac.
Qed.

Lemma set_status_aside uid st s : aside s (set_status uid st s).
Proof. open_state s. aside_tac. Qed.

Lemma finish_cover_aside url hue w h s :
  aside s (fst (getBlurredCoverArt_finish url hue w h s)).
Proof. open_state s. aside_tac. Qed.

Lemma decode_resolved_aside uid w h s s' :
  decode_resolved uid w h s = Some s' -> aside s s'.
Proof.
  unfold decode_resolved.
  destruct (updates s !! uid) as [[first img hue [|c]| | |]|]; try discriminate.
  destruct (getBlurredCoverArt_finish img hue w h s) as [s1 c] eqn:E.
  intros [= <-]. eapply aside_trans; [|apply set_status_aside].
  replace s1 with (fst (getBlurredCoverArt_finish img hue w h s))
    by (rewrite E; reflexivity).
  apply finish_cover_aside.
Qed.

Lemma decode_rejected_aside uid s s' :
  decode_rejected uid s = Some s' -> aside s s'.
Proof.
  unfold decode_rejected.
  destruct (updates s !! uid) as [[first img hue [|c]| | |]|]; try discriminate.
  intros [= <-]. apply set_status_aside.
Qed.

Lemma initializeTexture_resume_aside url hue c s :
  aside s (initializeTexture_resume url hue c s).
Proof. open_state s. aside_tac. Qed.

Lemma completeTransition_aside t url s : aside s (completeTransition t url s).
Proof.
  open_state s. destruct ren as [[[] ? ?]|], tex, af; aside_tac.
Qed.

Lemma frame_aside f s :
  aside s (animate (set_frames (filter (fun g => g <> f) (frames s)) s)).
Proof.
  open_state s. destruct ren as [[[] ? ?]|], af; aside_tac.
Qed.

Lemma on_resize_aside w h s : aside s (state_of (on_resize w h s)).
Proof.
  open_state s. destruct ren as [[[] ? ?]|], af; aside_tac.
Qed.

Lemma with_uniforms_aside f s : aside s (with_uniforms f s).
Proof. open_state s. aside_tac. Qed.

Lemma render_if_ready_aside s : aside s (render_if_ready s).
Proof. open_state s. destruct ren; aside_tac. Qed.


Lemma aside_follows s0 s : aside s0 s -> follows s0 s.
Proof.
  intros (A1 & A2 & A3 & A4). repeat split; try tauto.
  rewrite A2. eauto.
Qed.

Lemma follows_refl s : follows s s.
Proof. apply aside_follows, aside_refl. Qed.

Lemma follows_trans s0 s1 s2 : follows s0 s1 -> follows s1 s2 -> follows s0 s2.
Proof.
  intros (A1 & A2 & A3 & A4) (B1 & B2 & B3 & B4).
  repeat split; try congruence; try tauto.
  intros sid a Ha.
  destruct (B4 _ _ Ha) as (a1 & Ha1 & Hk1 & Hr1).
  destruct (A4 _ _ Ha1) as (a0 & Ha0 & Hk0 & Hr0).
  exists a0. split; [exact Ha0|]. split; [congruence|].
  intros Hs Hc. destruct (Hr1 Hs Hc). auto.
Qed.

Lemma follows_guarded s0 s : follows s0 s -> guarded s0 -> guarded s.
Proof.
  intros (A1 & A2 & A3 & A4) G. unfold guarded in *.
  rewrite A1. intros Hd. destruct (G Hd) as (G1 & G2 & G3 & G4).
  repeat split; auto.
  - destruct (renderer (container s)) eqn:E; [eauto|].
    destruct A3 as [A3 _]. rewrite (A3 eq_refl) in G1. exact G1.
  - intros sid a Ha.
    destruct (A4 _ _ Ha) as (a0 & Ha0 & Hk0 & Hr0).
    destruct (G4 _ _ Ha0) as (k & Hk & Hin).
    exists k. split; [congruence|].
    intros Hs Hc. destruct (Hr0 Hs Hc). auto.
Qed.

Lemma follows_unplugged s0 s : follows s0 s -> unplugged s0 -> unplugged s.
Proof.
  intros (A1 & A2 & A3 & A4) U. unfold unplugged in *.
  rewrite A2. tauto.
Qed.

Lemma with_session_follows sid f s :
  (forall a,
     (is_Some (scheduled (f a)) -> canceled (f a) = false ->
      is_Some (scheduled a) /\ canceled a = false)
     /\ cleanupKey (f a) = cleanupKey a) ->
  follows s (with_session sid f s).
Proof.
  intros Hf. unfold with_session.
  destruct (sessions s !! sid) as [a|] eqn:Ha; [|apply follows_refl].
  split; [destruct s; reflexivity|]. split; [destruct s; reflexivity|].
  split; [destruct s; reflexivity|].
  rewrite sessions_set_sessions. intros sid' a' Ha'.
  destruct (decide (sid' = sid)) as [->|Hne].
  - rewrite list_lookup_insert_eq in Ha'
      by (eapply lookup_lt_Some; eauto).
    injection Ha' as <-. destruct (Hf a) as [H1 H2].
    exists a. auto.
  - rewrite list_lookup_insert_ne in Ha' by congruence. eauto.
Qed.

Lemma resolve_follows sid s : follows s (resolve sid s).
Proof. apply with_session_follows. intros []; cbn; auto. Qed.

Lemma unschedule_follows sid s :
  follows s (with_session sid (set_scheduled None) s).
Proof.
  apply with_session_follows. intros []; cbn. split; [|reflexivity].
  intros [? [=]].
Qed.

Lemma cancel_transition_follows sid s : follows s (cancel_transition sid s).
Proof.
  unfold cancel_transition.
  eapply follows_trans; [|apply aside_follows, with_uniforms_aside].
  eapply follows_trans; [|apply aside_follows, with_uniforms_aside].
  apply with_session_follows. intros []; cbn. split; [|reflexivity].
  intros _ [=].
Qed.

(** *** Keys *)

Lemma fresh_key_above (items : list (nat * Cleanup)) k :
  k ∈ map fst items -> (k < fresh_key items)%nat.
Proof.
  unfold fresh_key. intros Hin. apply list_elem_of_In in Hin.
  pose proof (proj1 (list_max_le (map fst items) (list_max (map fst items)))
                (Nat.le_refl _)) as Hall.
  rewrite List.Forall_forall in Hall. specialize (Hall _ Hin). lia.
Qed.

Lemma NoDup_give (items : list (nat * Cleanup)) c :
  NoDup (map fst items) ->
  NoDup (map fst (items ++ [(fresh_key items, c)])).
Proof.
  intros Hn. rewrite map_app. apply NoDup_app. split; [exact Hn|].
  split; [|cbn; apply NoDup_singleton].
  intros k Hk Hk'. cbn in Hk'. apply list_elem_of_singleton in Hk'. subst.
  apply fresh_key_above in Hk. lia.
Qed.

Lemma NoDup_fst_inj (items : list (nat * Cleanup)) k c c' :
  NoDup (map fst items) -> (k, c) ∈ items -> (k, c') ∈ items -> c = c'.
Proof.
  induction items as [|[k0 c0] l IH]; intros Hn H1 H2.
  - inversion H1.
  - cbn in Hn. apply NoDup_cons in Hn as [Hk0 Hn].
    apply elem_of_cons in H1, H2.
    assert (Hin : forall x, (k0, x) ∈ l -> False).
    { intros x Hx. apply Hk0. apply (list_elem_of_fmap_2 fst) in Hx.
      exact Hx. }
    destruct H1 as [H1|H1], H2 as [H2|H2].
    + congruence.
    + injection H1 as -> ->. destruct (Hin _ H2).
    + injection H2 as -> ->. destruct (Hin _ H1).
    + auto.
Qed.

Lemma find_key (items : list (nat * Cleanup)) k c :
  NoDup (map fst items) -> (k, c) ∈ items ->
  List.find (fun i => Nat.eqb (fst i) k) items = Some (k, c).
Proof.
  intros Hn Hin.
  destruct (List.find (fun i => Nat.eqb (fst i) k) items) as [[k' c']|] eqn:E.
  - apply find_some in E as [E1 E2]. cbn in E2. apply Nat.eqb_eq in E2.
    subst k'. apply list_elem_of_In in E1.
    rewrite (NoDup_fst_inj _ _ _ _ Hn Hin E1). reflexivity.
  - apply list_elem_of_In in Hin.
    pose proof (find_none _ _ E _ Hin) as H. cbn in H.
    rewrite Nat.eqb_refl in H. discriminate.
Qed.

Lemma elem_of_drop_key (items : list (nat * Cleanup)) k i :
  i ∈ List.filter (fun i => negb (Nat.eqb (fst i) k)) items
  <-> i ∈ items /\ fst i <> k.
Proof.
  rewrite !list_elem_of_In, filter_In, negb_true_iff, Nat.eqb_neq. tauto.
Qed.

Lemma NoDup_drop_key (items : list (nat * Cleanup)) k :
  NoDup (map fst items) ->
  NoDup (map fst (List.filter (fun i => negb (Nat.eqb (fst i) k)) items)).
Proof.
  induction items as [|[k0 c0] l IH]; cbn; [auto|].
  intros Hn. apply NoDup_cons in Hn as [Hk0 Hn].
  destruct (negb (k0 =? k)%nat); cbn; [|auto].
  apply NoDup_cons. split; [|auto].
  intros Hin. apply Hk0. apply list_elem_of_fmap in Hin as (i & -> & Hi).
  apply elem_of_drop_key in Hi as [Hi _].
  apply list_elem_of_fmap. exists i. auto.
Qed.

Lemma drop_fresh_key (items : list (nat * Cleanup)) c :
  List.filter (fun i => negb (Nat.eqb (fst i) (fresh_key items)))
    (items ++ [(fresh_key items, c)])
  = items.
Proof.
  rewrite List.filter_app. cbn. rewrite Nat.eqb_refl. cbn.
  rewrite app_nil_r.
  assert (H : forall i, i ∈ items -> (fst i < fresh_key items)%nat).
  { intros i Hi. apply fresh_key_above. apply list_elem_of_fmap. eauto. }
  revert H. generalize (fresh_key items) as n.
  induction items as [|i l IH]; intros n H; cbn; [reflexivity|].
  assert (fst i < n)%nat by (apply H; left).
  replace (fst i =? n)%nat with false by (symmetry; apply Nat.eqb_neq; lia).
  cbn. f_equal. apply IH. intros j Hj. apply H. right. exact Hj.
Qed.

End Ownership.

Section Owner.

Lemma guarded_give c s0 s :
  guarded s0 ->
  maid s = give c (maid s0) ->
  (renderer (container s) = None -> renderer (container s0) = None) ->
  (forall sid a,
     sessions s !! sid = Some a ->
     (exists a0,
        sessions s0 !! sid = Some a0 /\ cleanupKey a0 = cleanupKey a
        /\ (is_Some (scheduled a) -> canceled a = false ->
            is_Some (scheduled a0) /\ canceled a0 = false))
     \/ (c = CleanTransition sid
         /\ cleanupKey a = Some (fresh_key (Items (maid s0))))) ->
  guarded s.
Proof.
  intros G Hm Hr Hs. unfold guarded in *. rewrite Hm.
  unfold give, Give. cbn [fst Destroyed Items].
  intros Hd. destruct (G Hd) as (G1 & G2 & (kf & G3) & G4).
  split.
  { destruct (renderer (container s)); [eauto|].
    rewrite (Hr eq_refl) in G1. exact G1. }
  split; [apply NoDup_give, G2|].
  split; [exists kf; apply elem_of_app; auto|].
  intros sid a Ha.
  destruct (Hs _ _ Ha) as [(a0 & Ha0 & Hk0 & Hr0)|[-> Hk']].
  - destruct (G4 _ _ Ha0) as (k & Hk & Hin). exists k.
    split; [congruence|]. intros Hsch Hc. apply elem_of_app. left.
    destruct (Hr0 Hsch Hc). auto.
  - eexists. split; [exact Hk'|]. intros _ _. apply elem_of_app. right.
    apply list_elem_of_singleton. reflexivity.
Qed.

Lemma AppendToElement_owner el w h s :
  let s' := state_of (AppendToElement el w h s) in
  (Destroyed (maid s) = true /\ s' = s)
  \/ (Destroyed (maid s) = false
      /\ maid s' = give CleanResizeObserver (maid s)
      /\ sessions s' = sessions s
      /\ (renderer (container s') = None <-> renderer (container s) = None)).
Proof.
  open_state s. destruct md; [left; split; reflexivity|right].
  destruct ren as [[[] ? ?]|], pe, ro, af; norm; repeat split; auto;
    discriminate.
Qed.

Lemma transition_resume_owner uid image c s :
  let s1 := transition_resume uid image c s in
  resizeObserver s1 = resizeObserver s
  /\ (renderer (container s1) = None <-> renderer (container s) = None)
  /\ ((maid s1 = maid s /\ sessions s1 = sessions s)
      \/ exists a,
           sessions s1 = sessions s ++ [a] /\ canceled a = false
           /\ ((Destroyed (maid s) = true /\ maid s1 = maid s
                /\ cleanupKey a = None)
               \/ (Destroyed (maid s) = false
                   /\ maid s1
                      = give (CleanTransition (List.length (sessions s)))
                          (maid s)
                   /\ cleanupKey a = Some (fresh_key (Items (maid s)))))).
Proof.
  open_state s.
  destruct md, unew, ren as [[[] ? ?]|], tex, af; norm;
    destruct (Qle_bool td 0); norm.
  all: split; [reflexivity|]; split; [tauto|].
  all: first [left; split; reflexivity
             |right; eexists; split; [reflexivity|]; split; [reflexivity|];
              first [left; repeat split; reflexivity
                    |right; repeat split; reflexivity]].
Qed.

Lemma Maid_Clean_key k sid s :
  Destroyed (maid s) = false ->
  NoDup (map fst (Items (maid s))) ->
  (k, CleanTransition sid) ∈ Items (maid s) ->
  let m := {| Destroyed := false;
              Items := List.filter (fun i => negb (Nat.eqb (fst i) k))
                         (Items (maid s));
              RunsOnClean := RunsOnClean (maid s) |} in
  Maid_Clean k s
  = if RunsOnClean (maid s) then cancel_transition sid (set_maid m s)
    else set_maid m s.
Proof.
  intros Hd Hn Hin m. subst m. pose proof (find_key _ _ _ Hn Hin) as Hf.
  unfold Maid_Clean. rewrite Hd, Hf. cbn zeta. rewrite ?Hd. reflexivity.
Qed.

Lemma guarded_drop sid k s m :
  guarded s ->
  Destroyed (maid s) = false ->
  (k, CleanTransition sid) ∈ Items (maid s) ->
  (forall a, sessions s !! sid = Some a -> scheduled a = None) ->
  m = {| Destroyed := false;
         Items := List.filter (fun i => negb (Nat.eqb (fst i) k))
                    (Items (maid s));
         RunsOnClean := RunsOnClean (maid s) |} ->
  guarded (set_maid m s).
Proof.
  intros G Hd Hin Hsid ->. destruct (G Hd) as (G1 & G2 & (kf & G3) & G4).
  unfold guarded.
  replace (maid (set_maid _ s)) with
    {| Destroyed := false;
       Items := List.filter (fun i => negb (Nat.eqb (fst i) k))
                  (Items (maid s));
       RunsOnClean := RunsOnClean (maid s) |} by (destruct s; reflexivity).
  replace (container (set_maid _ s)) with (container s)
    by (destruct s; reflexivity).
  rewrite sessions_set_maid. cbn [Destroyed Items]. intros _.
  split; [exact G1|]. split; [apply NoDup_drop_key, G2|]. split.
  - exists kf. apply elem_of_drop_key. split; [exact G3|]. cbn.
    intros ->. pose proof (NoDup_fst_inj _ _ _ _ G2 G3 Hin). discriminate.
  - intros sid' a Ha. destruct (G4 _ _ Ha) as (k' & Hk & Hin').
    exists k'. split; [exact Hk|]. intros Hs Hc. specialize (Hin' Hs Hc).
    apply elem_of_drop_key. split; [exact Hin'|]. cbn. intros ->.
    pose proof (NoDup_fst_inj _ _ _ _ G2 Hin Hin') as [= ->].
    rewrite (Hsid _ Ha) in Hs. destruct Hs as [? [=]].
Qed.

Lemma set_maid_fields m s :
  resizeObserver (set_maid m s) = resizeObserver s
  /\ container (set_maid m s) = container s.
Proof. destruct s; split; reflexivity. Qed.

Lemma stepped_follows sid a s :
  sessions s !! sid = Some a -> follows s (stepped sid a s).
Proof.
  intros Ha. unfold stepped.
  eapply follows_trans; [|apply aside_follows, render_if_ready_aside].
  eapply follows_trans; [|apply aside_follows, with_uniforms_aside].
  rewrite <- (with_session_hit sid
                (fun a => set_currentStep (S (currentStep a))
                            (set_scheduled None a)) s a Ha).
  apply with_session_follows. intros []; cbn. split; [|reflexivity].
  intros [? [=]].
Qed.

Lemma performAnimationStep_owner sid s :
  timer_pending sid s = true ->
  guarded s /\ unplugged s ->
  guarded (performAnimationStep sid s)
  /\ unplugged (performAnimationStep sid s).
Proof.
  unfold timer_pending. destruct (sessions s !! sid) as [a|] eqn:Ha;
    [|discriminate].
  destruct (scheduled a) as [d|] eqn:Hsch; [intros _|discriminate].
  intros [G U].
  destruct (canceled a) eqn:Hc.
  { rewrite (performAnimationStep_canceled _ _ _ Ha Hc).
    assert (F : follows s (resolve sid
                             (with_session sid (set_scheduled None) s)))
      by (eapply follows_trans;
          [apply unschedule_follows|apply resolve_follows]).
    split; [eapply follows_guarded|eapply follows_unplugged]; eauto. }
  rewrite (performAnimationStep_live _ _ _ Ha Hc).
  pose proof (stepped_follows _ _ _ Ha) as F1.
  pose proof (lookup_stepped _ _ _ Ha) as Hl.
  destruct (stepped_fields sid a s) as (Fm & _).
  set (s1 := stepped sid a s) in *.
  pose proof (follows_guarded _ _ F1 G) as G1.
  pose proof (follows_unplugged _ _ F1 U) as U1.
  destruct (S (currentStep a) <? totalSteps)%nat.
  - (* the next step is scheduled *)
    rewrite (with_session_hit _ _ _ _ Hl).
    set (a2 := set_scheduled (Some (stepDuration a)) _).
    destruct F1 as (A1 & A2 & A3 & A4).
    split.
    + unfold guarded.
      replace (maid (set_sessions _ s1)) with (maid s1)
        by (destruct s1; reflexivity).
      replace (container (set_sessions _ s1)) with (container s1)
        by (destruct s1; reflexivity).
      rewrite sessions_set_sessions.
      intros Hd. destruct (G1 Hd) as (P1 & P2 & P3 & P4).
      repeat split; auto.
      intros sid' a' Ha'.
      destruct (decide (sid' = sid)) as [->|Hne].
      * rewrite list_lookup_insert_eq in Ha'
          by (eapply lookup_lt_Some; eauto).
        injection Ha' as <-. rewrite Fm in *.
        destruct (proj2 (proj2 (proj2 (G Hd))) sid a Ha) as (k & Hk & Hin).
        exists k. split; [destruct a; exact Hk|]. intros _ _.
        apply Hin; [rewrite Hsch; eauto|exact Hc].
      * rewrite list_lookup_insert_ne in Ha' by congruence. eauto.
    + unfold unplugged.
      replace (resizeObserver (set_sessions _ s1)) with (resizeObserver s1)
        by (destruct s1; reflexivity).
      replace (container (set_sessions _ s1)) with (container s1)
        by (destruct s1; reflexivity).
      exact U1.
  - (* the transition is complete *)
    unfold finish. rewrite (is_canceled_hit _ _ _ Hl).
    replace (canceled _) with false by (destruct a; symmetry; exact Hc).
    pose proof (completeTransition_aside (newTexture a) (newCoverArtUrl a) s1)
      as F2.
    set (s2 := completeTransition _ _ s1) in *.
    pose proof (aside_guarded _ _ F2 G1) as G2.
    pose proof (aside_unplugged _ _ F2 U1) as U2.
    destruct F2 as (B1 & B2 & B3 & B4).
    assert (Hfin : forall s3, guarded s3 /\ unplugged s3 ->
                     guarded (resolve sid s3) /\ unplugged (resolve sid s3)).
    { intros s3 [G3 U3].
      split; [eapply follows_guarded|eapply follows_unplugged];
        eauto using resolve_follows. }
    apply Hfin.
    destruct (cleanupKey a) as [k|] eqn:Hk; [|auto].
    unfold IsDestroyed. destruct (Destroyed (maid s2)) eqn:Hd; [auto|].
    assert (Hd0 : Destroyed (maid s) = false) by congruence.
    assert (Hin : (k, CleanTransition sid) ∈ Items (maid s2)).
    { rewrite B1, Fm.
      destruct (proj2 (proj2 (proj2 (G Hd0))) sid a Ha) as (k' & Hk' & Hin).
      replace k with k' by congruence.
      apply Hin; [rewrite Hsch; eauto|exact Hc]. }
    destruct (G2 Hd) as (P1 & P2 & P3 & P4).
    rewrite (Maid_Clean_key k sid s2 Hd P2 Hin).
    set (m := {| Destroyed := false; Items := _; RunsOnClean := _ |}).
    assert (G3 : guarded (set_maid m s2)).
    { eapply guarded_drop; eauto.
      rewrite B2, Hl. intros ? [= <-]. destruct a; reflexivity. }
    assert (U3 : unplugged (set_maid m s2)).
    { unfold unplugged. destruct (set_maid_fields m s2) as [-> ->].
      exact U2. }
    destruct (RunsOnClean (maid s2)); [|auto].
    split; [eapply follows_guarded|eapply follows_unplugged];
      eauto using cancel_transition_follows.
Qed.

Lemma run_all_observer (items : list (nat * Cleanup)) s :
  (exists k, (k, CleanFallback) ∈ items) ->
  cleaned (fold_left (fun s '(_, c) => run_cleanup c s) items s).
Proof.
  intros [k Hin]. apply list_elem_of_split in Hin as (l1 & l2 & ->).
  rewrite fold_left_app. cbn [fold_left run_cleanup].
  apply run_all_cleaned, cleanup_cleaned.
Qed.

Lemma cleaned_unplugged s : cleaned s -> unplugged s.
Proof. intros (H & _) _. exact H. Qed.

Lemma guarded_destroyed s : Destroyed (maid s) = true -> guarded s.
Proof. intros H H'. congruence. Qed.

Lemma Maid_Destroy_released s :
  guarded s -> Destroyed (maid s) = false ->
  cleaned (Maid_Destroy s) /\ Destroyed (maid (Maid_Destroy s)) = true.
Proof.
  intros G Hd. destruct (G Hd) as (_ & _ & G3 & _).
  unfold Maid_Destroy. rewrite Hd.
  split; [|destruct (fold_left _ _ _); reflexivity].
  apply set_maid_cleaned, run_all_observer, G3.
Qed.

Lemma Maid_Destroy_owner s :
  guarded s /\ unplugged s ->
  guarded (Maid_Destroy s) /\ unplugged (Maid_Destroy s).
Proof.
  intros [G U]. destruct (Destroyed (maid s)) eqn:Hd.
  - unfold Maid_Destroy. rewrite Hd. auto.
  - destruct (Maid_Destroy_released s G Hd) as [H1 H2].
    split; [apply guarded_destroyed, H2|apply cleaned_unplugged, H1].
Qed.

Lemma Destroy_owner s : guarded (Destroy s) /\ unplugged (Destroy s).
Proof.
  split; [apply guarded_destroyed, Destroy_destroyed
         |apply cleaned_unplugged, Destroy_cleaned].
Qed.

Lemma constructor_maid options runsOnClean now ratio s :
  constructor options runsOnClean now ratio = Some s ->
  is_Some (renderer (container s))
  /\ maid s
     = give CleanFallback
         (give CleanCache
            (give CleanDom
               (give CleanAnimationFrame
                  (give CleanUniforms
                     (give CleanTexture
                        (give CleanMaterial
                           (give CleanRenderer
                              (give CleanGeometry
                                 (nullish (opt_maid options)
                                    (new_Maid runsOnClean)))))))))).
Proof.
  unfold constructor.
  destruct (GetShaderUniforms 0) as [u|]; [|discriminate].
  cbn [mbind option_bind]. intros [= <-]. split; [eauto|reflexivity].
Qed.

Lemma constructor_owner options runsOnClean now ratio s :
  constructor options runsOnClean now ratio = Some s ->
  match opt_maid options with
  | Some m => IsDestroyed m = false /\ Items m = []
  | None => True
  end ->
  guarded s /\ unplugged s.
Proof.
  intros Hc Hm.
  destruct (constructor_fields _ _ _ _ _ Hc) as (Hs & _ & _ & Ho & _).
  destruct (constructor_maid _ _ _ _ _ Hc) as (Hr & Hmaid).
  split; [|intros _; exact Ho].
  intros _. rewrite Hmaid, Hs. clear Hmaid Hc.
  assert (E : Items (nullish (opt_maid options) (new_Maid runsOnClean)) = []).
  { destruct (opt_maid options) as [m|]; [destruct Hm; assumption|].
    reflexivity. }
  destruct (nullish (opt_maid options) (new_Maid runsOnClean))
    as [d items roc]. cbn in E. subst items.
  split; [exact Hr|].
  split; [apply (bool_decide_unpack _); vm_compute; reflexivity|].
  split; [|intros ? ? [=]].
  exists 9%nat. cbn. do 8 apply list_elem_of_further. apply list_elem_of_here.
Qed.

Lemma step_owner e s s' :
  step e s = Some s' -> guarded s /\ unplugged s -> guarded s' /\ unplugged s'.
Proof.
  intros Hstep [G U].
  assert (Fo : forall s1, follows s s1 -> guarded s1 /\ unplugged s1).
  { intros s1 F.
    split; [eapply follows_guarded|eapply follows_unplugged]; eauto. }
  assert (As : forall s1, aside s s1 -> guarded s1 /\ unplugged s1)
    by (intros s1 A; apply Fo, aside_follows, A).
  destruct e; cbn [step] in Hstep.
  - injection Hstep as <-. apply As, Update_aside.
  - injection Hstep as <-.
    destruct (AppendToElement_owner element clientWidth clientHeight s)
      as [[Hd ->]|(Hd & Hm & Hs & Hr)]; [auto|].
    split.
    + eapply guarded_give; eauto; [tauto|].
      rewrite Hs. intros sid a Ha. left. eauto.
    + intros Hn. apply Hr in Hn. destruct (G Hd) as ([r Hsome] & _).
      congruence.
  - injection Hstep as <-. apply Destroy_owner.
  - apply As. eapply decode_resolved_aside; eauto.
  - apply As. eapply decode_rejected_aside; eauto.
  - unfold Update_resume in Hstep.
    destruct (updates s !! uid) as [[first img hue [|c]| | |]|];
      try discriminate.
    destruct first; injection Hstep as <-.
    { apply As. eapply aside_trans;
        [apply initializeTexture_resume_aside|apply set_status_aside]. }
    destruct (transition_resume_owner uid img c s)
      as (Ho & Hr & [[Hm Hs]|(a & Hs & Hc & Hk)]).
    + apply As. split; [exact Hm|]. split; [exact Hs|].
      split; [exact Ho|exact Hr].
    + assert (Hold : forall sid a',
                (sessions s ++ [a]) !! sid = Some a' ->
                (sessions s !! sid = Some a')
                \/ (sid = List.length (sessions s) /\ a' = a)).
      { intros sid a' Ha'.
        destruct (decide (sid < List.length (sessions s))%nat) as [Hlt|Hge].
        - rewrite lookup_app_l in Ha' by exact Hlt. auto.
        - rewrite lookup_app_r in Ha' by lia.
          destruct (sid - List.length (sessions s))%nat as [|n] eqn:En;
            [|destruct n; discriminate].
          injection Ha' as <-. right. split; [lia|reflexivity]. }
      split; [|unfold unplugged in *; rewrite Ho; tauto].
      destruct Hk as [(Hd & Hm & Hk)|(Hd & Hm & Hk)].
      * apply guarded_destroyed. congruence.
      * eapply guarded_give; eauto; [tauto|].
        rewrite Hs. intros sid a' Ha'.
        destruct (Hold _ _ Ha') as [Ha0|[-> ->]]; [left; eauto|right; auto].
  - destruct (timer_pending sid s) eqn:Ht; [|discriminate].
    injection Hstep as <-. apply performAnimationStep_owner; auto.
  - destruct (bool_decide (f ∈ frames s)); [|discriminate].
    injection Hstep as <-. apply As, frame_aside.
  - destruct (resizeObserver s); [|discriminate].
    injection Hstep as <-. apply As, on_resize_aside.
  - injection Hstep as <-. apply Maid_Destroy_owner; auto.
  - destruct (renderer (container s)) as [r|] eqn:Hr; [|discriminate].
    injection Hstep as <-. apply As.
    destruct s as [[] ? ? ? ? ? ? ? ? ? ? ? ? ? ? ? ?]; cbn in *.
    repeat split; try reflexivity; cbn; congruence.
  - injection Hstep as <-. apply As. destruct s; repeat split; tauto.
  - injection Hstep as <-. apply As. destruct s; repeat split; tauto.
Qed.

Lemma reachable_owner s : reachable s -> guarded s /\ unplugged s.
Proof.
  induction 1 as [options roc now ratio s Hc Hm|e s s' _ IH Hstep].
  - eapply constructor_owner; eauto.
  - eapply step_owner; eauto.
Qed.

End Owner.

Section OwnerLemmas.

Lemma cancellable_intro m (l : list Session) i :
  (forall sid a, l !! sid = Some a ->
     scheduled a = None \/ canceled a = true
     \/ holds_canceller m (i + sid) = true) ->
  cancellable_from i m l = true.
Proof.
  revert i. induction l as [|b l IH]; intros i H; [reflexivity|].
  cbn [cancellable_from]. apply andb_true_intro. split.
  - specialize (H O b eq_refl). rewrite Nat.add_0_r in H.
    destruct H as [-> | [-> | ->]]; rewrite ?orb_true_r; reflexivity.
  - apply IH. intros sid a Ha.
    replace (S i + sid)%nat with (i + S sid)%nat by lia. apply H. exact Ha.
Qed.

Lemma guarded_cancellable s :
  guarded s -> Destroyed (maid s) = false -> cancellable s = true.
Proof.
  intros G Hd. destruct (G Hd) as (_ & _ & _ & G4).
  apply cancellable_intro. intros sid a Ha. cbn [Nat.add].
  destruct (G4 _ _ Ha) as (k & Hk & Hin).
  destruct (scheduled a) as [d|] eqn:Hs; [|auto].
  destruct (canceled a) eqn:Hc; [auto|].
  right. right. unfold holds_canceller. rewrite Hd. cbn [negb andb].
  apply existsb_exists. exists (k, CleanTransition sid).
  split; [apply list_elem_of_In, Hin; eauto|cbn; apply Nat.eqb_refl].
Qed.

Lemma Maid_Destroy_cancels sid s :
  cancellable s = true -> Destroyed (maid s) = false ->
  timer_pending sid (Maid_Destroy s) = true ->
  is_canceled sid (Maid_Destroy s) = true.
Proof.
  intros Hc Hd Hp.
  assert (Hdoom : doomed sid (Maid_Destroy s)).
  { assert (Hs : timer_pending sid s = true).
    { revert Hp. unfold Maid_Destroy. rewrite Hd.
      rewrite timer_pending_set_maid, run_all_timer. auto. }
    unfold timer_pending in Hs.
    destruct (sessions s !! sid) as [a|] eqn:Ha; [|discriminate].
    unfold Maid_Destroy. rewrite Hd.
    intros a'. rewrite sessions_set_maid. apply run_all_doomed.
    destruct (cancellable_lookup _ _ 0 _ _ Hc Ha) as [H | [H | H]].
    - rewrite H in Hs. discriminate.
    - left. intros a''. rewrite Ha. intros [= <-]. exact H.
    - right. unfold holds_canceller in H. apply andb_prop in H as [_ H].
      exact H. }
  unfold timer_pending in Hp. unfold is_canceled.
  destruct (sessions (Maid_Destroy s) !! sid) as [a|] eqn:Ha; [|discriminate].
  apply Hdoom, Ha.
Qed.

Lemma updateContainerDimensions_returns w h s :
  is_Some (renderer (container s)) ->
  exists s', updateContainerDimensions w h s = Returned s'.
Proof.
  intros [r Hr]. unfold updateContainerDimensions. rewrite Hr. eauto.
Qed.

Lemma AppendToElement_returns el w h s :
  (Destroyed (maid s) = false -> is_Some (renderer (container s))) ->
  exists s', AppendToElement el w h s = Returned s'.
Proof.
  intros Hr. unfold AppendToElement, IsDestroyed.
  destruct (Destroyed (maid s)) eqn:Hd; [eauto|].
  apply updateContainerDimensions_returns.
  destruct (Hr eq_refl) as [r Er]. exists r.
  open_state s. cbn in Er, Hd. subst ren md.
  destruct pe, ro; reflexivity.
Qed.

End OwnerLemmas.

(** ** What goes on beside a transition *)

Section Beside.
Implicit Types (s : DynamicBackground) (a : Session) (sid : nat).

Lemma beside_refl s : beside s s.
Proof.
  repeat split; try reflexivity. exists []. symmetry. apply app_nil_r.
Qed.

Lemma beside_trans s0 s1 s2 : beside s0 s1 -> beside s1 s2 -> beside s0 s2.
Proof.
  intros (A1 & A2 & A3 & A4 & A5 & A6 & m1 & A7)
         (B1 & B2 & B3 & B4 & B5 & B6 & m2 & B7).
  repeat split; try congruence.
  exists (m1 ++ m2). rewrite B7, A7, app_assoc. reflexivity.
Qed.









End Beside.

Section Alone.
Implicit Types (s : DynamicBackground) (a : Session) (sid : nat).












End Alone.

Section Runs.
Implicit Types (s : DynamicBackground) (a : Session) (sid : nat).








End Runs.

Section TenSteps.
Implicit Types (s : DynamicBackground) (a : Session) (sid : nat).



End TenSteps.


(** * The properties of the specification *)

(** ** The shader uniform set *)

(** C9. [GetShaderUniforms] gives every declared uniform its default by
    type: a float is 0, except [RotationSpeed], which is 1
    ([TransitionProgress] is 0); a vec2 is (0,0); a sampler2D is null, except
    [NewBlurredCoverArt], which holds a texture over a blank 1 by 1 canvas.
    The typed view of the record has these values. *)
Theorem GetShaderUniforms_defaults (next : nat)
  (uniformName uniformType : string) :
  (uniformName, uniformType) ∈ ShaderUniformStructure ->
  ((uniformType = "float"
    /\ GetShaderUniformsRecord next !! uniformName
       = Some (VNumber (if String.eqb uniformName "RotationSpeed"
                        then 1 else 0)))
   \/ (uniformType = "vec2"
       /\ GetShaderUniformsRecord next !! uniformName = Some (VVector2 0 0))
   \/ (uniformType = "sampler2D"
       /\ GetShaderUniformsRecord next !! uniformName
          = Some (VTexture (if String.eqb uniformName "NewBlurredCoverArt"
                            then JObj (placeholder next) else JNull))))
  /\ GetShaderUniforms next
     = Some {| Time := 0; RotationSpeed := 1; BlurredCoverArt := JNull;
               NewBlurredCoverArt := JObj (placeholder next);
               TransitionProgress := 0;
               BackgroundCircleOrigin := (0, 0); BackgroundCircleRadius := 0;
               CenterCircleOrigin := (0, 0); CenterCircleRadius := 0;
               LeftCircleOrigin := (0, 0); LeftCircleRadius := 0;
               RightCircleOrigin := (0, 0); RightCircleRadius := 0 |}.
Proof.
  rewrite ShaderUniformStructure_eq. intros H.
  split; [|vm_compute; reflexivity].
  repeat (apply elem_of_cons in H as [H | H];
          [ injection H as -> ->;
            first [ left; split; [reflexivity | vm_compute; reflexivity]
                  | right; left; split; [reflexivity | vm_compute; reflexivity]
                  | right; right; split; [reflexivity | vm_compute; reflexivity] ]
          | ]).
  apply elem_of_nil in H. destruct H.
Qed.

Lemma GetShaderUniforms_defaults_witness :
  GetShaderUniformsRecord 0 !! "RotationSpeed" = Some (VNumber 1)
  /\ GetShaderUniformsRecord 0 !! "TransitionProgress" = Some (VNumber 0).
Proof.
  assert (H1 : ("RotationSpeed", "float") ∈ ShaderUniformStructure)
    by (apply (bool_decide_unpack _); vm_compute; exact I).
  assert (H2 : ("TransitionProgress", "float") ∈ ShaderUniformStructure)
    by (apply (bool_decide_unpack _); vm_compute; exact I).
  split.
  - destruct (GetShaderUniforms_defaults 0 _ _ H1) as [[[_ E] | [[E _] | [E _]]] _];
      [exact E | discriminate | discriminate].
  - destruct (GetShaderUniforms_defaults 0 _ _ H2) as [[[_ E] | [[E _] | [E _]]] _];
      [exact E | discriminate | discriminate].
Defined.

(** ** The blur cache *)

(** C7. When the identifier is in the blur cache, [getBlurredCoverArt]
    returns the cached canvas itself: it looks the cache up and does nothing
    else (no decoding, no canvas), whatever the hue shift asked for and the
    blur amount in force; in particular a second request for an identifier,
    with any blur and hue, returns the canvas the first one made. *)
Theorem cache_hit_returns_cached (coverArtUrl : string) (hue : Q)
  (s : DynamicBackground) (canvas : OffscreenCanvas) :
  blurredCoverArts s !! coverArtUrl = Some canvas ->
  getBlurredCoverArt_start coverArtUrl hue s
  = (logE (CacheLookup coverArtUrl) s, Decoded canvas)
  /\ forall hue0 w h s0 blur' hue',
       let first := getBlurredCoverArt_finish coverArtUrl hue0 w h s0 in
       let s1 := set_blurAmount blur' (fst first) in
       getBlurredCoverArt_start coverArtUrl hue' s1
       = (logE (CacheLookup coverArtUrl) s1, Decoded (snd first)).
Proof.
  assert (Hit : forall h' s' c,
            blurredCoverArts s' !! coverArtUrl = Some c ->
            getBlurredCoverArt_start coverArtUrl h' s'
            = (logE (CacheLookup coverArtUrl) s', Decoded c)).
  { intros h' s' c H. unfold getBlurredCoverArt_start.
    replace (blurredCoverArts (logE (CacheLookup coverArtUrl) s'))
      with (blurredCoverArts s') by (destruct s'; reflexivity).
    rewrite H. reflexivity. }
  intros H. split; [apply Hit, H|].
  intros hue0 w h s0 blur' hue' first s1. apply Hit.
  unfold s1, first. open_state s0. norm. apply lookup_insert_eq.
Qed.

Lemma cache_hit_returns_cached_witness :
  exists s,
    boot show_A = Some s
    /\ exists canvas,
         canvas_paint canvas = Blurred "A" 40 0
         /\ getBlurredCoverArt_start "A" 7 s
            = (logE (CacheLookup "A") s, Decoded canvas).
Proof.
  eexists. split; [vm_compute; reflexivity|].
  match goal with
  | |- exists canvas, _ /\ getBlurredCoverArt_start _ _ ?s = _ =>
      eexists; split;
      [|refine (proj1 (cache_hit_returns_cached "A" 7 s _ _));
        vm_compute; reflexivity]
  end.
  reflexivity.
Defined.

(** ** Update *)

(** C4. An [Update] whose arguments (blur and speed defaulting to the
    current values, hue shift to 0) are those already applied returns the
    state as it is: nothing is logged (no render, no texture, no cache
    lookup) and nothing stored changes.  So does an [Update] of an instance
    whose tracker is destroyed. *)
Theorem Update_unchanged_noop (o : UpdateOptions) (s : DynamicBackground) :
  IsDestroyed (maid s) = true \/ same_args o s ->
  Update o s = s /\ step (CallUpdate o) s = Some s.
Proof.
  intros H.
  assert (E : Update o s = s).
  { unfold Update. destruct (IsDestroyed (maid s)); [reflexivity|].
    destruct H as [H | (Hi & Hh & Hb & Hs)]; [discriminate|].
    rewrite (num_neq_false _ _ Hh), (num_neq_false _ _ Hb),
      (num_neq_false _ _ Hs).
    rewrite bool_decide_eq_true_2 by (symmetry; exact Hi).
    reflexivity. }
  split; [exact E | cbn [step]; rewrite E; reflexivity].
Qed.

Lemma Update_unchanged_noop_witness :
  exists s, boot show_A = Some s /\ Update (update_to "A") s = s.
Proof.
  eexists. split; [vm_compute; reflexivity|].
  apply Update_unchanged_noop. right.
  split; [reflexivity|]. split; [reflexivity|]. split; reflexivity.
Defined.

(** C2, as the code has it.  When the image of an [Update] fails to load,
    the call is rejected; the current texture, the uniforms and the blur
    cache are as before the call, and the call has logged its cache lookup
    and the start of the decoding only (no render, no allocation).  The
    stored image identifier, blur amount, rotation speed and hue shift are
    those of the request: [Update] stores them before it loads the image. *)
Theorem Update_load_failure (o : UpdateOptions) (s : DynamicBackground)
  (first : bool) (hue : Q) :
  let uid := List.length (updates s) in
  updates (Update o s) !! uid
  = Some (AwaitingCover first (image o) hue Decoding) ->
  exists s' crossOrigin,
    run [CallUpdate o; ImageFailed uid] s = Some s'
    /\ updates s' !! uid = Some Rejected
    /\ texture (container s') = texture (container s)
    /\ uniforms (container s') = uniforms (container s)
    /\ blurredCoverArts s' = blurredCoverArts s
    /\ log s'
       = [ImageDecode (image o) crossOrigin; CacheLookup (image o)] ++ log s
    /\ currentImage s' = Some (image o)
    /\ blurAmount s' = nullish (blur o) (blurAmount s)
    /\ rotationSpeed s' = nullish (speed o) (rotationSpeed s)
    /\ currentPlaceholderHueShift s' = nullish (placeholderHueShift o) 0.
Proof.
  intros uid. subst uid. cbn [run step mbind option_bind].
  open_state s. destruct o as [img oh ob os]. cbn [updates image].
  assert (Hno : forall x, us !! List.length us = Some x -> False).
  { intros x Hx. apply lookup_lt_Some in Hx. lia. }
  destruct md, tex, af; norm.
  all: try (intros H; destruct (Hno _ H)).
  all: match goal with
       | |- context [if ?b then _ else _] => destruct b
       end; norm.
  all: try (intros H; destruct (Hno _ H)).
  all: destruct (bc !! img) as [c|] eqn:Hc; norm.
  all: rewrite list_lookup_middle by reflexivity.
  all: intros [= <- <-].
  all: unfold decode_rejected; cbn [updates];
    rewrite list_lookup_middle by reflexivity; norm.
  all: eexists; eexists; split; [reflexivity|]; cbn.
  all: (split; [apply list_lookup_insert_eq; rewrite length_app; cbn; lia|]).
  all: repeat split; reflexivity.
Qed.

Lemma Update_load_failure_witness :
  exists s,
    boot show_A = Some s
    /\ exists s',
         run [CallUpdate (update_to "B"); ImageFailed 1] s = Some s'
         /\ updates s' !! 1%nat = Some Rejected
         /\ texture (container s') = texture (container s)
         /\ uniforms (container s') = uniforms (container s).
Proof.
  eexists. split; [vm_compute; reflexivity|].
  match goal with
  | |- exists s', run _ ?s = _ /\ _ =>
      destruct (Update_load_failure (update_to "B") s false 0)
        as (s' & x & H1 & H2 & H3 & H4 & _)
  end; [vm_compute; reflexivity|].
  exists s'. auto.
Defined.

(** C2 fails as stated: after image A is shown, an [Update] to B whose
    load fails leaves B as the stored current image. *)
Lemma failed_load_changes_stored_image :
  exists s s',
    boot show_A = Some s
    /\ run [CallUpdate (update_to "B"); ImageFailed 1] s = Some s'
    /\ updates s' !! 1%nat = Some Rejected
    /\ currentImage s = Some "A"
    /\ currentImage s' = Some "B"
    /\ currentImage s' <> currentImage s.
Proof.
  eexists. eexists. split; [vm_compute; reflexivity|].
  split; [vm_compute; reflexivity|].
  split; [reflexivity|]. split; [reflexivity|]. split; [reflexivity|].
  discriminate.
Qed.

(** ** Resizing *)

(** C8. The resize callback clamps each observed dimension upward to 500
    and computes the four circle regions from the clamped size scaled by the
    pixel ratio: the background radius is 1.5 times the larger scaled axis,
    the center radius 1 times when the width is the larger axis and 0.75
    otherwise, the left radius 0.75 times, the right radius 0.65 times when
    the width is the larger axis and 0.5 otherwise.  It then renders at once
    with these regions and restarts the animation loop, whose first frame
    renders again and requests the next one. *)
Theorem resize_regions (w h : Q) (s : DynamicBackground) (r : Renderer) :
  renderer (container s) = Some r ->
  contextLost r = false ->
  let width := Math_max w 500 in
  let height := Math_max h 500 in
  let sw := width * devicePixelRatio s in
  let sh := height * devicePixelRatio s in
  let L := Math_max sw sh in
  exists s',
    on_resize w h s = Returned s'
    /\ 500 <= width /\ 500 <= height
    /\ (w <= 500 -> width = 500) /\ (h <= 500 -> height = 500)
    /\ (500 < w -> width = w) /\ (500 < h -> height = h)
    /\ (renderer (container s') ≫= rendererSize) = Some (width, height)
    /\ BackgroundCircleOrigin (uniforms (container s')) = (sw / 2, sh / 2)
    /\ BackgroundCircleRadius (uniforms (container s')) == (15 # 10) * L
    /\ CenterCircleOrigin (uniforms (container s')) = (sw / 2, sh / 2)
    /\ (sh < sw -> CenterCircleRadius (uniforms (container s')) == 1 * L)
    /\ (sw <= sh ->
        CenterCircleRadius (uniforms (container s')) == (75 # 100) * L)
    /\ LeftCircleOrigin (uniforms (container s')) = (0, sh)
    /\ LeftCircleRadius (uniforms (container s')) == (75 # 100) * L
    /\ RightCircleOrigin (uniforms (container s')) = (sw, 0)
    /\ (sh < sw ->
        RightCircleRadius (uniforms (container s')) == (65 # 100) * L)
    /\ (sw <= sh ->
        RightCircleRadius (uniforms (container s')) == (5 # 10) * L)
    /\ log s' =
         [Render (uniforms (container s'));
          Render (set_Time (Time (uniforms (container s)))
                    (uniforms (container s')))] ++ log s
    /\ animationFrameId (container s') = Some (nextFrame s)
    /\ frames s' =
         match animationFrameId (container s) with
         | Some f => filter (fun g => g <> f) (frames s)
         | None => frames s
         end ++ [nextFrame s].
Proof.
  intros Hr Hc width height sw sh L.
  exists (state_of (on_resize w h s)).
  subst L. unfold Math_max.
  unfold on_resize, updateContainerDimensions.
  fold width height. rewrite Hr. cbn -[Qmult Qdiv Qle_bool filter].
  fold sw sh.
  unfold startAnimation, animate, cancel_frame.
  cbn -[Qmult Qdiv Qle_bool filter].
  assert (Hlt : sh < sw -> Qle_bool sw sh = false).
  { intros H. destruct (Qle_bool sw sh) eqn:E; [|reflexivity].
    apply Qle_bool_iff in E. exfalso. exact (Qlt_not_le _ _ H E). }
  assert (Hle : sw <= sh -> Qle_bool sw sh = true).
  { intros H. apply Qle_bool_iff. exact H. }
  destruct (animationFrameId (container s)) as [f|];
    cbn -[Qmult Qdiv Qle_bool filter]; rewrite Hc;
    cbn -[Qmult Qdiv Qle_bool filter].
  all: (split; [reflexivity|]).
  all: (split; [apply Math_max_r|]); (split; [apply Math_max_r|]).
  all: (split; [apply Math_max_clamp|]); (split; [apply Math_max_clamp|]).
  all: (split; [apply Math_max_keep|]); (split; [apply Math_max_keep|]).
  all: (split; [reflexivity|]); (split; [reflexivity|]).
  all: (split; [destruct (Qle_bool sw sh); cbn; ring|]).
  all: (split; [reflexivity|]).
  all: (split; [intros H; rewrite (Hlt H); cbn; ring|]).
  all: (split; [intros H; rewrite (Hle H); cbn; ring|]).
  all: (split; [reflexivity|]).
  all: (split; [destruct (Qle_bool sw sh); cbn; ring|]).
  all: (split; [reflexivity|]).
  all: (split; [intros H; rewrite (Hlt H); cbn; ring|]).
  all: (split; [intros H; rewrite (Hle H); cbn; ring|]).
  all: (split; [reflexivity|]); (split; reflexivity).
Qed.

Lemma resize_regions_witness :
  exists s,
    boot show_A = Some s
    /\ exists s',
         on_resize 10 10 s = Returned s'
         /\ (renderer (container s') ≫= rendererSize) = Some (500, 500)
         /\ BackgroundCircleRadius (uniforms (container s')) == 750.
Proof.
  eexists. split; [vm_compute; reflexivity|].
  match goal with
  | |- exists s', on_resize _ _ ?s = _ /\ _ =>
      destruct (resize_regions 10 10 s
                  {| contextLost := false; rendererSize := Some (500, 500);
                     pixelRatio := Some 1 |}
                  ltac:(vm_compute; reflexivity) eq_refl)
        as (s' & H1 & _ & _ & _ & _ & _ & _ & H2 & _ & H3 & _)
  end.
  exists s'. split; [exact H1|]. split; [exact H2|].
  rewrite H3. reflexivity.
Defined.

(** ** Transitions *)




(** C10. An [Update] that finds no current texture and reaches the [await]
    of [initializeTexture] (a first-time [Update]) builds the blurred canvas
    (or takes it from the cache), makes it the current texture and sets the
    current-texture, time and rotation-speed uniforms.  No render call is
    among the effects of the call, of the decoding and of the resumption,
    and none of them requests or cancels an animation frame; for the
    decoding and the resumption this holds in whatever state they happen.
    And in every reachable state that has not rendered yet, the only events
    that render are the mounting ([AppendToElement], with its initial
    resize) and the resumption of a later [Update] that found a current
    texture. *)
Theorem first_update_builds_without_render (s : DynamicBackground) :
  reachable s ->
  (forall o w h hue st,
     let uid := List.length (updates s) in
     updates (Update o s) !! uid
     = Some (AwaitingCover true (image o) hue st) ->
     texture (container s) = None
     /\ match st with
        | Decoded c =>
            blurredCoverArts s !! image o = Some c
            /\ exists s', run [CallUpdate o; Resume uid] s = Some s'
                          /\ initialized c s s'
        | Decoding =>
            blurredCoverArts s !! image o = None
            /\ exists s' c,
                 run [CallUpdate o; ImageDecoded uid w h; Resume uid] s
                 = Some s'
                 /\ canvas_paint c
                    = Blurred (image o) (nullish (blur o) (blurAmount s)) hue
                 /\ blurredCoverArts s' !! image o = Some c
                 /\ initialized c s s'
        end)
  /\ (forall uid w h s',
        step (ImageDecoded uid w h) s = Some s' ->
        frames s' = frames s
        /\ animationFrameId (container s') = animationFrameId (container s)
        /\ without_render
             [CanvasAlloc (S (nextObject s)); CanvasAlloc (nextObject s)]
             s s')
  /\ (forall uid img hue c,
        updates s !! uid = Some (AwaitingCover true img hue (Decoded c)) ->
        exists s', step (Resume uid) s = Some s' /\ initialized c s s')
  /\ (forall e s',
        rendered s = false -> step e s = Some s' -> rendered s' = true ->
        (exists el w h, e = CallAppendToElement el w h)
        \/ (exists uid img hue c,
              e = Resume uid
              /\ updates s !! uid
                 = Some (AwaitingCover false img hue (Decoded c)))).
Proof.
  intros Hr. split; [|split; [|split]].
  - intros o w h hue st. apply first_update.
  - intros uid w h s'. apply decode_resolved_effects.
  - intros uid img hue c. apply first_update_resumes.
  - intros e s' Hn He Hy.
    eapply first_render; [apply reachable_unseen, Hr | eassumption..].
Qed.

Lemma first_update_builds_without_render_witness :
  exists s,
    boot [] = Some s
    /\ exists s' c,
         run [CallUpdate (update_to "A"); ImageDecoded 0 100 80; Resume 0] s
         = Some s'
         /\ initialized c s s'.
Proof.
  eexists. split; [vm_compute; reflexivity|].
  match goal with
  | |- exists s' c, run _ ?s = _ /\ _ =>
      pose proof (proj1 (first_update_builds_without_render s
                           (reachable_boot [] s
                              ltac:(vm_compute; reflexivity)))
                    (update_to "A") 100%nat 80%nat 0 Decoding
                    ltac:(vm_compute; reflexivity)) as H
  end.
  cbv beta iota zeta in H. destruct H as (_ & _ & s' & c & H1 & _ & _ & H2).
  exists s', c. split; [exact H1 | exact H2].
Defined.

(** ** The uniforms in every reachable state *)




(** ** Teardown *)

(** C6 fails as stated: the timer of a transition step is still pending
    after [Destroy] was called twice (no timer is ever cleared).  During a
    crossfade the step left behind belongs to a canceled session.  When the
    tracker was destroyed before the cover of an [Update] arrived, the
    session that update starts has no canceller: its step is pending and
    live after both calls, and its ten steps commit the image. *)
Lemma Destroy_leaves_timer_pending :
  (exists s,
     boot (show_A ++ request_C ++ start_C) = Some s
     /\ IsDestroyed (maid s) = false
     /\ timer_pending 0 s = true
     /\ timer_pending 0 (Destroy (Destroy s)) = true)
  /\ (exists s,
        boot (show_A ++ request_C ++ [TrackerDestroyed; Resume 1]) = Some s
        /\ IsDestroyed (maid s) = true
        /\ timer_pending 0 (Destroy (Destroy s)) = true
        /\ is_canceled 0 (Destroy (Destroy s)) = false
        /\ currentImage
             (Nat.iter 10 (performAnimationStep 0) (Destroy (Destroy s)))
           = Some "C"%string).
Proof.
  split; eexists; (split; [vm_compute; reflexivity|]);
    repeat split; vm_compute; reflexivity.
Qed.

(** C6, as the code has it.  On a reachable instance [Destroy] called twice
    leaves the state [Destroy] called once leaves: the functions are total
    (no exception), the second call changes nothing that can be observed
    and only calls [dispose] again on the mesh geometry and material, which
    the scene keeps.  After the first call everything is released, the
    tracker is destroyed and no animation frame is pending.  The timers of
    the transition steps are not cleared.  If the tracker was alive at the
    first call, every step still scheduled belongs to a canceled session;
    if it had been destroyed before, [Destroy] changes no session, so a
    session started since stays as live as it was.  The timer of a canceled
    session only settles the promise of the session. *)
Theorem Destroy_twice (s : DynamicBackground) :
  reachable s ->
  let s1 := Destroy s in
  let s2 := Destroy s1 in
  observable s2 = observable s1
  /\ log s2 = [GeometryDispose; MaterialDispose; GeometryDispose] ++ log s1
  /\ cleaned s1
  /\ IsDestroyed (maid s1) = true
  /\ frames s1 = []
  /\ animationFrameId (container s1) = None
  /\ (IsDestroyed (maid s) = false ->
      forall sid, timer_pending sid s1 = true -> is_canceled sid s1 = true)
  /\ (IsDestroyed (maid s) = true -> sessions s1 = sessions s)
  /\ forall sid,
       timer_pending sid s1 = true ->
       is_canceled sid s1 = true ->
       performAnimationStep sid s1
       = resolve sid (with_session sid (set_scheduled None) s1)
       /\ set_sessions [] (performAnimationStep sid s1) = set_sessions [] s1.
Proof.
  intros Hr s1 s2.
  pose proof (framed_tracked _ (reachable_framed _ Hr)) as Hf.
  pose proof (Destroy_cleaned s) as Hcl. fold s1 in Hcl.
  pose proof (Destroy_destroyed s) as Hd. fold s1 in Hd.
  assert (E : s2 = cleanup s1)
    by (unfold s2, Destroy, IsDestroyed; rewrite Hd; reflexivity).
  destruct (cleanup_again s1 Hcl) as [E1 E2].
  destruct (Destroy_no_frames s Hf) as [F1 F2].
  rewrite E. split; [exact E1|]. split; [exact E2|]. split; [exact Hcl|].
  split; [exact Hd|]. split; [exact F1|]. split; [exact F2|].
  split; [|split].
  - intros Ha sid Hp. apply (Destroy_cancels sid s); [|exact Hp].
    apply guarded_cancellable; [apply reachable_owner, Hr | exact Ha].
  - intros Ha. unfold s1, Destroy. rewrite Ha. apply sessions_cleanup.
  - intros sid _ Hx. apply canceled_step_noop, Hx.
Qed.

Lemma Destroy_twice_witness :
  exists s,
    boot (show_A ++ request_C ++ start_C) = Some s
    /\ observable (Destroy (Destroy s)) = observable (Destroy s)
    /\ frames (Destroy s) = []
    /\ is_canceled 0 (Destroy s) = true.
Proof.
  eexists. split; [vm_compute; reflexivity|].
  match goal with
  | |- observable (Destroy (Destroy ?s)) = _ /\ _ =>
      destruct (Destroy_twice s
                  (reachable_boot (show_A ++ request_C ++ start_C) s
                     ltac:(vm_compute; reflexivity)))
        as (H1 & _ & _ & _ & H2 & _ & H3 & _)
  end.
  split; [exact H1|]. split; [exact H2|].
  apply (H3 ltac:(vm_compute; reflexivity) 0%nat). vm_compute. reflexivity.
Defined.

(** ** Concurrent updates *)

(** C1, evaluated on the code.  [update(B)] is issued while the crossfade
    from A to C is in flight.  When the crossfade to B has started, the
    session of C is neither canceled nor without its timer, and its texture
    has been disposed of.  Its remaining steps run and commit C, with that
    texture, as the current image; B is committed only by its own session,
    later. *)
Theorem superseding_update_keeps_old_session :
  exists s1 s2 s3 tC,
    boot (show_A ++ request_C ++ start_C ++ supersede_with_B) = Some s1
    /\ is_canceled 0 s1 = false
    /\ timer_pending 0 s1 = true
    /\ newTexture <$> sessions s1 !! 0%nat = Some tC
    /\ disposed (texture_id tC) s1 = true
    /\ run rest_of_C s1 = Some s2
    /\ currentImage s2 = Some "C"
    /\ texture (container s2) = Some tC
    /\ (resolved <$> sessions s2 !! 0%nat) = Some true
    /\ run rest_of_B s2 = Some s3
    /\ currentImage s3 = Some "B".
Proof.
  do 4 eexists.
  split; [vm_compute; reflexivity|].
  split; [vm_compute; reflexivity|].
  split; [vm_compute; reflexivity|].
  split; [vm_compute; reflexivity|].
  split; [vm_compute; reflexivity|].
  split; [vm_compute; reflexivity|].
  split; [vm_compute; reflexivity|].
  split; [vm_compute; reflexivity|].
  split; [vm_compute; reflexivity|].
  split; [vm_compute; reflexivity|].
  vm_compute; reflexivity.
Qed.

(** * Further properties of the background *)

(** X1. After [Destroy] the instance ignores its methods: [Update] returns at
    once and leaves the state as it is, and [AppendToElement] returns
    without mounting anything. *)
Theorem Destroyed_instance_ignores_calls (s : DynamicBackground)
  (o : UpdateOptions) (el : nat) (w h : Q) :
  Update o (Destroy s) = Destroy s
  /\ AppendToElement el w h (Destroy s) = Returned (Destroy s).
Proof.
  pose proof (Destroy_destroyed s) as Hd.
  split.
  - unfold Update, IsDestroyed. rewrite Hd. reflexivity.
  - unfold AppendToElement, IsDestroyed. rewrite Hd. reflexivity.
Qed.

(** X2. [DisposeShaderUniforms] disposes of the textures the two slots
    hold, empties both slots and resets the progress and the four origins;
    time, speed and radii stay.  A second call finds nothing to dispose of
    and changes nothing. *)
Theorem DisposeShaderUniforms_idempotent (u : ShaderUniforms) :
  let '(u1, (d1, d2)) := DisposeShaderUniforms u in
  DisposeShaderUniforms u1 = (u1, (None, None))
  /\ truthy (BlurredCoverArt u1) = false
  /\ truthy (NewBlurredCoverArt u1) = false
  /\ TransitionProgress u1 = 0
  /\ BackgroundCircleOrigin u1 = (0, 0) /\ CenterCircleOrigin u1 = (0, 0)
  /\ LeftCircleOrigin u1 = (0, 0) /\ RightCircleOrigin u1 = (0, 0)
  /\ Time u1 = Time u /\ RotationSpeed u1 = RotationSpeed u
  /\ BackgroundCircleRadius u1 = BackgroundCircleRadius u
  /\ CenterCircleRadius u1 = CenterCircleRadius u
  /\ LeftCircleRadius u1 = LeftCircleRadius u
  /\ RightCircleRadius u1 = RightCircleRadius u
  /\ d1 = match BlurredCoverArt u with JObj t => Some t | _ => None end
  /\ d2 = match NewBlurredCoverArt u with JObj t => Some t | _ => None end.
Proof.
  destruct u as [ut ur ucur unew utp ubo ubr uco ucr ulo ulr uro urr].
  destruct ucur, unew; cbn; repeat split; reflexivity.
Qed.

Lemma framed_frames s :
  framed s ->
  (List.length (frames s) <= 1)%nat
  /\ forall f, f ∈ frames s <-> animationFrameId (container s) = Some f.
Proof.
  unfold framed. intros ->.
  destruct (animationFrameId (container s)) as [g|]; cbn; split; try lia.
  - intros f. rewrite list_elem_of_singleton. split; congruence.
  - intros f. split; [intros H; inversion H | discriminate].
Qed.

(** X3. In every reachable state at most one animation frame is
    requested, and it is the frame whose id the container holds. *)
Theorem render_loop_single_frame (s : DynamicBackground) :
  reachable s ->
  (List.length (frames s) <= 1)%nat
  /\ forall f, f ∈ frames s <-> animationFrameId (container s) = Some f.
Proof. intros Hr. apply framed_frames, reachable_framed, Hr. Qed.

Lemma framed_fired s f :
  framed s -> f ∈ frames s ->
  filter (fun g => g <> f) (frames s) = []
  /\ step (FrameFired f) s = Some (animate (set_frames [] s)).
Proof.
  intros Hf Hin. pose proof Hf as Hf'. unfold framed in Hf.
  assert (E : frames s = [f]).
  { destruct (animationFrameId (container s)) as [g|]; rewrite Hf in Hin.
    - apply list_elem_of_singleton in Hin. subst. exact Hf.
    - inversion Hin. }
  assert (E' : filter (fun g => g <> f) (frames s) = [])
    by (rewrite E; apply filter_self).
  split; [exact E'|].
  cbn [step]. rewrite bool_decide_eq_true_2 by exact Hin. rewrite E'.
  reflexivity.
Qed.

(** X4. With a renderer whose context is not lost, the animation-frame
    callback sets the time uniform to [performance.now() / 1000], renders
    once and requests the next frame, which becomes the only pending one. *)
Theorem frame_callback_renders_and_rearms (s : DynamicBackground)
  (r : Renderer) (f : positive) :
  reachable s ->
  renderer (container s) = Some r ->
  contextLost r = false ->
  f ∈ frames s ->
  exists s',
    step (FrameFired f) s = Some s'
    /\ uniforms (container s')
       = set_Time (performance_now s / 1000) (uniforms (container s))
    /\ log s' = Render (uniforms (container s')) :: log s
    /\ frames s' = [nextFrame s]
    /\ animationFrameId (container s') = Some (nextFrame s)
    /\ nextFrame s' = Pos.succ (nextFrame s).
Proof.
  intros Hr Hren Hcl Hin.
  destruct (framed_fired s f (reachable_framed _ Hr) Hin) as [_ ->].
  eexists. split; [reflexivity|].
  open_state s. cbn in Hren. subst ren. destruct r as [cl rsz pr].
  cbn in Hcl. subst cl. norm. repeat split; reflexivity.
Qed.

(** X5. With a renderer whose context is lost, the animation-frame
    callback renders nothing and requests no frame: the render loop has
    stopped, and [startAnimation] does not restart it. *)
Theorem frame_callback_stops_on_lost_context (s : DynamicBackground)
  (r : Renderer) (f : positive) :
  reachable s ->
  renderer (container s) = Some r ->
  contextLost r = true ->
  f ∈ frames s ->
  exists s',
    step (FrameFired f) s = Some s'
    /\ log s' = log s
    /\ uniforms (container s') = uniforms (container s)
    /\ frames s' = []
    /\ animationFrameId (container s') = None
    /\ startAnimation s' = s'.
Proof.
  intros Hr Hren Hcl Hin.
  destruct (framed_fired s f (reachable_framed _ Hr) Hin) as [_ ->].
  eexists. split; [reflexivity|].
  open_state s. cbn in Hren. subst ren. destruct r as [cl rsz pr].
  cbn in Hcl. subst cl. destruct af; norm; repeat split; reflexivity.
Qed.

Lemma framed_none s :
  framed s -> frames s = [] -> animationFrameId (container s) = None.
Proof.
  unfold framed. destruct (animationFrameId (container s)); [|reflexivity].
  intros -> [=].
Qed.

Lemma Update_transition_cancels (o : UpdateOptions) (s : DynamicBackground)
  (hue : Q) (st : Stage) :
  updates (Update o s) !! List.length (updates s)
  = Some (AwaitingCover false (image o) hue st) ->
  animationFrameId (container (Update o s)) = None
  /\ is_Some (texture (container s))
  /\ IsDestroyed (maid s) = false.
Proof.
  open_state s. destruct o as [img oh ob os]. cbn [updates image].
  assert (Hno : forall x, us !! List.length us = Some x -> False).
  { intros x Hx. apply lookup_lt_Some in Hx. lia. }
  destruct md, tex, af; norm.
  all: try (intros H; destruct (Hno _ H)).
  all: match goal with
       | |- context [if ?b then _ else _] => destruct b
       end; norm.
  all: try (intros H; destruct (Hno _ H)).
  all: destruct (bc !! img) as [c|] eqn:Hc; norm.
  all: rewrite list_lookup_middle by reflexivity.
  all: intros [=]; repeat split; eauto.
Qed.

(** X6. An [Update] that goes on to load a cover for a crossfade (a texture
    is shown already) cancels the animation frame before it awaits the
    cover: right after the call no frame is pending, and the call has
    rendered nothing.  The arrival of the decoded image, and the failure of
    its decoding, neither render nor request or cancel a frame, in whatever
    state they happen. *)
Theorem Update_pauses_render_loop (o : UpdateOptions) (s : DynamicBackground)
  (hue : Q) (st : Stage) :
  reachable s ->
  let uid := List.length (updates s) in
  let s1 := Update o s in
  updates s1 !! uid = Some (AwaitingCover false (image o) hue st) ->
  is_Some (texture (container s))
  /\ frames s1 = []
  /\ animationFrameId (container s1) = None
  /\ (exists l, without_render l s s1)
  /\ (forall s' s2,
        decode_rejected uid s' = Some s2 ->
        frames s2 = frames s'
        /\ animationFrameId (container s2) = animationFrameId (container s')
        /\ log s2 = log s')
  /\ (forall w h s' s2,
        decode_resolved uid w h s' = Some s2 ->
        frames s2 = frames s'
        /\ animationFrameId (container s2) = animationFrameId (container s')
        /\ without_render
             [CanvasAlloc (S (nextObject s')); CanvasAlloc (nextObject s')]
             s' s2).
Proof.
  intros Hr uid s1 Hu.
  destruct (Update_transition_cancels o s hue st Hu) as (Hid & Ht & _).
  fold s1 in Hid.
  pose proof (Update_steady o s (reachable_framed _ Hr)) as Hf. fold s1 in Hf.
  assert (Hfr : frames s1 = [])
    by (unfold framed in Hf; rewrite Hid in Hf; exact Hf).
  split; [exact Ht|]. split; [exact Hfr|]. split; [exact Hid|].
  split; [apply Update_without_render|]. split.
  - intros s' s2. apply decode_rejected_effects.
  - intros w h s' s2. apply decode_resolved_effects.
Qed.

(** X7. With a transition duration of zero or less, the update commits the
    decoded cover at once: no session is started and the tracker is not
    touched, the new texture is the current one with progress 0, and the
    old texture is disposed of in that step.  The render calls of the step
    are none without a renderer, two with a renderer whose context is lost
    (the forced render of [Update] and the render of [completeTransition])
    and a third with a live one, the first frame of the restarted render
    loop, which requests the next animation frame. *)
Theorem Update_without_transition (uid : nat) (image : string) (hue : Q)
  (c : OffscreenCanvas) (s : DynamicBackground) :
  updates s !! uid = Some (AwaitingCover false image hue (Decoded c)) ->
  transitionDuration s <= 0 ->
  let t := {| texture_id := nextObject s; texture_image := c |} in
  exists s1 l,
    Update_resume uid s = Some s1
    /\ updates s1 !! uid = Some Fulfilled
    /\ sessions s1 = sessions s
    /\ maid s1 = maid s
    /\ committed t image s1
    /\ RotationSpeed (uniforms (container s1)) = rotationSpeed s
    /\ data_cover_id (container s1) = Some image
    /\ log s1 = l ++ log s
    /\ TextureAlloc (nextObject s) ∈ l
    /\ (forall old, texture (container s) = Some old ->
          TextureDispose (texture_id old) ∈ l)
    /\ List.filter is_render l
       = match renderer (container s) with
         | None => []
         | Some r =>
             let forced :=
               Render (set_RotationSpeed (rotationSpeed s)
                         (set_NewBlurredCoverArt (JObj t)
                            (uniforms (container s)))) in
             let swapped :=
               Render (set_Time (Time (uniforms (container s)))
                         (uniforms (container s1))) in
             if contextLost r then [swapped; forced]
             else [Render (uniforms (container s1)); swapped; forced]
         end
    /\ animationFrameId (container s1)
       = match renderer (container s) with
         | Some r => if contextLost r then None else Some (nextFrame s)
         | None => None
         end.
Proof.
  intros Hu Hd t.
  apply Qle_bool_iff in Hd.
  unfold Update_resume. rewrite Hu.
  exists (transition_resume uid image c s).
  assert (Hlt : (uid < List.length (updates s))%nat)
    by (eapply lookup_lt_Some; eauto).
  clear Hu. subst t. unfold committed, progress.
  open_state s. cbn [transitionDuration] in Hd. cbn [updates] in Hlt.
  destruct ren as [[[] ? ?]|], tex, af, unew; norm; rewrite Hd; norm.
  all: eexists; (split; [reflexivity|]).
  all: split; [apply list_lookup_insert_eq; exact Hlt|].
  all: do 5 (split; [repeat split; reflexivity|]).
  all: split; [since|].
  all: split;
    [repeat first [apply list_elem_of_here | apply list_elem_of_further]|].
  all: split;
    [intros old Ho; inversion Ho; subst;
     repeat first [apply list_elem_of_here | apply list_elem_of_further]|].
  all: split; reflexivity.
Qed.

Lemma append_String (b : ascii) (n p : string) :
  (String b n ++ p)%string = String b (n ++ p)%string.
Proof. reflexivity. Qed.

Lemma append_Empty (p : string) : (EmptyString ++ p)%string = p.
Proof. reflexivity. Qed.

Lemma prefix_app (n s : string) :
  String.prefix n s = true <-> exists post, s = (n ++ post)%string.
Proof.
  revert s. induction n as [|a n IH]; intros s.
  - split; [intros _; exists s; reflexivity|intros _; destruct s; reflexivity].
  - destruct s as [|b s]; cbn [String.prefix].
    { split; [discriminate|intros [? E]; rewrite append_String in E;
                            discriminate]. }
    destruct (Ascii.ascii_dec a b) as [->|Hne].
    + rewrite IH. split; intros [post E]; exists post;
        rewrite append_String in *; congruence.
    + split; [discriminate|].
      intros [post E]. rewrite append_String in E. congruence.
Qed.

Lemma includes_spec (n s : string) :
  includes n s = true
  <-> exists pre post, s = (pre ++ n ++ post)%string.
Proof.
  induction s as [|b s IH].
  - cbn [includes]. rewrite orb_false_r, prefix_app. split.
    + intros [post E]. exists EmptyString, post. exact E.
    + intros ([|c pre] & post & E).
      * exists post. exact E.
      * rewrite append_String in E. discriminate.
  - cbn [includes]. rewrite orb_true_iff, prefix_app, IH. split.
    + intros [[post E]|(pre & post & E)].
      * exists EmptyString, post. exact E.
      * exists (String b pre), post. rewrite append_String. congruence.
    + intros ([|c pre] & post & E).
      * left. exists post. exact E.
      * right. exists pre, post. rewrite append_String in E. congruence.
Qed.

Lemma cover_start_miss (url : string) (hue : Q) (s : DynamicBackground) :
  blurredCoverArts s !! url = None ->
  getBlurredCoverArt_start url hue s
  = (logE (ImageDecode url (includes "https://" url || includes "http://" url))
       (logE (CacheLookup url) s), Decoding).
Proof.
  intros Hmiss. unfold getBlurredCoverArt_start.
  replace (blurredCoverArts (logE (CacheLookup url) s))
    with (blurredCoverArts s) by (destruct s; reflexivity).
  rewrite Hmiss. reflexivity.
Qed.

Lemma cover_start_hit (url : string) (hue : Q) (s : DynamicBackground)
  (c : OffscreenCanvas) :
  blurredCoverArts s !! url = Some c ->
  getBlurredCoverArt_start url hue s = (logE (CacheLookup url) s, Decoded c).
Proof.
  intros Hhit. unfold getBlurredCoverArt_start.
  replace (blurredCoverArts (logE (CacheLookup url) s))
    with (blurredCoverArts s) by (destruct s; reflexivity).
  rewrite Hhit. reflexivity.
Qed.

Lemma cover_finish_fields (url : string) (hue : Q) (w h : nat)
  (s : DynamicBackground) :
  let done := getBlurredCoverArt_finish url hue w h s in
  let c := snd done in
  log (fst done)
  = [CanvasAlloc (S (nextObject s)); CanvasAlloc (nextObject s)] ++ log s
  /\ canvas_width c
     = Math_min (inject_Z (Z.of_nat w)) (inject_Z (Z.of_nat h))
       + Math_ceil (3 * blurAmount s) * (3 # 2)
  /\ canvas_height c = canvas_width c
  /\ canvas_paint c = Blurred url (blurAmount s) hue
  /\ blurredCoverArts (fst done) = <[url := c]> (blurredCoverArts s).
Proof.
  open_state s. unfold getBlurredCoverArt_finish. norm.
  repeat split; reflexivity.
Qed.

(** X8. On a cache miss [getBlurredCoverArt] looks the identifier up,
    starts decoding the image and, once it is decoded, allocates two
    canvases, returns the square blurred one (side: the smaller image
    dimension plus one and a half times the ceiling of three times the
    blur) and stores it; the next call for the identifier returns that
    canvas after the lookup alone, whatever hue it asks for. *)
Theorem cover_miss_then_hit (url : string) (hue : Q) (w h : nat)
  (s : DynamicBackground) :
  blurredCoverArts s !! url = None ->
  let start := getBlurredCoverArt_start url hue s in
  let done := getBlurredCoverArt_finish url hue w h (fst start) in
  let c := snd done in
  snd start = Decoding
  /\ (exists crossOrigin,
        log (fst start) = [ImageDecode url crossOrigin; CacheLookup url] ++ log s)
  /\ log (fst done)
     = [CanvasAlloc (S (nextObject s)); CanvasAlloc (nextObject s)]
       ++ log (fst start)
  /\ canvas_width c
     = Math_min (inject_Z (Z.of_nat w)) (inject_Z (Z.of_nat h))
       + Math_ceil (3 * blurAmount s) * (3 # 2)
  /\ canvas_height c = canvas_width c
  /\ canvas_paint c = Blurred url (blurAmount s) hue
  /\ blurredCoverArts (fst done) = <[url := c]> (blurredCoverArts s)
  /\ forall hue',
       getBlurredCoverArt_start url hue' (fst done)
       = (logE (CacheLookup url) (fst done), Decoded c).
Proof.
  intros Hmiss start done c.
  assert (Es : start = (logE (ImageDecode url (includes "https://" url
                                               || includes "http://" url))
                          (logE (CacheLookup url) s), Decoding))
    by (apply cover_start_miss, Hmiss).
  destruct (cover_finish_fields url hue w h (fst start))
    as (H1 & H2 & H3 & H4 & H5).
  fold done in H1, H2, H3, H4, H5. fold c in H2, H3, H4, H5.
  assert (Ef : nextObject (fst start) = nextObject s
               /\ blurAmount (fst start) = blurAmount s
               /\ blurredCoverArts (fst start) = blurredCoverArts s)
    by (rewrite Es; destruct s; repeat split; reflexivity).
  destruct Ef as (E1 & E2 & E3). rewrite E1 in H1. rewrite E2 in H2, H4.
  rewrite E3 in H5.
  split; [rewrite Es; reflexivity|].
  split; [eexists; rewrite Es; destruct s; reflexivity|].
  do 5 (split; [assumption|]).
  intros hue'. apply cover_start_hit. rewrite H5. apply lookup_insert_eq.
Qed.

(** X9. On a cache miss the image is loaded with [crossOrigin] set
    exactly when the identifier contains [https://] or [http://], at any
    position. *)
Theorem crossOrigin_iff_http_url (url : string) (hue : Q)
  (s : DynamicBackground) :
  blurredCoverArts s !! url = None ->
  exists crossOrigin,
    log (fst (getBlurredCoverArt_start url hue s))
    = [ImageDecode url crossOrigin; CacheLookup url] ++ log s
    /\ (crossOrigin = true
        <-> exists pre post,
              url = (pre ++ "https://" ++ post)%string
              \/ url = (pre ++ "http://" ++ post)%string).
Proof.
  intros Hmiss. open_state s. cbn [blurredCoverArts] in Hmiss.
  unfold getBlurredCoverArt_start. cbn [blurredCoverArts logE set_log log].
  rewrite Hmiss. cbn [fst log logE set_log].
  eexists. split; [reflexivity|].
  rewrite orb_true_iff, !includes_spec. split.
  - intros [(pre & post & E)|(pre & post & E)]; exists pre, post; auto.
  - intros (pre & post & [E|E]); [left|right]; exists pre, post; exact E.
Qed.

Section OwnerTheorems.

(** X10. On a reachable instance [AppendToElement] returns (it never
    throws for want of a renderer), and so does the resize callback whenever
    an observer is installed. *)
Theorem mount_and_resize_never_throw (s : DynamicBackground) :
  reachable s ->
  (forall el w h, exists s', AppendToElement el w h s = Returned s')
  /\ (forall w h,
        is_Some (resizeObserver s) ->
        exists s', on_resize w h s = Returned s'
                   /\ step (Resized w h) s = Some s').
Proof.
  intros Hr. destruct (reachable_owner s Hr) as [G U]. split.
  - intros el w h. apply AppendToElement_returns.
    intros Hd. apply (G Hd).
  - intros w h [o Ho].
    destruct (updateContainerDimensions_returns
                (Math_max w 500) (Math_max h 500) s) as [s' Hs'].
    { destruct (renderer (container s)) eqn:E; [eauto|].
      rewrite (U E) in Ho. discriminate. }
    exists s'. unfold on_resize. split; [exact Hs'|].
    cbn [step]. rewrite Ho. unfold on_resize. rewrite Hs'. reflexivity.
Qed.

(** X11. While the tracker is alive, every transition session of a
    reachable instance whose timer is pending has registered its canceller
    with the tracker, or is canceled already. *)
Theorem running_sessions_cancellable (s : DynamicBackground) :
  reachable s -> IsDestroyed (maid s) = false -> cancellable s = true.
Proof.
  intros Hr Hd. apply guarded_cancellable; [apply reachable_owner, Hr|].
  exact Hd.
Qed.

(** X12. Destroying the tracker of a reachable instance tears the instance
    down: the container is cleaned, no frame stays pending, every step
    still scheduled belongs to a canceled session; a later [Destroy]
    changes nothing observable and a later [Update] does nothing. *)
Theorem tracker_destroy_tears_down (s : DynamicBackground) :
  reachable s ->
  IsDestroyed (maid s) = false ->
  let s1 := Maid_Destroy s in
  cleaned s1
  /\ IsDestroyed (maid s1) = true
  /\ frames s1 = []
  /\ (forall sid, timer_pending sid s1 = true -> is_canceled sid s1 = true)
  /\ observable (Destroy s1) = observable s1
  /\ (forall o, Update o s1 = s1).
Proof.
  intros Hr Hd s1. destruct (reachable_owner s Hr) as [G U].
  destruct (Maid_Destroy_released s G Hd) as [Hc Hd1]. fold s1 in Hc, Hd1.
  split; [exact Hc|]. split; [exact Hd1|]. split.
  { pose proof (Maid_Destroy_steady s (reachable_framed _ Hr)) as Hf.
    fold s1 in Hf. unfold framed in Hf.
    destruct Hc as (_ & Hcont & _). rewrite Hcont in Hf. exact Hf. }
  split.
  { intros sid. apply Maid_Destroy_cancels; [|exact Hd].
    apply guarded_cancellable; assumption. }
  split.
  { unfold Destroy, IsDestroyed. rewrite Hd1.
    apply (cleanup_again s1 Hc). }
  intros o. unfold Update, IsDestroyed. rewrite Hd1. reflexivity.
Qed.

End OwnerTheorems.

Section Registration.

Lemma step_keeps_tracker sid s a :
  sessions s !! sid = Some a -> canceled a = false ->
  (S (currentStep a) < totalSteps)%nat ->
  maid (performAnimationStep sid s) = maid s
  /\ exists a',
       sessions (performAnimationStep sid s) !! sid = Some a'
       /\ currentStep a' = S (currentStep a) /\ canceled a' = false
       /\ cleanupKey a' = cleanupKey a.
Proof.
  intros Ha Hc Hlt.
  rewrite (performAnimationStep_live _ _ _ Ha Hc).
  apply Nat.ltb_lt in Hlt. rewrite Hlt.
  pose proof (lookup_stepped _ _ _ Ha) as Hl.
  destruct (stepped_fields sid a s) as (Fm & _).
  destruct (with_session_fields sid (set_scheduled (Some (stepDuration a)))
              (stepped sid a s)) as (Wm & _).
  split; [congruence|].
  eexists. split; [apply lookup_with_session, Hl|].
  destruct a; cbn in *; auto.
Qed.

Lemma steps_keep_tracker sid s a k :
  sessions s !! sid = Some a -> canceled a = false -> currentStep a = O ->
  (k < totalSteps)%nat ->
  let s' := Nat.iter k (performAnimationStep sid) s in
  maid s' = maid s
  /\ exists a',
       sessions s' !! sid = Some a'
       /\ currentStep a' = k /\ canceled a' = false
       /\ cleanupKey a' = cleanupKey a.
Proof.
  intros Ha Hc H0. induction k as [|k IH]; intros Hk s'.
  - subst s'. cbn. split; [reflexivity|]. exists a. auto.
  - destruct IH as (Hm & a1 & Ha1 & Hs1 & Hc1 & Hk1); [lia|].
    subst s'. rewrite Nat.iter_succ.
    destruct (step_keeps_tracker sid _ a1 Ha1 Hc1) as (Hm' & a2 & H2);
      [rewrite Hs1; exact Hk|].
    split; [congruence|]. exists a2.
    destruct H2 as (? & ? & ? & ?). repeat split; auto; congruence.
Qed.

Lemma Maid_Clean_items k s :
  Destroyed (maid s) = false ->
  is_Some (List.find (fun i => Nat.eqb (fst i) k) (Items (maid s))) ->
  maid (Maid_Clean k s)
  = {| Destroyed := false;
       Items := List.filter (fun i => negb (Nat.eqb (fst i) k))
                  (Items (maid s));
       RunsOnClean := RunsOnClean (maid s) |}.
Proof.
  intros Hd [[k' c] Hf]. unfold Maid_Clean. rewrite Hd, Hf. cbn zeta.
  destruct (RunsOnClean (maid s)); rewrite ?maid_run_cleanup;
    destruct s; reflexivity.
Qed.

Lemma last_step_releases sid s a items c :
  sessions s !! sid = Some a -> canceled a = false ->
  currentStep a = (totalSteps - 1)%nat ->
  cleanupKey a = Some (fresh_key items) ->
  Destroyed (maid s) = false ->
  Items (maid s) = items ++ [(fresh_key items, c)] ->
  maid (performAnimationStep sid s)
  = {| Destroyed := false; Items := items;
       RunsOnClean := RunsOnClean (maid s) |}.
Proof.
  intros Ha Hc Hs Hk Hd Hi.
  rewrite (performAnimationStep_live _ _ _ Ha Hc), Hs.
  cbn [totalSteps Nat.sub Nat.ltb Nat.leb].
  pose proof (lookup_stepped _ _ _ Ha) as Hl.
  destruct (stepped_fields sid a s) as (Fm & _).
  unfold finish. rewrite (is_canceled_hit _ _ _ Hl).
  replace (canceled _) with false by (destruct a; symmetry; exact Hc).
  destruct (completeTransition_aside (newTexture a) (newCoverArtUrl a)
              (stepped sid a s)) as (Cm & _).
  set (s2 := completeTransition _ _ _) in *.
  rewrite Hk. unfold IsDestroyed.
  assert (Hm2 : maid s2 = maid s) by congruence.
  rewrite Hm2, Hd. unfold resolve.
  destruct (with_session_fields sid (set_resolved true)
              (Maid_Clean (fresh_key items) s2)) as (-> & _).
  rewrite Maid_Clean_items; rewrite Hm2; [|exact Hd|].
  - rewrite Hi, drop_fresh_key. reflexivity.
  - rewrite Hi, find_fresh. eauto.
Qed.

(** X13. A crossfade registers exactly one canceller with the tracker when
    it starts, leaves the tracker alone during its first nine steps and
    removes the registration with the tenth: the tracker is then as it was
    before the update. *)
Theorem transition_releases_its_registration (uid : nat) (image : string)
  (hue : Q) (c : OffscreenCanvas) (s : DynamicBackground) :
  updates s !! uid = Some (AwaitingCover false image hue (Decoded c)) ->
  0 < transitionDuration s ->
  IsDestroyed (maid s) = false ->
  let sid := List.length (sessions s) in
  exists s1,
    Update_resume uid s = Some s1
    /\ Items (maid s1)
       = Items (maid s)
         ++ [(fresh_key (Items (maid s)), CleanTransition sid)]
    /\ (forall k, (k <= 9)%nat ->
          maid (Nat.iter k (performAnimationStep sid) s1) = maid s1)
    /\ maid (Nat.iter 10 (performAnimationStep sid) s1) = maid s.
Proof.
  intros Hu Hd Hm sid.
  assert (Hd' : Qle_bool (transitionDuration s) 0 = false).
  { destruct (Qle_bool (transitionDuration s) 0) eqn:E; [|reflexivity].
    apply Qle_bool_iff in E. exfalso. apply (Qlt_not_le _ _ Hd E). }
  exists (transition_resume uid image c s).
  split; [unfold Update_resume; rewrite Hu; reflexivity|].
  destruct (transition_resume_starts uid image c s Hd')
    as (key & Hss & _).
  destruct (transition_resume_owner uid image c s)
    as (_ & _ & [[_ Hs]|(a & Hs & Hc & Hk)]).
  { rewrite Hss in Hs. apply (f_equal (@List.length _)) in Hs.
    rewrite length_app in Hs. cbn in Hs. lia. }
  destruct Hk as [(Hx & _)|(_ & Hm1 & Hk)];
    [unfold IsDestroyed in Hm; congruence|].
  set (s1 := transition_resume uid image c s) in *.
  assert (Ea : a = {| newTexture :=
                        {| texture_id := nextObject s; texture_image := c |};
                      newCoverArtUrl := image;
                      stepDuration := transitionDuration s * 1000 / 10;
                      currentStep := O; canceled := false; cleanupKey := key;
                      scheduled := Some 50; resolved := false |}).
  { rewrite Hss in Hs. apply app_inj_tail in Hs as [_ Hs]. congruence. }
  assert (Hl : sessions s1 !! sid = Some a)
    by (rewrite Hs; apply list_lookup_middle; reflexivity).
  assert (H0 : currentStep a = O) by (rewrite Ea; reflexivity).
  assert (Hi : Items (maid s1)
               = Items (maid s)
                 ++ [(fresh_key (Items (maid s)), CleanTransition sid)])
    by (rewrite Hm1; reflexivity).
  split; [exact Hi|]. split.
  - intros k Hk9.
    apply (steps_keep_tracker sid s1 a k Hl Hc H0). unfold totalSteps. lia.
  - destruct (steps_keep_tracker sid s1 a 9 Hl Hc H0) as (Hm9 & a9 & H9);
      [unfold totalSteps; lia|].
    destruct H9 as (Hl9 & Hs9 & Hc9 & Hk9).
    replace 10%nat with (S 9) by reflexivity. rewrite Nat.iter_succ.
    set (s9 := Nat.iter 9 (performAnimationStep sid) s1) in *.
    assert (Hd9 : Destroyed (maid s9) = false)
      by (rewrite Hm9, Hm1; exact Hm).
    assert (Hi9 : Items (maid s9)
                  = Items (maid s)
                    ++ [(fresh_key (Items (maid s)), CleanTransition sid)])
      by (rewrite Hm9; exact Hi).
    assert (Hk9' : cleanupKey a9 = Some (fresh_key (Items (maid s))))
      by congruence.
    rewrite (last_step_releases sid s9 a9 (Items (maid s))
               (CleanTransition sid) Hl9 Hc9 Hs9 Hk9' Hd9 Hi9).
    rewrite Hm9, Hm1. unfold IsDestroyed in Hm.
    destruct (maid s) as [d items roc]. cbn in Hm. subst d. reflexivity.
Qed.

End Registration.

(** X14. When the cover of an update arrives after the tracker was
    destroyed, the update still allocates the texture and starts a session
    that nothing can cancel: its timer stays pending also across [Destroy],
    and its ten steps commit the image. *)
Theorem update_resumed_after_teardown (uid : nat) (image : string) (hue : Q)
  (c : OffscreenCanvas) (s : DynamicBackground) :
  updates s !! uid = Some (AwaitingCover false image hue (Decoded c)) ->
  0 < transitionDuration s ->
  IsDestroyed (maid s) = true ->
  let t := {| texture_id := nextObject s; texture_image := c |} in
  let sid := List.length (sessions s) in
  exists s1,
    Update_resume uid s = Some s1
    /\ maid s1 = maid s
    /\ TextureAlloc (nextObject s) ∈ log s1
    /\ timer_pending sid s1 = true
    /\ is_canceled sid s1 = false
    /\ timer_pending sid (Destroy s1) = true
    /\ is_canceled sid (Destroy s1) = false
    /\ committed t image (Nat.iter 10 (performAnimationStep sid) s1).
Proof.
  intros Hu Hd Hm t sid.
  assert (Hd' : Qle_bool (transitionDuration s) 0 = false).
  { destruct (Qle_bool (transitionDuration s) 0) eqn:E; [|reflexivity].
    apply Qle_bool_iff in E. exfalso. apply (Qlt_not_le _ _ Hd E). }
  exists (transition_resume uid image c s).
  split; [unfold Update_resume; rewrite Hu; reflexivity|].
  destruct (transition_resume_starts uid image c s Hd')
    as (key & Hss & Hreg & Htex & Hci & Hnew & Hp).
  destruct (transition_resume_owner uid image c s)
    as (_ & _ & [[_ Hs]|(a & Hs & Hc & Hk)]).
  { rewrite Hss in Hs. apply (f_equal (@List.length _)) in Hs.
    rewrite length_app in Hs. cbn in Hs. lia. }
  destruct Hk as [(_ & Hm1 & Hk)|(Hx & _)];
    [|unfold IsDestroyed in Hm; congruence].
  assert (Hlog : TextureAlloc (nextObject s)
                 ∈ log (transition_resume uid image c s)).
  { clear - Hm Hd'. open_state s. cbn in Hm. subst md.
    destruct unew, ren as [[[] ? ?]|], tex, af; norm; rewrite Hd'; norm.
    all: repeat first [apply list_elem_of_here | apply list_elem_of_further]. }
  set (s1 := transition_resume uid image c s) in *.
  assert (Hl : sessions s1 !! sid = Some
            {| newTexture := t; newCoverArtUrl := image;
               stepDuration := transitionDuration s * 1000 / 10;
               currentStep := O; canceled := false; cleanupKey := key;
               scheduled := Some 50; resolved := false |}).
  { rewrite Hss. apply list_lookup_middle. reflexivity. }
  assert (H0 : in_flight sid t image 0 s s1).
  { eexists. split; [exact Hl|].
    cbn [currentStep canceled scheduled newTexture newCoverArtUrl cleanupKey].
    unfold progress. rewrite Hp. repeat split; eauto. }
  split; [exact Hm1|]. split; [exact Hlog|].
  split; [unfold timer_pending; rewrite Hl; reflexivity|].
  split; [unfold is_canceled; rewrite Hl; reflexivity|].
  assert (Hsd : sessions (Destroy s1) = sessions s1).
  { unfold Destroy, IsDestroyed. rewrite Hm1.
    unfold IsDestroyed in Hm. rewrite Hm. apply sessions_cleanup. }
  split; [unfold timer_pending; rewrite Hsd, Hl; reflexivity|].
  split; [unfold is_canceled; rewrite Hsd, Hl; reflexivity|].
  pose proof (in_flight_iter _ _ _ _ _ H0 9) as H9.
  replace 10%nat with (S 9) by reflexivity. rewrite Nat.iter_succ.
  destruct (in_flight_last sid t image s _ (H9 ltac:(unfold totalSteps; lia)))
    as (a9 & pre & _ & _ & _ & _ & _ & _ & Hcom & _).
  exact Hcom.
Qed.

Lemma render_loop_single_frame_witness :
  exists s,
    boot show_A = Some s
    /\ (List.length (frames s) <= 1)%nat.
Proof.
  eexists. split; [vm_compute; reflexivity|].
  match goal with
  | |- (List.length (frames ?s) <= 1)%nat =>
      exact (proj1 (render_loop_single_frame s
                      (reachable_boot show_A s
                         ltac:(vm_compute; reflexivity))))
  end.
Defined.

Lemma frame_callback_renders_and_rearms_witness :
  exists s,
    boot show_A = Some s
    /\ exists s',
         step (FrameFired 1) s = Some s'
         /\ frames s' = [2%positive]
         /\ Time (uniforms (container s')) = performance_now s / 1000.
Proof.
  eexists. split; [vm_compute; reflexivity|].
  match goal with
  | |- exists s', step _ ?s = _ /\ _ =>
      destruct (frame_callback_renders_and_rearms s
                  {| contextLost := false;
                     rendererSize := Some (500, 500);
                     pixelRatio := Some 1 |} 1%positive
                  (reachable_boot show_A s ltac:(vm_compute; reflexivity))
                  ltac:(vm_compute; reflexivity)
                  ltac:(vm_compute; reflexivity)
                  ltac:(apply (bool_decide_unpack _); vm_compute; reflexivity))
        as (s' & H1 & H2 & _ & H3 & _)
  end.
  exists s'. split; [exact H1|]. split; [exact H3|].
  rewrite H2. reflexivity.
Defined.

Lemma frame_callback_stops_on_lost_context_witness :
  exists s,
    boot (show_A ++ [ContextLost]) = Some s
    /\ exists s',
         step (FrameFired 1) s = Some s'
         /\ log s' = log s /\ frames s' = [].
Proof.
  eexists. split; [vm_compute; reflexivity|].
  match goal with
  | |- exists s', step _ ?s = _ /\ _ =>
      destruct (frame_callback_stops_on_lost_context s
                  {| contextLost := true;
                     rendererSize := Some (500, 500);
                     pixelRatio := Some 1 |} 1%positive
                  (reachable_boot (show_A ++ [ContextLost]) s
                     ltac:(vm_compute; reflexivity))
                  ltac:(vm_compute; reflexivity)
                  ltac:(vm_compute; reflexivity)
                  ltac:(apply (bool_decide_unpack _); vm_compute; reflexivity))
        as (s' & H1 & H2 & _ & H3 & _)
  end.
  exists s'. auto.
Defined.

Lemma Update_pauses_render_loop_witness :
  exists s,
    boot show_A = Some s
    /\ frames s = [1%positive]
    /\ frames (Update (update_to "B") s) = []
    /\ exists l, without_render l s (Update (update_to "B") s).
Proof.
  eexists. split; [vm_compute; reflexivity|].
  split; [vm_compute; reflexivity|].
  match goal with
  | |- frames (Update _ ?s) = _ /\ _ =>
      destruct (Update_pauses_render_loop (update_to "B") s 0 Decoding
                  (reachable_boot show_A s ltac:(vm_compute; reflexivity))
                  ltac:(vm_compute; reflexivity))
        as (_ & H1 & _ & H2 & _)
  end.
  split; [exact H1 | exact H2].
Defined.

Lemma Update_without_transition_witness :
  exists s,
    boot_with no_transition (show_A ++ request_C) = Some s
    /\ exists s1 l,
         Update_resume 1 s = Some s1
         /\ sessions s1 = []
         /\ currentImage s1 = Some "C"
         /\ log s1 = l ++ log s
         /\ List.length (List.filter is_render l) = 3%nat.
Proof.
  eexists. split; [vm_compute; reflexivity|].
  match goal with
  | |- exists s1 l, Update_resume _ ?s = _ /\ _ =>
      evar (c : OffscreenCanvas);
      destruct (Update_without_transition 1 "C" 0 c s
                  ltac:(subst c; vm_compute; reflexivity)
                  ltac:(vm_compute; discriminate))
        as (s1 & l & H1 & _ & H2 & _ & H3 & _ & _ & H4 & _ & _ & H5 & _)
  end.
  exists s1, l. split; [exact H1|]. split; [exact H2|].
  split; [destruct H3 as (_ & _ & _ & _ & H3); exact H3|].
  split; [exact H4|]. rewrite H5. reflexivity.
Defined.

Lemma cover_miss_then_hit_witness :
  exists s,
    boot [] = Some s
    /\ exists c,
         canvas_width c == 260
         /\ forall s1,
              s1 = fst (getBlurredCoverArt_finish "A" 0 100 80
                          (fst (getBlurredCoverArt_start "A" 0 s))) ->
              getBlurredCoverArt_start "A" 7 s1
              = (logE (CacheLookup "A") s1, Decoded c).
Proof.
  eexists. split; [vm_compute; reflexivity|].
  match goal with
  | |- exists c, _ /\ forall s1, s1 = fst (_ (fst (_ ?s))) -> _ =>
      destruct (cover_miss_then_hit "A" 0 100 80 s
                  ltac:(vm_compute; reflexivity))
        as (_ & _ & _ & H1 & _ & _ & _ & H2)
  end.
  eexists. split; [rewrite H1; vm_compute; reflexivity|].
  intros s1 ->. apply H2.
Defined.

Lemma crossOrigin_iff_http_url_witness :
  exists s,
    boot [] = Some s
    /\ log (fst (getBlurredCoverArt_start "https://covers/1.png" 0 s))
       = [ImageDecode "https://covers/1.png" true;
          CacheLookup "https://covers/1.png"] ++ log s.
Proof.
  eexists. split; [vm_compute; reflexivity|].
  match goal with
  | |- log (fst (getBlurredCoverArt_start _ _ ?s)) = _ =>
      destruct (crossOrigin_iff_http_url "https://covers/1.png" 0 s
                  ltac:(vm_compute; reflexivity))
        as (b & H1 & H2)
  end.
  rewrite H1.
  replace b with true; [reflexivity|].
  symmetry. apply H2. exists EmptyString, "covers/1.png"%string.
  left. reflexivity.
Defined.

Lemma mount_and_resize_never_throw_witness :
  exists s,
    boot show_A = Some s
    /\ (exists s', AppendToElement 8 10 10 s = Returned s')
    /\ (exists s', on_resize 800 600 s = Returned s').
Proof.
  eexists. split; [vm_compute; reflexivity|].
  match goal with
  | |- (exists s', AppendToElement _ _ _ ?s = _) /\ _ =>
      destruct (mount_and_resize_never_throw s
                  (reachable_boot show_A s ltac:(vm_compute; reflexivity)))
        as (H1 & H2)
  end.
  split; [apply H1|].
  destruct (H2 800 600 ltac:(vm_compute; eauto)) as (s' & Hs' & _).
  exists s'. exact Hs'.
Defined.

Lemma running_sessions_cancellable_witness :
  exists s,
    boot (show_A ++ request_C ++ start_C) = Some s
    /\ timer_pending 0 s = true
    /\ cancellable s = true.
Proof.
  eexists. split; [vm_compute; reflexivity|].
  split; [vm_compute; reflexivity|].
  match goal with
  | |- cancellable ?s = true =>
      exact (running_sessions_cancellable s
               (reachable_boot (show_A ++ request_C ++ start_C) s
                  ltac:(vm_compute; reflexivity))
               ltac:(vm_compute; reflexivity))
  end.
Defined.

Lemma tracker_destroy_tears_down_witness :
  exists s,
    boot (show_A ++ request_C ++ start_C) = Some s
    /\ frames (Maid_Destroy s) = []
    /\ is_canceled 0 (Maid_Destroy s) = true.
Proof.
  eexists. split; [vm_compute; reflexivity|].
  match goal with
  | |- frames (Maid_Destroy ?s) = _ /\ _ =>
      destruct (tracker_destroy_tears_down s
                  (reachable_boot (show_A ++ request_C ++ start_C) s
                     ltac:(vm_compute; reflexivity))
                  ltac:(vm_compute; reflexivity))
        as (_ & _ & H1 & H2 & _)
  end.
  split; [exact H1|]. apply (H2 0%nat). vm_compute. reflexivity.
Defined.

Lemma transition_releases_its_registration_witness :
  exists s,
    boot (show_A ++ request_C) = Some s
    /\ exists s1,
         Update_resume 1 s = Some s1
         /\ List.length (Items (maid s1)) = S (List.length (Items (maid s)))
         /\ maid (Nat.iter 10 (performAnimationStep 0) s1) = maid s.
Proof.
  eexists. split; [vm_compute; reflexivity|].
  match goal with
  | |- exists s1, Update_resume _ ?s = _ /\ _ =>
      evar (c : OffscreenCanvas);
      destruct (transition_releases_its_registration 1 "C" 0 c s
                  ltac:(subst c; vm_compute; reflexivity)
                  ltac:(vm_compute; reflexivity)
                  ltac:(vm_compute; reflexivity))
        as (s1 & H1 & H2 & _ & H3)
  end.
  exists s1. split; [exact H1|]. split; [|exact H3].
  rewrite H2, length_app. cbn. lia.
Defined.

Lemma update_resumed_after_teardown_witness :
  exists s,
    boot (show_A ++ request_C ++ [CallDestroy]) = Some s
    /\ texture (container s) = None
    /\ exists s1,
         Update_resume 1 s = Some s1
         /\ timer_pending 0 (Destroy s1) = true
         /\ is_Some (texture (container
                                (Nat.iter 10 (performAnimationStep 0) s1))).
Proof.
  eexists. split; [vm_compute; reflexivity|].
  split; [vm_compute; reflexivity|].
  match goal with
  | |- exists s1, Update_resume _ ?s = _ /\ _ =>
      evar (c : OffscreenCanvas);
      destruct (update_resumed_after_teardown 1 "C" 0 c s
                  ltac:(subst c; vm_compute; reflexivity)
                  ltac:(vm_compute; reflexivity)
                  ltac:(vm_compute; reflexivity))
        as (s1 & H1 & _ & _ & _ & _ & H2 & _ & H3)
  end.
  exists s1. split; [exact H1|]. split; [exact H2|].
  destruct H3 as (_ & H3 & _). eexists. exact H3.
Defined.


(** * The stores: proofs *)

Section DynamicStore.
Import Stores.

Lemma includes_colon_cons a r :
  includes ":" (String a r) = false -> a <> ":"%char /\ includes ":" r = false.
Proof.
  cbn [includes String.prefix]. intros H. apply orb_false_elim in H as [H1 H2].
  split; [|exact H2]. intros ->.
  destruct (Ascii.ascii_dec ":" ":") as [_|n]; [|congruence].
  destruct r; discriminate.
Qed.

Lemma colon_split (s i s' i' : string) :
  includes ":" s = false -> includes ":" s' = false ->
  (s ++ ":" ++ i)%string = (s' ++ ":" ++ i')%string ->
  s = s' /\ i = i'.
Proof.
  revert s'. induction s as [|a r IH]; intros [|b r'] Hs Hs' E.
  - rewrite !append_Empty, !append_String, !append_Empty in E.
    injection E as ->. auto.
  - rewrite append_Empty, !append_String, append_Empty in E.
    injection E as <- _. apply includes_colon_cons in Hs' as [Hb _].
    congruence.
  - rewrite append_Empty, !append_String, append_Empty in E.
    injection E as -> _. apply includes_colon_cons in Hs as [Ha _].
    congruence.
  - rewrite !append_String in E. injection E as -> E.
    apply includes_colon_cons in Hs as [_ Hs].
    apply includes_colon_cons in Hs' as [_ Hs'].
    destruct (IH r' Hs Hs' E) as [-> ->]. auto.
Qed.

(** X15. An item of the dynamic store is read back as written, and writing
    it leaves every other item alone, as long as the store names hold no
    colon. *)
Theorem dynamic_store_items_separate
  (storeName itemName content storeName' itemName' : string) (w : World) :
  includes ":" storeName = false ->
  includes ":" storeName' = false ->
  GetDynamicStoreItem storeName' itemName'
    (SetDynamicStoreItem storeName itemName content w)
  = if bool_decide (storeName' = storeName /\ itemName' = itemName)
    then Some content
    else GetDynamicStoreItem storeName' itemName' w.
Proof.
  intros Hs Hs'. unfold GetDynamicStoreItem, SetDynamicStoreItem.
  cbn [localStorage set_localStorage].
  case_bool_decide as Hd.
  - destruct Hd as [-> ->]. apply lookup_insert_eq.
  - apply lookup_insert_ne. intros E. apply Hd.
    destruct (colon_split _ _ _ _ Hs Hs' E) as [-> ->]. auto.
Qed.

(** X16. With a colon in a store name two different items share one
    entry: what is written as item [c] of store [a:b] is read as item
    [b:c] of store [a]. *)
Theorem dynamic_store_colon_shares_entry (a b c content : string)
  (w : World) :
  GetDynamicStoreItem a (b ++ ":" ++ c)
    (SetDynamicStoreItem (a ++ ":" ++ b) c content w)
  = Some content.
Proof.
  unfold GetDynamicStoreItem, SetDynamicStoreItem.
  cbn [localStorage set_localStorage].
  replace (a ++ ":" ++ b ++ ":" ++ c)%string
    with ((a ++ ":" ++ b) ++ ":" ++ c)%string.
  - apply lookup_insert_eq.
  - induction a as [|x a IH]; [reflexivity|].
    rewrite !append_String. f_equal. exact IH.
Qed.

End DynamicStore.

Section ExpireStore.
Import Stores.
Context `{Host}.

Lemma caches_open_hit name cache (w : World) :
  caches w !! name = Some cache -> caches_open name w = (w, cache).
Proof. unfold caches_open. intros ->. reflexivity. Qed.

(** What a store reads in a cache that holds [body] for the item. *)
Lemma GetItem_cached (store : ExpireStore) itemName now cache body (w : World) :
  forceNewData store = false ->
  caches w !! storeName store = Some cache ->
  cache !! request_url ("/" ++ itemName) = Some body ->
  GetItem store itemName Works now w
  = match JSON_parse body with
    | None => (w, Throw SyntaxError)
    | Some item =>
        if negb (truthy_value (Some item)) then (w, Normal None)
        else if negb (is_number (property item "CacheVersion")
                        (version store))
        then (w, Normal None)
        else match less_than (property item "ExpiresAt") now with
             | Some true => (w, Normal None)
             | Some false => (w, Normal (property item "Content"))
             | None => (w, Beyond)
             end
    end.
Proof.
  intros Hf Hc Hb. unfold GetItem, GetFromCacheAPI. rewrite Hf.
  rewrite (caches_open_hit _ _ _ Hc), Hb.
  destruct (JSON_parse body); reflexivity.
Qed.

Lemma SetItem_caches (store : ExpireStore) itemName content now (w : World) :
  let w1 := fst (SetItem store itemName content Works now w) in
  exists cache,
    caches w1 !! storeName store = Some cache
    /\ cache !! request_url ("/" ++ itemName)
       = Some (JSON_stringify
                 (ExpireItem (expireAt (itemExpirationSettings store) now)
                    (version store) content))
    /\ (forall url, url <> request_url ("/" ++ itemName) ->
          cache !! url = (caches w !! storeName store) ≫= (.!! url))
    /\ (forall name, name <> storeName store ->
          caches w1 !! name = caches w !! name)
    /\ localStorage w1 = localStorage w
    /\ console w1 = console w.
Proof.
  unfold SetItem, UpdateCacheAPI, caches_open. cbn [fst].
  destruct (caches w !! storeName store) as [cache|] eqn:E.
  - eexists. cbn [caches set_caches localStorage console].
    split; [apply lookup_insert_eq|]. split; [apply lookup_insert_eq|].
    split; [intros url Hu; rewrite lookup_insert_ne by congruence; reflexivity|].
    split; [intros name Hn; rewrite lookup_insert_ne by congruence; reflexivity|].
    split; reflexivity.
  - eexists. cbn [caches set_caches localStorage console].
    split; [apply lookup_insert_eq|]. split; [apply lookup_insert_eq|].
    split; [intros url Hu; rewrite lookup_insert_ne by congruence;
            apply lookup_empty|].
    split; [intros name Hn; rewrite !lookup_insert_ne by congruence;
            reflexivity|].
    split; reflexivity.
Qed.

(** What [GetItem] answers depends on the world through the cached body of
    the item only. *)
Lemma GetItem_depends (reader : ExpireStore) (item : string) (later : Z) :
  exists F,
    forall w : World,
      snd (GetItem reader item Works later w)
      = F ((caches w !! storeName reader)
             ≫= (.!! request_url ("/" ++ item))).
Proof.
  exists (fun body =>
            if forceNewData reader then Normal None
            else
              match body with
              | None => Normal None
              | Some b =>
                  match JSON_parse b with
                  | None => Throw SyntaxError
                  | Some v =>
                      if negb (truthy_value (Some v)) then Normal None
                      else if negb (is_number (property v "CacheVersion")
                                      (version reader))
                      then Normal None
                      else match less_than (property v "ExpiresAt") later with
                           | Some true => Normal None
                           | Some false => Normal (property v "Content")
                           | None => Beyond
                           end
                  end
              end).
  intros w. unfold GetItem. destruct (forceNewData reader); [reflexivity|].
  unfold GetFromCacheAPI, caches_open.
  destruct (caches w !! storeName reader) as [c|]; cbn [mbind option_bind].
  - destruct (c !! request_url ("/" ++ item)) as [b|]; [|reflexivity].
    destruct (JSON_parse b) as [v|]; [|reflexivity].
    destruct (negb (truthy_value (Some v))); [reflexivity|].
    destruct (negb (is_number _ _)); [reflexivity|].
    destruct (less_than _ _) as [[]|]; reflexivity.
  - rewrite lookup_empty. reflexivity.
Qed.

Lemma is_number_refl (n : Q) : is_number (Some (JsonNumber n)) n = true.
Proof. cbn. apply Qeq_bool_iff. reflexivity. Qed.

(** X17. [SetItem] resolves to the content it was given, and a later
    [GetItem] of the same store gives that content back as long as the
    clock has not passed the expiry time, and [undefined] afterwards
    (the host's JSON reading back the item it wrote). *)
Theorem expire_store_round_trip (store : ExpireStore) (itemName : string)
  (content : Json) (now later : Z) (w : World) :
  forceNewData store = false ->
  let expires := expireAt (itemExpirationSettings store) now in
  (let item := ExpireItem expires (version store) content in
   JSON_parse (JSON_stringify item) = Some item) ->
  let '(w1, resolved) := SetItem store itemName content Works now w in
  resolved = content
  /\ GetItem store itemName Works later w1
     = (w1, Normal (if (match expires with Some t => t | None => 0 end
                        <? later)%Z
                    then None else Some content)).
Proof.
  intros Hf expires Hround.
  destruct (SetItem store itemName content Works now w) as [w1 r] eqn:E.
  assert (Hr : r = content) by (unfold SetItem in E; congruence).
  split; [exact Hr|].
  destruct (SetItem_caches store itemName content now w)
    as (cache & Hc & Hb & _). rewrite E in Hc. cbn [fst] in Hc.
  fold expires in Hb.
  rewrite (GetItem_cached store itemName later cache _ w1 Hf Hc Hb).
  cbn zeta in Hround. rewrite Hround.
  unfold ExpireItem. cbn [truthy_value negb property own String.eqb
                          Ascii.eqb Bool.eqb].
  rewrite is_number_refl. cbn [negb].
  destruct expires as [t|]; cbn [less_than].
  - replace (Qle_bool (inject_Z later) (inject_Z t)) with (later <=? t)%Z.
    + destruct (Z.ltb_spec t later), (Z.leb_spec later t);
        try lia; reflexivity.
    + unfold Qle_bool. cbn. rewrite !Z.mul_1_r. reflexivity.
  - destruct (0 <? later)%Z; reflexivity.
Qed.

(** X18. An item written under one version of a cache is not read by a
    store of another version: [GetItem] resolves to [undefined]. *)
Theorem expire_store_other_version (store reader : ExpireStore)
  (itemName : string) (content : Json) (now later : Z) (w : World) :
  forceNewData reader = false ->
  storeName reader = storeName store ->
  ~ version store == version reader ->
  (let item := ExpireItem (expireAt (itemExpirationSettings store) now)
                 (version store) content in
   JSON_parse (JSON_stringify item) = Some item) ->
  let w1 := fst (SetItem store itemName content Works now w) in
  GetItem reader itemName Works later w1 = (w1, Normal None).
Proof.
  intros Hf Hn Hv Hround w1.
  destruct (SetItem_caches store itemName content now w)
    as (cache & Hc & Hb & _). fold w1 in Hc. rewrite <- Hn in Hc.
  rewrite (GetItem_cached reader itemName later cache _ w1 Hf Hc Hb).
  cbn zeta in Hround. rewrite Hround.
  unfold ExpireItem. cbn [truthy_value negb property own String.eqb
                          Ascii.eqb Bool.eqb is_number].
  destruct (Qeq_bool (version store) (version reader)) eqn:E; [|reflexivity].
  apply Qeq_bool_iff in E. contradiction.
Qed.

(** X19. When the Cache API refuses, [SetItem] still resolves to the
    content: the failure is reported on the console only (a warning, then
    the error), [localStorage] and the cached items are as before, and so
    is every later [GetItem]. *)
Theorem expire_store_failed_write (store : ExpireStore) (itemName : string)
  (content : Json) (fault : Fault) (now : Z) (w : World) :
  fault <> Works ->
  let '(w1, resolved) := SetItem store itemName content fault now w in
  resolved = content
  /\ console w1
     = console w
       ++ [Warn ("Failed to Update Cache API (" ++ storeName store ++ "/"
                 ++ itemName ++ ")");
           LogError HostError]
  /\ localStorage w1 = localStorage w
  /\ (forall name url,
        (caches w1 !! name) ≫= (.!! url) = (caches w !! name) ≫= (.!! url))
  /\ forall reader item later,
       snd (GetItem reader item Works later w1)
       = snd (GetItem reader item Works later w).
Proof.
  intros Hfault.
  destruct (SetItem store itemName content fault now w) as [w1 r] eqn:E.
  unfold SetItem in E. injection E as E <-. split; [reflexivity|].
  assert (Hw : console w1
               = console w
                 ++ [Warn ("Failed to Update Cache API (" ++ storeName store
                           ++ "/" ++ itemName ++ ")");
                     LogError HostError]
               /\ localStorage w1 = localStorage w
               /\ forall name url,
                    (caches w1 !! name) ≫= (.!! url)
                    = (caches w !! name) ≫= (.!! url)).
  { subst w1. unfold UpdateCacheAPI, caches_open.
    destruct fault; [congruence| |].
    - repeat split; reflexivity.
    - destruct (caches w !! storeName store) as [cache|] eqn:Ec;
        cbn [console set_console set_caches caches localStorage];
        (split; [reflexivity|]); (split; [reflexivity|]); [reflexivity|].
      intros name url. destruct (decide (name = storeName store)) as [->|Hn].
      + rewrite lookup_insert_eq, Ec. cbn. apply lookup_empty.
      + rewrite lookup_insert_ne by congruence. reflexivity. }
  destruct Hw as (Hc & Hl & Hcache). split; [exact Hc|]. split; [exact Hl|].
  split; [exact Hcache|].
  intros reader item later.
  destruct (GetItem_depends reader item later) as [F HF].
  rewrite !HF, Hcache. reflexivity.
Qed.

Lemma Qfloor_Z_in_range (z : Z) :
  (Z.abs z <= 8640000000000000)%Z -> TimeClip (inject_Z z) = Some z.
Proof.
  intros Hz. unfold TimeClip.
  assert (E : Qle_bool (Qabs (inject_Z z)) 8640000000000000 = true).
  { apply Qle_bool_iff. unfold Qabs, inject_Z, Qle. cbn. lia. }
  rewrite E. destruct (Qle_bool 0 (inject_Z z));
    [rewrite Qfloor_Z|rewrite Qceiling_Z]; reflexivity.
Qed.

Lemma Qle_bool_wd (a b c d : Q) :
  a == b -> c == d -> Qle_bool a c = Qle_bool b d.
Proof.
  intros E1 E2. destruct (Qle_bool b d) eqn:E.
  - apply Qle_bool_iff. apply Qle_bool_iff in E. rewrite E1, E2. exact E.
  - destruct (Qle_bool a c) eqn:E'; [|reflexivity].
    apply Qle_bool_iff in E'. rewrite E1, E2 in E'.
    apply Qle_bool_iff in E'. congruence.
Qed.

Lemma TimeClip_wd (a b : Q) : a == b -> TimeClip a = TimeClip b.
Proof.
  intros E. unfold TimeClip.
  rewrite (Qle_bool_wd (Qabs a) (Qabs b) _ _ (Qabs_wd _ _ E) (Qeq_refl _)).
  rewrite (Qle_bool_wd 0 0 a b (Qeq_refl _) E).
  rewrite (Qfloor_comp _ _ E), (Qceiling_comp _ _ E). reflexivity.
Qed.

(** X20. For a whole number of hours, minutes or seconds the expiry time
    is the clock plus the duration, in milliseconds, within the range of
    [Date]. *)
Theorem expire_after_whole_duration (n now : Z) :
  (Z.abs now + Z.abs n * 3600000 <= 8640000000000000)%Z ->
  expireAt {| Duration := inject_Z n; Unit := Hours |} now
  = Some (now + n * 3600000)%Z
  /\ expireAt {| Duration := inject_Z n; Unit := Minutes |} now
     = Some (now + n * 60000)%Z
  /\ expireAt {| Duration := inject_Z n; Unit := Seconds |} now
     = Some (now + n * 1000)%Z.
Proof.
  intros Hr. unfold expireAt. cbn [Unit Duration].
  repeat split.
  all: match goal with
       | |- _ = Some ?t => rewrite <- (Qfloor_Z_in_range t) by lia
       end; apply TimeClip_wd.
  all: rewrite !inject_Z_plus, !inject_Z_mult; ring.
Qed.

End ExpireStore.

Section Registries.
Import Stores.
Context `{Host}.

(** X21. A store name is retrieved once: [GetInstantStore] (and
    [GetExpireStore]) registers the name, whatever else it does, leaves the
    other registry and the stored data alone, and every later call for the
    name throws. *)
Theorem stores_retrieved_once (name : string) (w : World) :
  (forall version template force,
     let w1 := fst (GetInstantStore name version template force w) in
     name ∈ RetrievedInstantStores w1
     /\ RetrievedExpireStores w1 = RetrievedExpireStores w
     /\ localStorage w1 = localStorage w
     /\ forall version' template' force',
          GetInstantStore name version' template' force' w1
          = (w1, Throw (Error ("Can't retrieve InstantStore (" ++ name
                               ++ ") twice."))))
  /\ (forall version settings force,
        let w1 := fst (GetExpireStore name version settings force w) in
        name ∈ RetrievedExpireStores w1
        /\ RetrievedInstantStores w1 = RetrievedInstantStores w
        /\ caches w1 = caches w
        /\ forall version' settings' force',
             GetExpireStore name version' settings' force' w1
             = (w1, Throw (Error ("Can't retrieve ExpireStore (" ++ name
                                  ++ ") twice.")))).
Proof.
  split.
  - intros version template force w1.
    assert (Hw : name ∈ RetrievedInstantStores w1
                 /\ RetrievedExpireStores w1 = RetrievedExpireStores w
                 /\ localStorage w1 = localStorage w).
    { subst w1. unfold GetInstantStore.
      case_bool_decide as Hin; [cbn; auto|].
      destruct force; [cbn; split; [set_solver|auto]|].
      cbn [localStorage set_RetrievedInstantStores].
      destruct (localStorage w !! name) as [doc|];
        [|cbn; split; [set_solver|auto]].
      destruct (JSON_parse doc) as [[]|];
        try (cbn; split; [set_solver|auto]).
      all: destruct (is_number _ _); cbn; (split; [set_solver|auto]). }
    destruct Hw as (Hin & He & Hl). repeat split; try assumption.
    intros version' template' force'. unfold GetInstantStore.
    rewrite bool_decide_eq_true_2 by exact Hin. reflexivity.
  - intros version settings force w1.
    assert (Hw : name ∈ RetrievedExpireStores w1
                 /\ RetrievedInstantStores w1 = RetrievedInstantStores w
                 /\ caches w1 = caches w).
    { subst w1. unfold GetExpireStore.
      case_bool_decide as Hin; cbn; [auto|]. split; [set_solver|auto]. }
    destruct Hw as (Hin & He & Hl). repeat split; try assumption.
    intros version' settings' force'. unfold GetExpireStore.
    rewrite bool_decide_eq_true_2 by exact Hin. reflexivity.
Qed.

(** X22. When the fresh data is forced, nothing is stored under the name,
    or the stored document has another version, [GetInstantStore] returns a
    store of the given version whose items are a copy of the template, and
    writes nothing. *)
Theorem instant_store_starts_from_template (name : string) (version : Q)
  (template : list (string * Json)) (force : bool) (w : World) :
  name ∉ RetrievedInstantStores w ->
  force = true
  \/ localStorage w !! name = None
  \/ (exists doc parsed,
        localStorage w !! name = Some doc
        /\ JSON_parse doc = Some parsed
        /\ parsed <> JsonNull
        /\ is_number (property parsed "Version") version = false) ->
  exists w1 store,
    GetInstantStore name version template force w = (w1, Normal store)
    /\ store = JsonObject [("Version", JsonNumber version);
                           ("Items", JsonObject template)]
    /\ Items store = Some (JsonObject template)
    /\ localStorage w1 = localStorage w.
Proof.
  intros Hnew Hcase. unfold GetInstantStore.
  rewrite bool_decide_eq_false_2 by exact Hnew.
  destruct force.
  { eexists _, _. split; [reflexivity|]. repeat split; reflexivity. }
  destruct Hcase as [[=]|[Hnone|(doc & parsed & Hdoc & Hparse & Hnn & Hv)]].
  - cbn [localStorage set_RetrievedInstantStores]. rewrite Hnone.
    eexists _, _. split; [reflexivity|]. repeat split; reflexivity.
  - cbn [localStorage set_RetrievedInstantStores]. rewrite Hdoc, Hparse, Hv.
    destruct parsed; try congruence;
      eexists _, _; (split; [reflexivity|]); repeat split; reflexivity.
Qed.

End Registries.

Section Merge.
Import Stores.

(** *** Reading and writing one object *)

Lemma own_replace_own key key' v fields :
  own key' (replace_own key v fields)
  = if String.eqb key key'
    then match own key fields with Some _ => Some v | None => None end
    else own key' fields.
Proof.
  induction fields as [|[k x] rest IH]; cbn [replace_own own].
  - destruct (String.eqb key key'); reflexivity.
  - destruct (String.eqb k key) eqn:Ek; cbn [own].
    + apply String.eqb_eq in Ek. subst k.
      destruct (String.eqb key key'); reflexivity.
    + destruct (String.eqb k key') eqn:Ek'.
      * apply String.eqb_eq in Ek'. subst k.
        rewrite String.eqb_sym, Ek. reflexivity.
      * exact IH.
Qed.

Lemma replace_own_same key v fields :
  own key fields = Some v -> replace_own key v fields = fields.
Proof.
  induction fields as [|[k x] rest IH]; cbn [replace_own own]; [reflexivity|].
  destruct (String.eqb k key); [intros [= ->]; reflexivity|].
  intros Ho. rewrite (IH Ho). reflexivity.
Qed.

Lemma replace_own_twice key v v' fields :
  replace_own key v' (replace_own key v fields) = replace_own key v' fields.
Proof.
  induction fields as [|[k x] rest IH]; cbn [replace_own]; [reflexivity|].
  destruct (String.eqb k key) eqn:Ek; cbn [replace_own]; rewrite Ek;
    [reflexivity|]. rewrite IH. reflexivity.
Qed.

Lemma own_define key key' v fields :
  own key fields = None ->
  own key' (define key v fields)
  = match own key' fields with
    | Some x => Some x
    | None => if String.eqb key key' then Some v else None
    end.
Proof.
  assert (Happ : forall l,
            own key' (l ++ [(key, v)])
            = match own key' l with
              | Some x => Some x
              | None => if String.eqb key key' then Some v else None
              end).
  { induction l as [|[k x] rest IH]; cbn [own app]; [reflexivity|].
    destruct (String.eqb k key'); [reflexivity|exact IH]. }
  induction fields as [|[k x] rest IH]; cbn [define]; intros Hnew.
  - destruct (array_index key); cbn [own app]; reflexivity.
  - cbn [own] in Hnew. destruct (String.eqb k key) eqn:Ek; [discriminate|].
    destruct (array_index key) as [i|]; [|apply Happ].
    assert (Hhere :
              own key' ((key, v) :: (k, x) :: rest)
              = match own key' ((k, x) :: rest) with
                | Some x => Some x
                | None => if String.eqb key key' then Some v else None
                end).
    { cbn [own]. destruct (String.eqb key key') eqn:E.
      - apply String.eqb_eq in E. subst key'. rewrite Ek, Hnew. reflexivity.
      - destruct (String.eqb k key'); [reflexivity|].
        destruct (own key' rest); reflexivity. }
    destruct (array_index k) as [j|]; [|exact Hhere].
    destruct (j <? i)%nat; [|exact Hhere].
    cbn [own]. destruct (String.eqb k key'); [reflexivity|exact (IH Hnew)].
Qed.


Lemma element_index_spec n key i :
  element_index n key = Some i -> pretty i = key /\ (i <= n)%nat.
Proof.
  unfold element_index. intros Hf. apply find_some in Hf as [Hin He].
  apply String.eqb_eq in He. apply in_seq in Hin. split; [exact He|lia].
Qed.

Lemma element_index_pretty n i :
  (i <= n)%nat -> element_index n (pretty i) = Some i.
Proof.
  intros Hi. unfold element_index.
  destruct (List.find _ _) as [j|] eqn:E.
  - apply find_some in E as [_ He]. apply String.eqb_eq in He.
    apply (inj pretty) in He. congruence.
  - pose proof (find_none _ _ E i) as Hn. cbn beta in Hn.
    rewrite String.eqb_refl in Hn.
    assert (Hin : In i (seq 0 (S n))) by (apply in_seq; lia).
    specialize (Hn Hin). discriminate.
Qed.

Lemma element_index_mono n m key i :
  element_index n key = Some i -> (n <= m)%nat ->
  element_index m key = Some i.
Proof.
  intros Hf Hm. apply element_index_spec in Hf as [<- Hi].
  apply element_index_pretty. lia.
Qed.

Lemma read_replace key v v' obj :
  read (Some obj) key = Has v -> read (Some (replace obj key v')) key = Has v'.
Proof.
  destruct obj as [| | | |items|fields]; cbn [read replace]; try discriminate.
  - destruct (element_index (List.length items) key) as [i|] eqn:Ei;
      [|discriminate].
    destruct (items !! i) as [x|] eqn:Ex; [|discriminate]. intros _.
    cbn [read]. rewrite length_insert, Ei.
    rewrite list_lookup_insert_eq by (eapply lookup_lt_Some; eauto).
    reflexivity.
  - destruct (own key fields) as [x|] eqn:Eo;
      [|destruct (bool_decide _); discriminate].
    intros _. rewrite own_replace_own, String.eqb_refl, Eo. reflexivity.
Qed.

Lemma read_replace_ne key key' v' obj :
  key' <> key ->
  read (Some (replace obj key v')) key' = read (Some obj) key'.
Proof.
  intros Hne.
  destruct obj as [| | | |items|fields]; cbn [read replace]; try reflexivity.
  - destruct (element_index (List.length items) key) as [i|] eqn:Ei;
      [|reflexivity].
    cbn [read]. rewrite length_insert.
    destruct (element_index (List.length items) key') as [j|] eqn:Ej;
      [|reflexivity].
    rewrite list_lookup_insert_ne; [reflexivity|].
    apply element_index_spec in Ei as [Hi _].
    apply element_index_spec in Ej as [Hj _]. congruence.
  - rewrite own_replace_own.
    destruct (String.eqb key key') eqn:E; [|reflexivity].
    apply String.eqb_eq in E. congruence.
Qed.

Lemma replace_same key v obj :
  read (Some obj) key = Has v -> replace obj key v = obj.
Proof.
  destruct obj as [| | | |items|fields]; cbn [read replace]; try discriminate.
  - destruct (element_index (List.length items) key) as [i|] eqn:Ei;
      [|discriminate].
    destruct (items !! i) as [x|] eqn:Ex; [|discriminate]. intros [= ->].
    rewrite list_insert_id by exact Ex. reflexivity.
  - destruct (own key fields) as [x|] eqn:Eo;
      [|destruct (bool_decide _); discriminate].
    intros [= ->]. rewrite replace_own_same by exact Eo. reflexivity.
Qed.

Lemma replace_twice key v v' obj :
  replace (replace obj key v) key v' = replace obj key v'.
Proof.
  destruct obj as [| | | |items|fields]; cbn [replace]; try reflexivity.
  - destruct (element_index (List.length items) key) as [i|] eqn:Ei;
      cbn [replace]; [|rewrite Ei; reflexivity].
    rewrite length_insert, Ei, list_insert_insert_eq. reflexivity.
  - rewrite replace_own_twice. reflexivity.
Qed.

Lemma read_write key v obj obj' :
  read (Some obj) key = Missing -> write obj key v = Some obj' ->
  read (Some obj') key = Has v
  /\ (forall key' x, read (Some obj) key' = Has x ->
        read (Some obj') key' = Has x)
  /\ (forall key' x, key' <> key -> read (Some obj') key' = Has x ->
        read (Some obj) key' = Has x).
Proof.
  destruct obj as [| | | |items|fields]; cbn [read write]; try discriminate.
  - destruct (element_index (List.length items) key) as [i|] eqn:Ei;
      [|discriminate].
    destruct (items !! i) as [x|] eqn:Ex; [discriminate|]. intros _.
    destruct (Nat.eqb_spec i (List.length items)) as [->|Hne];
      [|discriminate].
    intros [= <-]. cbn [read]. rewrite length_app. cbn [List.length].
    split; [|split].
    + rewrite (element_index_mono _ _ _ _ Ei) by lia.
      rewrite lookup_app_r by lia. rewrite Nat.sub_diag. reflexivity.
    + intros key' y.
      destruct (element_index (List.length items) key') as [j|] eqn:Ej;
        [|discriminate].
      destruct (items !! j) as [z|] eqn:Ez; [|discriminate]. intros [= ->].
      rewrite (element_index_mono _ _ _ _ Ej) by lia.
      rewrite lookup_app_l by (eapply lookup_lt_Some; eauto).
      rewrite Ez. reflexivity.
    + intros key' y Hne.
      destruct (element_index (List.length items + 1) key') as [j|] eqn:Ej;
        [|discriminate].
      destruct ((items ++ [v]) !! j) as [z|] eqn:Ez; [|discriminate].
      intros [= ->].
      apply element_index_spec in Ej as [Hj Hle].
      apply element_index_spec in Ei as [Hi _].
      assert (j <> List.length items) by congruence.
      assert (Hlt : (j < List.length items)%nat).
      { apply lookup_lt_Some in Ez. rewrite length_app in Ez. cbn in Ez.
        lia. }
      rewrite lookup_app_l in Ez by exact Hlt.
      rewrite <- Hj, element_index_pretty by lia. rewrite Ez. reflexivity.
  - destruct (own key fields) as [x|] eqn:Eo; [discriminate|].
    intros _ [= <-]. cbn [read].
    split; [|split].
    + rewrite own_define, Eo, String.eqb_refl by exact Eo. reflexivity.
    + intros key' y. destruct (own key' fields) as [z|] eqn:Ez;
        [|destruct (bool_decide _); discriminate].
      intros [= ->]. rewrite own_define, Ez by exact Eo. reflexivity.
    + intros key' y Hne. rewrite own_define by exact Eo.
      destruct (own key' fields) as [z|] eqn:Ez; [auto|].
      destruct (String.eqb key key') eqn:E.
      * apply String.eqb_eq in E. congruence.
      * destruct (bool_decide _); discriminate.
Qed.

Lemma typeof_replace obj key v : typeof (replace obj key v) = typeof obj.
Proof.
  destruct obj; cbn [replace]; try reflexivity.
  destruct (element_index _ _); reflexivity.
Qed.

Lemma typeof_write obj key v obj' :
  write obj key v = Some obj' -> typeof obj' = typeof obj.
Proof.
  destruct obj; cbn [write]; try discriminate.
  - destruct (element_index _ _); [|discriminate].
    destruct (_ =? _)%nat; [|discriminate]. intros [= <-]. reflexivity.
  - intros [= <-]. reflexivity.
Qed.


(** *** Paths *)

Lemma follow_None p : follow None p = None.
Proof. destruct p; reflexivity. Qed.

Lemma follow_app root p key :
  follow root (p ++ [key])
  = match follow root p with
    | Some obj => match read (Some obj) key with
                  | Has v => Some v
                  | _ => None
                  end
    | None => None
    end.
Proof.
  revert root. induction p as [|k p IH]; intros root; cbn [follow app].
  - destruct root as [obj|]; [|reflexivity].
    destruct (read (Some obj) key); reflexivity.
  - destruct (read root k); try reflexivity. apply IH.
Qed.

Lemma change_at_end root p obj f :
  follow (Some root) p = Some obj ->
  change root p f = change root p (fun _ => f obj).
Proof.
  revert root. induction p as [|k p IH]; intros root; cbn [follow change].
  - intros [= ->]. reflexivity.
  - destruct (read (Some root) k) as [v| | |]; try discriminate.
    intros Hf. rewrite (IH v Hf). reflexivity.
Qed.

Lemma change_follow root p obj obj' :
  follow (Some root) p = Some obj ->
  exists root',
    change root p (fun _ => Some obj') = Some root'
    /\ follow (Some root') p = Some obj'.
Proof.
  revert root. induction p as [|k p IH]; intros root; cbn [follow change].
  - intros _. eauto.
  - destruct (read (Some root) k) as [v| | |] eqn:Er; try discriminate.
    intros Hf. destruct (IH v Hf) as (v' & Hc & Hf'). rewrite Hc.
    eexists. split; [reflexivity|].
    cbn [follow]. rewrite (read_replace _ _ _ _ Er). exact Hf'.
Qed.

Lemma change_fails root p obj f :
  follow (Some root) p = Some obj -> f obj = None -> change root p f = None.
Proof.
  revert root. induction p as [|k p IH]; intros root; cbn [follow change].
  - intros [= ->]. auto.
  - destruct (read (Some root) k) as [v| | |]; try discriminate.
    intros Hf Hn. rewrite (IH v Hf Hn). reflexivity.
Qed.

Lemma change_twice root p obj1 root1 g :
  change root p (fun _ => Some obj1) = Some root1 ->
  change root1 p g = change root p (fun _ => g obj1).
Proof.
  revert root root1. induction p as [|k p IH]; intros root root1;
    cbn [change].
  - intros [= <-]. reflexivity.
  - destruct (read (Some root) k) as [v| | |] eqn:Er; try discriminate.
    destruct (change v p (fun _ => Some obj1)) as [v1|] eqn:Ec;
      [|discriminate].
    intros [= <-]. rewrite (read_replace _ _ _ _ Er).
    rewrite (IH v v1 Ec).
    destruct (change v p (fun _ => g obj1)); [|reflexivity].
    rewrite replace_twice. reflexivity.
Qed.

Lemma change_app root p key g :
  change root (p ++ [key]) g
  = change root p
      (fun o => match read (Some o) key with
                | Has v => match g v with
                           | Some v' => Some (replace o key v')
                           | None => None
                           end
                | _ => None
                end).
Proof.
  revert root. induction p as [|k p IH]; intros root; cbn [change app].
  - reflexivity.
  - destruct (read (Some root) k) as [v| | |]; try reflexivity.
    rewrite IH. reflexivity.
Qed.

(** *** One pass of the loop *)

Lemma for_in_visit todo c root obj later stack :
  follow (Some root) (checkObj c) = Some obj ->
  let mk := fun kw : string * Json =>
              {| checkObj := checkObj c ++ [fst kw]; defaultObj := snd kw;
                 path := (path c ++ "." ++ fst kw)%string |} in
  match visit todo (path c) obj later with
  | Normal (obj', later') =>
      exists root',
        change root (checkObj c) (fun _ => Some obj') = Some root'
        /\ follow (Some root') (checkObj c) = Some obj'
        /\ for_in todo c (Some root) (map mk later ++ stack)
           = Normal (Some root', map mk later' ++ stack)
  | Throw e => for_in todo c (Some root) (map mk later ++ stack) = Throw e
  | Beyond => for_in todo c (Some root) (map mk later ++ stack) = Beyond
  end.
Proof.
  intros Hf mk. revert root obj later Hf.
  induction todo as [|[key want] todo IH]; intros root obj later Hf.
  - cbn [visit for_in]. destruct (change_follow root _ obj obj Hf)
      as (root' & Hc & Hf').
    exists root'. split; [exact Hc|]. split; [exact Hf'|].
    assert (root' = root); [|congruence].
    clear - Hf Hc. revert root root' Hf Hc.
    induction (checkObj c) as [|k p IHp]; intros root root';
      cbn [follow change].
    + intros [= ->] [= ->]. reflexivity.
    + destruct (read (Some root) k) as [v| | |] eqn:Er; try discriminate.
      intros Hf. destruct (change v p (fun _ => Some obj)) as [v'|] eqn:Ec;
        [|discriminate].
      intros [= <-]. rewrite (IHp v v' Hf Ec).
      apply replace_same. exact Er.
  - cbn [visit for_in]. rewrite Hf.
    destruct (read (Some obj) key) as [have| | |] eqn:Er; try reflexivity.
    + destruct (String.eqb (typeof have) "object"
                && String.eqb (typeof want) "object").
      * apply (IH root obj ((key, want) :: later) Hf).
      * destruct (negb (String.eqb (typeof have) (typeof want)));
          [reflexivity|]. apply (IH root obj later Hf).
    + destruct (write obj key want) as [obj1|] eqn:Ew.
      * rewrite (change_at_end root _ obj _ Hf), Ew.
        destruct (change_follow root _ obj obj1 Hf) as (root1 & Hc1 & Hf1).
        rewrite Hc1.
        specialize (IH root1 obj1 later Hf1).
        destruct (visit todo (path c) obj1 later) as [[obj' later']| |];
          [|exact IH|exact IH].
        destruct IH as (root' & Hc & Hf' & Hfor).
        exists root'. split; [|split; assumption].
        rewrite <- Hc. symmetry. apply (change_twice _ _ _ _ _ Hc1).
      * rewrite (change_fails root _ obj _ Hf Ew). reflexivity.
Qed.


(** *** The loop and the recursion *)

Lemma merge_loop_more fuel fuel' stack items r :
  merge_loop fuel stack items = r -> r <> OutOfFuel -> (fuel <= fuel')%nat ->
  merge_loop fuel' stack items = r.
Proof.
  revert fuel' stack items. induction fuel as [|fuel IH];
    intros fuel' stack items Hr Hne Hle.
  - cbn in Hr. congruence.
  - destruct fuel' as [|fuel']; [lia|]. cbn [merge_loop] in *.
    destruct stack as [|c rest]; [exact Hr|].
    destruct (for_in _ _ _ _) as [[items' stack']| |]; try exact Hr.
    apply IH; [exact Hr|exact Hne|lia].
Qed.

(** The sizes of the parts of the template a list of properties holds. *)
Lemma size_positive v : (1 <= size v)%nat.
Proof. destruct v; cbn; lia. Qed.

Lemma size_imap (f : nat -> Json -> string * Json) (items : list Json) :
  (forall i x, snd (f i x) = x) ->
  map (fun kv => size (snd kv)) (imap f items) = map size items.
Proof.
  revert f. induction items as [|x items IH]; intros f Hf; [reflexivity|].
  cbn [imap map]. rewrite Hf. f_equal. apply IH. intros i y. apply Hf.
Qed.

Lemma size_entries want :
  size want = S (list_sum (map (fun kv => size (snd kv)) (entries want)))
  \/ entries want = [].
Proof.
  destruct want as [| | | |items|fields]; cbn [entries]; auto.
  left. cbn [size]. rewrite size_imap by reflexivity. reflexivity.
Qed.

Lemma visit_later todo ps obj later obj' later' :
  visit todo ps obj later = Normal (obj', later') ->
  (list_sum (map (fun kv => size (snd kv)) later')
   <= list_sum (map (fun kv => size (snd kv)) later)
      + list_sum (map (fun kv => size (snd kv)) todo))%nat
  /\ ((forall kw, kw ∈ later -> exists h, read (Some obj) (fst kw) = Has h) ->
      forall kw, kw ∈ later' -> exists h, read (Some obj') (fst kw) = Has h)
  /\ (forall key x, read (Some obj) key = Has x -> read (Some obj') key = Has x)
  /\ typeof obj' = typeof obj.
Proof.
  revert obj later. induction todo as [|[key want] todo IH];
    intros obj later; cbn [visit].
  - intros [= <- <-]. split; [simpl; lia|]. auto.
  - destruct (read (Some obj) key) as [have| | |] eqn:Er; try discriminate.
    + destruct (String.eqb (typeof have) "object"
                && String.eqb (typeof want) "object").
      * intros Hv. destruct (IH _ _ Hv) as (H1 & H2 & H3 & H4).
        split; [simpl in H1 |- *; lia|]. split; [|auto].
        intros Hl. apply H2. intros kw Hin.
        apply elem_of_cons in Hin as [->|Hin]; [cbn; eauto|auto].
      * destruct (negb (String.eqb (typeof have) (typeof want)));
          [discriminate|].
        intros Hv. destruct (IH _ _ Hv) as (H1 & H2 & H3 & H4).
        split; [simpl in H1 |- *; lia|]. auto.
    + destruct (write obj key want) as [obj1|] eqn:Ew; [|discriminate].
      intros Hv. destruct (IH _ _ Hv) as (H1 & H2 & H3 & H4).
      destruct (read_write _ _ _ _ Er Ew) as (W1 & W2 & W3).
      split; [simpl in H1 |- *; lia|]. split; [|split].
      * intros Hl. apply H2. intros kw Hin.
        destruct (Hl kw Hin) as [h Hh]. eauto.
      * intros k x Hx. apply H3, W2, Hx.
      * rewrite H4. eapply typeof_write; eauto.
Qed.

Lemma list_sum_cons (a : nat) (l : list nat) :
  list_sum (a :: l) = (a + list_sum l)%nat.
Proof. reflexivity. Qed.

Lemma merge_loop_descend d (c : Check) stack :
  let mk := fun kw : string * Json =>
              {| checkObj := checkObj c ++ [fst kw]; defaultObj := snd kw;
                 path := (path c ++ "." ++ fst kw)%string |} in
  (* the recursion at depth [d] is the loop, for every check *)
  (forall (c' : Check) root obj stack',
     (size (defaultObj c') <= d)%nat ->
     follow (Some root) (checkObj c') = Some obj ->
     match settle d (path c') obj (defaultObj c') with
     | Normal obj' =>
         exists root',
           change root (checkObj c') (fun _ => Some obj') = Some root'
           /\ follow (Some root') (checkObj c') = Some obj'
           /\ forall fuel r,
                merge_loop fuel stack' (Some root') = r -> r <> OutOfFuel ->
                merge_loop (fuel + size (defaultObj c')) (c' :: stack')
                  (Some root) = r
     | Throw e =>
         forall fuel,
           merge_loop (fuel + size (defaultObj c')) (c' :: stack') (Some root)
           = MergeThrows e
     | Beyond =>
         forall fuel,
           merge_loop (fuel + size (defaultObj c')) (c' :: stack') (Some root)
           = MergeBeyond
     end) ->
  forall later root obj,
    Forall (fun kw => size (snd kw) <= d)%nat later ->
    follow (Some root) (checkObj c) = Some obj ->
    (forall kw, kw ∈ later -> exists h, read (Some obj) (fst kw) = Has h) ->
    let weight := list_sum (map (fun kv => size (snd kv)) later) in
    match descend (settle d) (path c) later obj with
    | Normal obj' =>
        exists root',
          change root (checkObj c) (fun _ => Some obj') = Some root'
          /\ follow (Some root') (checkObj c) = Some obj'
          /\ forall fuel r,
               merge_loop fuel stack (Some root') = r -> r <> OutOfFuel ->
               merge_loop (fuel + weight) (map mk later ++ stack) (Some root)
               = r
    | Throw e =>
        forall fuel,
          merge_loop (fuel + weight) (map mk later ++ stack) (Some root)
          = MergeThrows e
    | Beyond =>
        forall fuel,
          merge_loop (fuel + weight) (map mk later ++ stack) (Some root)
          = MergeBeyond
    end.
Proof.
  intros mk IHd later.
  induction later as [|[key want] later IH]; intros root obj Hsz Hf Hread;
    cbn [descend].
  - cbn [map app list_sum fold_right]. unfold list_sum. cbn [fold_right].
    destruct (change_follow root _ obj obj Hf) as (root' & Hc & Hf').
    assert (root' = root).
    { clear - Hf Hc. revert root root' Hf Hc.
      induction (checkObj c) as [|k p IHp]; intros root root';
        cbn [follow change].
      - intros [= ->] [= ->]. reflexivity.
      - destruct (read (Some root) k) as [v| | |] eqn:Er; try discriminate.
        intros Hf. destruct (change v p (fun _ => Some obj)) as [v'|] eqn:Ec;
          [|discriminate].
        intros [= <-]. rewrite (IHp v v' Hf Ec).
        apply replace_same. exact Er. }
    subst root'. exists root. split; [exact Hc|]. split; [exact Hf|].
    intros fuel r Hr Hne. rewrite Nat.add_0_r. exact Hr.
  - apply Forall_cons in Hsz as [Hsz1 Hsz]. cbn [snd] in Hsz1.
    destruct (Hread (key, want)) as [have Hhave]; [left|]. cbn [fst] in Hhave.
    rewrite Hhave.
    assert (Hfk : follow (Some root) (checkObj (mk (key, want))) = Some have).
    { cbn [mk checkObj fst]. rewrite follow_app, Hf, Hhave. reflexivity. }
    specialize (IHd (mk (key, want)) root have (map mk later ++ stack)
                  Hsz1 Hfk).
    cbn [mk path defaultObj fst snd] in IHd.
    cbn [map app]. rewrite list_sum_cons. cbn [snd].
    destruct (settle d (path c ++ "." ++ key) have want) as [have'| |].
    + destruct IHd as (root2 & Hc2 & Hf2 & Hfuel2).
      cbn [mk checkObj fst] in Hc2, Hf2.
      set (obj2 := replace obj key have').
      assert (Hc2' : change root (checkObj c) (fun _ => Some obj2)
                     = Some root2).
      { rewrite <- Hc2, change_app.
        etransitivity; [|symmetry; apply (change_at_end root _ obj _ Hf)].
        cbn beta. rewrite Hhave. reflexivity. }
      assert (Hf2' : follow (Some root2) (checkObj c) = Some obj2).
      { destruct (change_follow root _ obj obj2 Hf) as (r2 & Hr2 & Hfr2).
        congruence. }
      assert (Hread2 : forall kw, kw ∈ later ->
                exists h, read (Some obj2) (fst kw) = Has h).
      { intros kw Hin. destruct (Hread kw) as [h Hh]; [right; exact Hin|].
        destruct (decide (fst kw = key)) as [->|Hne].
        - exists have'. apply (read_replace _ _ _ _ Hhave).
        - exists h. unfold obj2. rewrite read_replace_ne by exact Hne.
          exact Hh. }
      specialize (IH root2 obj2 Hsz Hf2' Hread2). cbn zeta in IH.
      destruct (descend (settle d) (path c) later obj2) as [obj'| |].
      * destruct IH as (root' & Hc & Hf' & Hfuel).
        exists root'. split; [|split; [exact Hf'|]].
        { rewrite <- Hc. symmetry.
          apply (change_twice root _ obj2 root2 (fun _ => Some obj') Hc2'). }
        intros fuel r Hr Hne.
        replace (fuel + (size want + list_sum (map (fun kv => size kv.2) later)))%nat
          with ((fuel + list_sum (map (fun kv => size kv.2) later))
                + size want)%nat by lia.
        apply Hfuel2; [|exact Hne]. apply Hfuel; assumption.
      * intros fuel.
        replace (fuel + (size want + list_sum (map (fun kv => size kv.2) later)))%nat
          with ((fuel + list_sum (map (fun kv => size kv.2) later))
                + size want)%nat by lia.
        apply Hfuel2; [apply IH|discriminate].
      * intros fuel.
        replace (fuel + (size want + list_sum (map (fun kv => size kv.2) later)))%nat
          with ((fuel + list_sum (map (fun kv => size kv.2) later))
                + size want)%nat by lia.
        apply Hfuel2; [apply IH|discriminate].
    + intros fuel.
      replace (fuel + (size want + list_sum (map (fun kv => size kv.2) later)))%nat
        with ((fuel + list_sum (map (fun kv => size kv.2) later))
              + size want)%nat by lia.
      apply IHd.
    + intros fuel.
      replace (fuel + (size want + list_sum (map (fun kv => size kv.2) later)))%nat
        with ((fuel + list_sum (map (fun kv => size kv.2) later))
              + size want)%nat by lia.
      apply IHd.
Qed.


Lemma list_sum_bound (l : list nat) x : x ∈ l -> (x <= list_sum l)%nat.
Proof.
  induction 1 as [x l|x y l _ IH]; rewrite list_sum_cons; lia.
Qed.

Lemma merge_loop_settle d :
  forall (c : Check) root obj stack,
    (size (defaultObj c) <= d)%nat ->
    follow (Some root) (checkObj c) = Some obj ->
    match settle d (path c) obj (defaultObj c) with
    | Normal obj' =>
        exists root',
          change root (checkObj c) (fun _ => Some obj') = Some root'
          /\ follow (Some root') (checkObj c) = Some obj'
          /\ forall fuel r,
               merge_loop fuel stack (Some root') = r -> r <> OutOfFuel ->
               merge_loop (fuel + size (defaultObj c)) (c :: stack)
                 (Some root) = r
    | Throw e =>
        forall fuel,
          merge_loop (fuel + size (defaultObj c)) (c :: stack) (Some root)
          = MergeThrows e
    | Beyond =>
        forall fuel,
          merge_loop (fuel + size (defaultObj c)) (c :: stack) (Some root)
          = MergeBeyond
    end.
Proof.
  induction d as [|d IHd]; intros c root obj stack Hsz Hf.
  { pose proof (size_positive (defaultObj c)). lia. }
  cbn [settle].
  pose proof (for_in_visit (entries (defaultObj c)) c root obj [] stack Hf)
    as Hpass. cbn zeta in Hpass. cbn [map app] in Hpass.
  assert (Hstep : forall fuel,
            (fuel + size (defaultObj c))%nat
            = S (fuel + (size (defaultObj c) - 1))).
  { intros fuel. pose proof (size_positive (defaultObj c)). lia. }
  destruct (visit (entries (defaultObj c)) (path c) obj [])
    as [[obj1 later1]| |] eqn:Ev.
  - destruct Hpass as (root1 & Hc1 & Hf1 & Hfor).
    destruct (visit_later _ _ _ _ _ _ Ev) as (Hw & Hreads & _ & _).
    assert (Hweight : (list_sum (map (fun kv => size (snd kv)) later1)
                       <= size (defaultObj c) - 1)%nat).
    { destruct (size_entries (defaultObj c)) as [E|E].
      - rewrite E. simpl in Hw |- *. lia.
      - rewrite E in Hw. simpl in Hw. lia. }
    assert (Hall : Forall (fun kw => size (snd kw) <= d)%nat later1).
    { apply Forall_forall. intros kw Hin.
      assert (size (snd kw)
              <= list_sum (map (fun kv => size (snd kv)) later1))%nat.
      { apply list_sum_bound. apply list_elem_of_fmap. exists kw. auto. }
      lia. }
    assert (Hr1 : forall kw, kw ∈ later1 ->
              exists h, read (Some obj1) (fst kw) = Has h).
    { apply Hreads. intros kw Hin. inversion Hin. }
    pose proof (merge_loop_descend d c stack IHd later1 root1 obj1
                  Hall Hf1 Hr1) as Hdesc. cbn zeta in Hdesc.
    destruct (descend (settle d) (path c) later1 obj1) as [obj'| |].
    + destruct Hdesc as (root' & Hc & Hf' & Hfuel).
      exists root'. split; [|split; [exact Hf'|]].
      { rewrite <- Hc. symmetry.
        apply (change_twice root _ obj1 root1 (fun _ => Some obj') Hc1). }
      intros fuel r Hr Hne. rewrite Hstep. cbn [merge_loop]. rewrite Hfor.
      eapply merge_loop_more; [apply (Hfuel fuel r Hr Hne)|exact Hne|lia].
    + intros fuel. rewrite Hstep. cbn [merge_loop]. rewrite Hfor.
      eapply merge_loop_more; [apply (Hdesc fuel)|discriminate|lia].
    + intros fuel. rewrite Hstep. cbn [merge_loop]. rewrite Hfor.
      eapply merge_loop_more; [apply (Hdesc fuel)|discriminate|lia].
  - intros fuel. rewrite Hstep. cbn [merge_loop]. rewrite Hpass. reflexivity.
  - intros fuel. rewrite Hstep. cbn [merge_loop]. rewrite Hpass. reflexivity.
Qed.

(** The loop of [GetInstantStore] computes the recursion. *)
Lemma merge_template_settle name template fields items :
  own "Items" fields = Some (JsonObject items) ->
  merge_template name template (JsonObject fields)
  = match settle (size (JsonObject template)) (name ++ ".Items")
            (JsonObject items) (JsonObject template) with
    | Normal items' => Normal (JsonObject (replace_own "Items" items' fields))
    | Throw e => Throw e
    | Beyond => Beyond
    end.
Proof.
  intros Ho. unfold merge_template. rewrite Ho.
  pose proof (merge_loop_settle (size (JsonObject template))
                {| checkObj := []; defaultObj := JsonObject template;
                   path := (name ++ ".Items")%string |}
                (JsonObject items) (JsonObject items) []
                (Nat.le_refl _) eq_refl) as Hs.
  cbn [path defaultObj checkObj change] in Hs.
  destruct (settle _ _ _ _) as [items'| |].
  - destruct Hs as (root' & [= <-] & _ & Hfuel).
    pose proof (Hfuel 1%nat (Merged (Some items')) eq_refl
                  ltac:(discriminate)) as E.
    change (1 + size (JsonObject template))%nat
      with (S (size (JsonObject template))) in E.
    rewrite E. reflexivity.
  - pose proof (Hs 1%nat) as E.
    change (1 + size (JsonObject template))%nat
      with (S (size (JsonObject template))) in E.
    rewrite E. reflexivity.
  - pose proof (Hs 1%nat) as E.
    change (1 + size (JsonObject template))%nat
      with (S (size (JsonObject template))) in E.
    rewrite E. reflexivity.
Qed.


(** *** What the merge keeps *)

Lemma alike_refl v : alike v v.
Proof. destruct v; cbn; auto. Qed.

Lemma alike_trans a b c : alike a b -> alike b c -> alike a c.
Proof. destruct a, b; cbn; try tauto; try congruence; destruct c; cbn; congruence. Qed.

Lemma alike_typeof a b : alike a b -> typeof b = typeof a.
Proof. destruct a, b; cbn; try tauto; congruence. Qed.

Lemma keeps_refl v : keeps v v.
Proof. intros p x Hx. exists x. split; [exact Hx|apply alike_refl]. Qed.

Lemma keeps_trans a b c : keeps a b -> keeps b c -> keeps a c.
Proof.
  intros H1 H2 p x Hx. destruct (H1 p x Hx) as (y & Hy & Axy).
  destruct (H2 p y Hy) as (z & Hz & Ayz).
  exists z. split; [exact Hz|eapply alike_trans; eauto].
Qed.

Lemma keeps_intro a b :
  alike a b ->
  (forall key x, read (Some a) key = Has x ->
     exists y, read (Some b) key = Has y /\ keeps x y) ->
  keeps a b.
Proof.
  intros Ha Hk p v. destruct p as [|key p]; cbn [follow].
  - intros [= <-]. eauto.
  - destruct (read (Some a) key) as [x| | |] eqn:Er; try discriminate.
    destruct (Hk key x Er) as (y & Hy & Kxy). rewrite Hy. apply Kxy.
Qed.

Lemma alike_write obj key v obj' : write obj key v = Some obj' -> alike obj obj'.
Proof.
  destruct obj; cbn [write]; try discriminate.
  - destruct (element_index _ _); [|discriminate].
    destruct (_ =? _)%nat; [|discriminate]. intros [= <-]. exact I.
  - intros [= <-]. exact I.
Qed.

Lemma alike_replace obj key v : alike obj (replace obj key v).
Proof.
  destruct obj; cbn [replace]; try reflexivity.
  all: try destruct (element_index _ _); exact I.
Qed.

Lemma visit_alike todo ps obj later obj' later' :
  visit todo ps obj later = Normal (obj', later') -> alike obj obj'.
Proof.
  revert obj later. induction todo as [|[key want] todo IH];
    intros obj later; cbn [visit].
  - intros [= <- <-]. apply alike_refl.
  - destruct (read (Some obj) key) as [have| | |] eqn:Er; try discriminate.
    + destruct (String.eqb (typeof have) "object"
                && String.eqb (typeof want) "object"); [apply IH|].
      destruct (negb (String.eqb (typeof have) (typeof want)));
        [discriminate|apply IH].
    + destruct (write obj key want) as [obj1|] eqn:Ew; [|discriminate].
      intros Hv. eapply alike_trans; [eapply alike_write; eauto|].
      eapply IH; eauto.
Qed.

Lemma visit_keeps todo ps obj later obj' later' :
  visit todo ps obj later = Normal (obj', later') -> keeps obj obj'.
Proof.
  intros Hv. destruct (visit_later _ _ _ _ _ _ Hv) as (_ & _ & Hhas & _).
  apply keeps_intro; [eapply visit_alike; eauto|].
  intros key x Hx. exists x. split; [auto|apply keeps_refl].
Qed.

Lemma replace_keeps obj key have have' :
  read (Some obj) key = Has have -> keeps have have' ->
  keeps obj (replace obj key have').
Proof.
  intros Hr Hk. apply keeps_intro; [apply alike_replace|].
  intros k x Hx. destruct (decide (k = key)) as [->|Hne].
  - exists have'. split; [apply (read_replace _ _ _ _ Hr)|].
    rewrite Hr in Hx. injection Hx as <-. exact Hk.
  - exists x. rewrite read_replace_ne by exact Hne.
    split; [exact Hx|apply keeps_refl].
Qed.

Lemma descend_keeps rec ps later obj obj' :
  (forall ps' have want have',
     rec ps' have want = Normal have' -> keeps have have') ->
  descend rec ps later obj = Normal obj' -> keeps obj obj'.
Proof.
  intros Hrec. revert obj. induction later as [|[key want] later IH];
    intros obj; cbn [descend].
  - intros [= <-]. apply keeps_refl.
  - destruct (read (Some obj) key) as [have| | |] eqn:Er; try discriminate.
    destruct (rec _ have want) as [have'| |] eqn:Es; try discriminate.
    intros Hd. eapply keeps_trans; [|apply (IH _ Hd)].
    eapply replace_keeps; eauto.
Qed.

Lemma settle_keeps d ps obj want obj' :
  settle d ps obj want = Normal obj' -> keeps obj obj'.
Proof.
  revert ps obj want obj'. induction d as [|d IH]; intros ps obj want obj';
    cbn [settle]; [discriminate|].
  destruct (visit (entries want) ps obj []) as [[obj1 later1]| |] eqn:Ev;
    try discriminate.
  intros Hd. eapply keeps_trans; [eapply visit_keeps; eauto|].
  eapply descend_keeps; [|exact Hd]. intros. eapply IH; eauto.
Qed.


(** *** The properties an object or an array lists *)

Lemma own_elem key v fields : own key fields = Some v -> (key, v) ∈ fields.
Proof.
  induction fields as [|[k x] rest IH]; cbn [own]; [discriminate|].
  destruct (String.eqb k key) eqn:E.
  - apply String.eqb_eq in E. intros [= ->]. subst. left.
  - intros Ho. right. auto.
Qed.

Lemma own_NoDup key v fields :
  NoDup (map fst fields) -> (key, v) ∈ fields -> own key fields = Some v.
Proof.
  induction fields as [|[k x] rest IH]; intros Hn Hin; [inversion Hin|].
  cbn in Hn. apply NoDup_cons in Hn as [Hk Hn]. cbn [own].
  apply elem_of_cons in Hin as [[= -> ->]|Hin].
  - rewrite String.eqb_refl. reflexivity.
  - destruct (String.eqb k key) eqn:E; [|auto].
    apply String.eqb_eq in E. subst k. exfalso. apply Hk.
    apply list_elem_of_fmap. exists (key, v). auto.
Qed.

Lemma read_entries want key w :
  read (Some want) key = Has w -> (key, w) ∈ entries want.
Proof.
  destruct want as [| | | |items|fields]; cbn [read entries]; try discriminate.
  - destruct (element_index (List.length items) key) as [i|] eqn:Ei;
      [|discriminate].
    destruct (items !! i) as [x|] eqn:Ex; [|discriminate]. intros [= ->].
    apply element_index_spec in Ei as [<- _].
    apply (elem_of_lookup_imap_2 (fun i x => (pretty i, x))). exact Ex.
  - destruct (own key fields) as [x|] eqn:Eo;
      [|destruct (bool_decide _); discriminate].
    intros [= ->]. apply own_elem, Eo.
Qed.

Lemma entries_keys_array (items : list Json) :
  map fst (imap (fun i x => (pretty i, x)) items)
  = map pretty (seq 0 (List.length items)).
Proof.
  change (map fst (imap (fun i x => (pretty i, x)) items))
    with (fst <$> imap (fun (i : nat) (x : Json) => (pretty i, x)) items).
  rewrite fmap_imap. apply (imap_seq_0 items (fun i => pretty i)).
Qed.

Lemma unique_entries want :
  unique_keys want = true ->
  NoDup (map fst (entries want))
  /\ forall key w, (key, w) ∈ entries want ->
       unique_keys w = true /\ read (Some want) key = Has w.
Proof.
  destruct want as [| | | |items|fields]; cbn [unique_keys entries].
  1-4: intros _; split; [constructor|intros ? ? Hin; inversion Hin].
  - intros Hu. split.
    + rewrite entries_keys_array. apply (NoDup_fmap_2 _), NoDup_seq.
    + intros key w Hin. apply elem_of_lookup_imap_1 in Hin
        as (i & x & [= -> ->] & Hx).
      split.
      * rewrite forallb_forall in Hu. apply Hu.
        apply list_elem_of_In. eapply list_elem_of_lookup_2; eauto.
      * cbn [read]. rewrite element_index_pretty
          by (apply lookup_lt_Some in Hx; lia).
        rewrite Hx. reflexivity.
  - intros Hu. apply andb_prop in Hu as [Hn Hu].
    apply bool_decide_eq_true in Hn. split; [exact Hn|].
    intros key w Hin. split.
    + rewrite forallb_forall in Hu.
      apply (Hu (key, w)). apply list_elem_of_In, Hin.
    + cbn [read]. rewrite (own_NoDup _ _ _ Hn Hin). reflexivity.
Qed.

Lemma size_entry want key w :
  (key, w) ∈ entries want -> (size w < size want)%nat.
Proof.
  intros Hin. destruct (size_entries want) as [E|E];
    [|rewrite E in Hin; inversion Hin].
  rewrite E.
  assert (size w <= list_sum (map (fun kv => size (snd kv)) (entries want)))%nat;
    [|lia].
  apply list_sum_bound. apply list_elem_of_fmap. exists (key, w). auto.
Qed.

Lemma typeof_object_dec v :
  {typeof v = "object"%string} + {typeof v <> "object"%string}.
Proof. destruct v; cbn; first [left; reflexivity|right; discriminate]. Qed.

Lemma read_plain v key x :
  read (Some v) key = Has x -> typeof v = "object"%string.
Proof. destruct v; cbn [read]; try discriminate; reflexivity. Qed.

(** *** What the merge fills in *)

Lemma fits_refl w : unique_keys w = true -> fits w w.
Proof.
  remember (size w) as n eqn:En. revert w En.
  induction n as [n IH] using lt_wf_ind. intros w -> Hu.
  constructor. intros key x Hin.
  destruct (unique_entries w Hu) as [_ He].
  destruct (He key x Hin) as [Hux Hr].
  exists x. split; [exact Hr|]. split; [reflexivity|].
  intros _. eapply IH; [eapply size_entry; eauto|reflexivity|exact Hux].
Qed.

Lemma fits_paths obj want :
  fits obj want -> typeof obj = typeof want ->
  forall p w,
    follow (Some want) p = Some w ->
    exists h, follow (Some obj) p = Some h /\ typeof h = typeof w.
Proof.
  intros Hf Ht p. revert obj want Hf Ht.
  induction p as [|key p IH]; intros obj want Hf Ht w; cbn [follow].
  - intros [= <-]. eauto.
  - destruct (read (Some want) key) as [w1| | |] eqn:Er; try discriminate.
    intros Hfw. destruct Hf as [obj want Hall].
    destruct (Hall key w1 (read_entries _ _ _ Er)) as (x & Hx & Hxt & Hrec).
    rewrite Hx. destruct (typeof_object_dec w1) as [Ho|Hno].
    + apply (IH x w1 (Hrec Ho) Hxt w Hfw).
    + destruct p as [|k2 p]; cbn [follow] in Hfw |- *.
      * injection Hfw as <-. eauto.
      * destruct (read (Some w1) k2) as [y| | |] eqn:Ey; try discriminate.
        apply read_plain in Ey. contradiction.
Qed.


Lemma both_object have want :
  String.eqb (typeof have) "object" && String.eqb (typeof want) "object" = true
  <-> typeof have = "object"%string /\ typeof want = "object"%string.
Proof. rewrite andb_true_iff, !String.eqb_eq. reflexivity. Qed.

Lemma visit_entries todo ps obj later obj1 later1 :
  visit todo ps obj later = Normal (obj1, later1) ->
  NoDup (map fst todo) ->
  exists new,
    later1 = new ++ later
    /\ (forall kw, kw ∈ new -> kw ∈ todo /\ typeof (snd kw) = "object"%string)
    /\ NoDup (map fst new)
    /\ forall key w,
         (key, w) ∈ todo ->
         exists x,
           read (Some obj1) key = Has x
           /\ typeof x = typeof w
           /\ ((key, w) ∈ new
               \/ ((key ∉ map fst new)
                   /\ (x = w \/ typeof w <> "object"%string))).
Proof.
  revert obj later. induction todo as [|[key want] todo IH];
    intros obj later; cbn [visit].
  { intros [= <- <-] _. exists []. split; [reflexivity|].
    split; [intros kw Hin; inversion Hin|]. split; [constructor|].
    intros k w Hin. inversion Hin. }
  intros Hv Hn. cbn in Hn. apply NoDup_cons in Hn as [Hkey Hn].
  assert (Hfresh : forall new : list (string * Json),
            (forall kw, kw ∈ new -> kw ∈ todo /\ typeof (snd kw) = "object"%string) ->
            key ∉ map fst new).
  { intros new Hnew Hin. apply list_elem_of_fmap in Hin as (kw & -> & Hin).
    apply Hkey. apply list_elem_of_fmap. exists kw.
    split; [reflexivity|]. apply (Hnew kw Hin). }
  destruct (read (Some obj) key) as [have| | |] eqn:Er; try discriminate.
  - destruct (String.eqb (typeof have) "object"
              && String.eqb (typeof want) "object") eqn:Eb.
    + apply both_object in Eb as [Eh Ew].
      destruct (IH _ _ Hv Hn) as (new & -> & Hnew & Hnd & Hall).
      destruct (visit_later _ _ _ _ _ _ Hv) as (_ & _ & Hhas & _).
      exists (new ++ [(key, want)]). split; [rewrite <- app_assoc; reflexivity|].
      split; [|split].
      * intros kw Hin. apply elem_of_app in Hin as [Hin|Hin].
        -- destruct (Hnew kw Hin). split; [right|]; assumption.
        -- apply list_elem_of_singleton in Hin. subst kw. split; [left|exact Ew].
      * rewrite map_app. apply NoDup_app. split; [exact Hnd|].
        split; [|cbn; apply NoDup_singleton].
        intros k Hk Hk'. cbn in Hk'. apply list_elem_of_singleton in Hk'.
        subst k. apply (Hfresh new Hnew Hk).
      * intros k w Hin. apply elem_of_cons in Hin as [[= -> ->]|Hin].
        -- exists have. split; [apply Hhas, Er|]. split; [congruence|].
           left. apply elem_of_app. right. left.
        -- destruct (Hall k w Hin) as (x & Hx & Hxt & Hcase).
           exists x. split; [exact Hx|]. split; [exact Hxt|].
           destruct Hcase as [Hc|[Hc Hc']].
           ++ left. apply elem_of_app. auto.
           ++ right. split; [|exact Hc']. rewrite map_app.
              intros Hk. apply elem_of_app in Hk as [Hk|Hk]; [auto|].
              cbn in Hk. apply list_elem_of_singleton in Hk. subst k.
              apply Hkey. apply list_elem_of_fmap. exists (key, w). auto.
    + destruct (negb (String.eqb (typeof have) (typeof want))) eqn:Et;
        [discriminate|].
      apply negb_false_iff, String.eqb_eq in Et.
      destruct (IH _ _ Hv Hn) as (new & -> & Hnew & Hnd & Hall).
      destruct (visit_later _ _ _ _ _ _ Hv) as (_ & _ & Hhas & _).
      exists new. split; [reflexivity|]. split; [|split; [exact Hnd|]].
      * intros kw Hin. destruct (Hnew kw Hin). split; [right|]; assumption.
      * intros k w Hin. apply elem_of_cons in Hin as [[= -> ->]|Hin].
        -- exists have. split; [apply Hhas, Er|]. split; [exact Et|].
           right. split; [apply Hfresh, Hnew|]. right. intros Ew.
           assert (String.eqb (typeof have) "object"
                   && String.eqb (typeof want) "object" = true);
             [|congruence].
           apply both_object. split; congruence.
        -- apply (Hall k w Hin).
  - destruct (write obj key want) as [obj'|] eqn:Ew; [|discriminate].
    destruct (read_write _ _ _ _ Er Ew) as (W1 & _ & _).
    destruct (IH _ _ Hv Hn) as (new & -> & Hnew & Hnd & Hall).
    destruct (visit_later _ _ _ _ _ _ Hv) as (_ & _ & Hhas & _).
    exists new. split; [reflexivity|]. split; [|split; [exact Hnd|]].
    + intros kw Hin. destruct (Hnew kw Hin). split; [right|]; assumption.
    + intros k w Hin. apply elem_of_cons in Hin as [[= -> ->]|Hin].
      * exists want. split; [apply Hhas, W1|]. split; [reflexivity|].
        right. split; [apply Hfresh, Hnew|]. left. reflexivity.
      * apply (Hall k w Hin).
Qed.

Lemma descend_effect rec ps later obj obj' :
  descend rec ps later obj = Normal obj' ->
  NoDup (map fst later) ->
  (forall key, key ∉ map fst later ->
     read (Some obj') key = read (Some obj) key)
  /\ (forall key w,
        (key, w) ∈ later ->
        exists x x',
          read (Some obj) key = Has x
          /\ rec (ps ++ "." ++ key)%string x w = Normal x'
          /\ read (Some obj') key = Has x').
Proof.
  revert obj. induction later as [|[key want] later IH];
    intros obj; cbn [descend].
  { intros [= <-] _. split; [reflexivity|]. intros k w Hin. inversion Hin. }
  destruct (read (Some obj) key) as [have| | |] eqn:Er; try discriminate.
  destruct (rec _ have want) as [have'| |] eqn:Es; try discriminate.
  intros Hd Hn. cbn in Hn. apply NoDup_cons in Hn as [Hkey Hn].
  destruct (IH _ Hd Hn) as [H1 H2]. split.
  - intros k Hk. cbn in Hk. apply not_elem_of_cons in Hk as [Hne Hk].
    rewrite (H1 k Hk). apply read_replace_ne. exact Hne.
  - intros k w Hin. apply elem_of_cons in Hin as [[= -> ->]|Hin].
    + exists have, have'. split; [exact Er|]. split; [exact Es|].
      rewrite (H1 key Hkey). apply (read_replace _ _ _ _ Er).
    + destruct (H2 k w Hin) as (x & x' & Hx & Hrec & Hx').
      exists x, x'. split; [|split; assumption].
      rewrite read_replace_ne in Hx; [exact Hx|].
      intros ->. apply Hkey. apply list_elem_of_fmap. exists (key, w). auto.
Qed.

Lemma settle_fits d ps obj want obj' :
  settle d ps obj want = Normal obj' ->
  unique_keys want = true ->
  fits obj' want.
Proof.
  revert ps obj want obj'. induction d as [|d IH]; intros ps obj want obj';
    cbn [settle]; [discriminate|].
  destruct (visit (entries want) ps obj []) as [[obj1 later1]| |] eqn:Ev;
    try discriminate.
  intros Hd Hu. destruct (unique_entries want Hu) as [Hn Hsub].
  destruct (visit_entries _ _ _ _ _ _ Ev Hn) as (new & -> & Hnew & Hnd & Hall).
  rewrite app_nil_r in Hd.
  destruct (descend_effect _ _ _ _ _ Hd Hnd) as [D1 D2].
  constructor. intros key w Hin.
  destruct (Hall key w Hin) as (x & Hx & Hxt & [Hc|[Hc Hc']]).
  - destruct (D2 key w Hc) as (x0 & x' & Hx0 & Hs & Hx').
    exists x'. split; [exact Hx'|].
    assert (x0 = x) by congruence. subst x0.
    split.
    + destruct (settle_keeps _ _ _ _ _ Hs [] x eq_refl) as (y & [= <-] & Ay).
      rewrite (alike_typeof _ _ Ay). exact Hxt.
    + intros _. apply (IH _ _ _ _ Hs). apply (Hsub key w Hin).
  - exists x. split; [rewrite (D1 key Hc); exact Hx|]. split; [exact Hxt|].
    intros Ho. destruct Hc' as [->|Hno]; [|contradiction].
    apply fits_refl. apply (Hsub key w Hin).
Qed.

Lemma visit_fitting todo ps obj later :
  (forall key w, (key, w) ∈ todo ->
     exists x, read (Some obj) key = Has x /\ typeof x = typeof w) ->
  exists later1,
    visit todo ps obj later = Normal (obj, later1)
    /\ forall kw, kw ∈ later1 ->
         (kw ∈ todo /\ typeof (snd kw) = "object"%string) \/ kw ∈ later.
Proof.
  revert later. induction todo as [|[key want] todo IH]; intros later Hall;
    cbn [visit].
  { exists later. auto. }
  destruct (Hall key want) as (x & Hx & Hxt); [left|]. rewrite Hx.
  assert (Hall' : forall key w, (key, w) ∈ todo ->
            exists x, read (Some obj) key = Has x /\ typeof x = typeof w).
  { intros k w Hin. apply Hall. right. exact Hin. }
  destruct (String.eqb (typeof x) "object"
            && String.eqb (typeof want) "object") eqn:Eb.
  - apply both_object in Eb as [_ Ew].
    destruct (IH ((key, want) :: later) Hall') as (later1 & Hv & Hl).
    exists later1. split; [exact Hv|]. intros kw Hin.
    destruct (Hl kw Hin) as [[H1 H2]|H1].
    + left. split; [right|]; assumption.
    + apply elem_of_cons in H1 as [->|H1]; [|auto].
      left. split; [left|exact Ew].
  - rewrite Hxt, String.eqb_refl. cbn [negb].
    destruct (IH later Hall') as (later1 & Hv & Hl).
    exists later1. split; [exact Hv|]. intros kw Hin.
    destruct (Hl kw Hin) as [[H1 H2]|H1]; [|auto].
    left. split; [right|]; assumption.
Qed.

Lemma descend_fitting rec ps later obj :
  (forall key w, (key, w) ∈ later ->
     exists x, read (Some obj) key = Has x
               /\ rec (ps ++ "." ++ key)%string x w = Normal x) ->
  descend rec ps later obj = Normal obj.
Proof.
  induction later as [|[key want] later IH]; intros Hall; cbn [descend];
    [reflexivity|].
  destruct (Hall key want) as (x & Hx & Hs); [left|].
  rewrite Hx, Hs, (replace_same _ _ _ Hx). apply IH.
  intros k w Hin. apply Hall. right. exact Hin.
Qed.

Lemma fits_settle d ps obj want :
  fits obj want -> (size want <= d)%nat -> settle d ps obj want = Normal obj.
Proof.
  revert ps obj want. induction d as [|d IH]; intros ps obj want Hf Hsz.
  { pose proof (size_positive want). lia. }
  cbn [settle]. destruct Hf as [obj want Hall].
  destruct (visit_fitting (entries want) ps obj []) as (later1 & Hv & Hl).
  { intros key w Hin. destruct (Hall key w Hin) as (x & Hx & Hxt & _). eauto. }
  rewrite Hv. apply descend_fitting. intros key w Hin.
  destruct (Hl _ Hin) as [[Hin' Ho]|Hin']; [|inversion Hin'].
  cbn [snd] in Ho. destruct (Hall key w Hin') as (x & Hx & Hxt & Hrec).
  exists x. split; [exact Hx|]. apply IH; [apply Hrec, Ho|].
  pose proof (size_entry _ _ _ Hin'). lia.
Qed.


(** *** The store that [GetInstantStore] returns *)

Context `{Host}.

Lemma GetInstantStore_loaded name version template (w : World) doc fields
  items :
  name ∉ RetrievedInstantStores w ->
  localStorage w !! name = Some doc ->
  JSON_parse doc = Some (JsonObject fields) ->
  is_number (own "Version" fields) version = true ->
  own "Items" fields = Some (JsonObject items) ->
  snd (GetInstantStore name version template false w)
  = match settle (size (JsonObject template)) (name ++ ".Items")
            (JsonObject items) (JsonObject template) with
    | Normal items' => Normal (JsonObject (replace_own "Items" items' fields))
    | Throw e => Throw e
    | Beyond => Beyond
    end.
Proof.
  intros Hnew Hdoc Hparse Hv Hitems. unfold GetInstantStore.
  rewrite bool_decide_eq_false_2 by exact Hnew.
  cbn [localStorage set_RetrievedInstantStores].
  rewrite Hdoc, Hparse. cbn [property]. rewrite Hv. cbn [snd].
  apply merge_template_settle. exact Hitems.
Qed.

(** A store that is returned is the fresh one or the stored one with its
    items settled. *)
Lemma GetInstantStore_returns name version template force (w w1 : World)
  store :
  GetInstantStore name version template force w = (w1, Normal store) ->
  store = JsonObject [("Version", JsonNumber version);
                      ("Items", JsonObject template)]
  \/ exists doc fields items items',
       force = false
       /\ (name ∉ RetrievedInstantStores w)
       /\ localStorage w !! name = Some doc
       /\ JSON_parse doc = Some (JsonObject fields)
       /\ is_number (own "Version" fields) version = true
       /\ own "Items" fields = Some (JsonObject items)
       /\ settle (size (JsonObject template)) (name ++ ".Items")
            (JsonObject items) (JsonObject template) = Normal items'
       /\ store = JsonObject (replace_own "Items" items' fields).
Proof.
  unfold GetInstantStore. case_bool_decide as Hnew; [discriminate|].
  destruct force; [intros [= _ <-]; auto|].
  cbn [localStorage set_RetrievedInstantStores].
  destruct (localStorage w !! name) as [doc|] eqn:Hdoc;
    [|intros [= _ <-]; auto].
  destruct (JSON_parse doc) as [parsed|] eqn:Hparse; [|discriminate].
  destruct parsed as [| | | |l|fields]; try discriminate;
    try (cbn [property is_number]; intros [= _ <-]; auto).
  cbn [property].
  destruct (is_number (own "Version" fields) version) eqn:Hv;
    [|intros [= _ <-]; auto].
  intros Hget. right.
  assert (Hm : merge_template name template (JsonObject fields)
               = Normal store) by congruence.
  clear Hget.
  destruct (own "Items" fields) as [[| | | |l|items]|] eqn:Hitems;
    try (unfold merge_template in Hm; rewrite Hitems in Hm; discriminate).
  rewrite (merge_template_settle _ _ _ _ Hitems) in Hm.
  destruct (settle _ _ _ _) as [items'| |] eqn:Hs; try discriminate.
  injection Hm as <-. exists doc, fields, items, items'.
  repeat split; auto.
Qed.

Lemma settle_object d ps items want obj' :
  settle d ps (JsonObject items) want = Normal obj' ->
  exists items', obj' = JsonObject items'.
Proof.
  intros Hs. destruct (settle_keeps _ _ _ _ _ Hs [] _ eq_refl)
    as (y & [= <-] & Ay).
  destruct obj'; cbn in Ay; try contradiction. eauto.
Qed.

(** X23. When the stored document has the version asked for, the store
    returned is that document with its items merged: every path that led
    to a value in the stored items still leads to it (to an object or an
    array, where it led to one), and the properties of the document other
    than [Items] are untouched. *)
Theorem instant_store_keeps_stored_values (name : string) (version : Q)
  (template : list (string * Json)) (w w1 : World) (doc : string)
  (fields items : list (string * Json)) (store : Json) :
  localStorage w !! name = Some doc ->
  JSON_parse doc = Some (JsonObject fields) ->
  is_number (own "Version" fields) version = true ->
  own "Items" fields = Some (JsonObject items) ->
  GetInstantStore name version template false w = (w1, Normal store) ->
  exists items',
    Items store = Some items'
    /\ keeps (JsonObject items) items'
    /\ store = JsonObject (replace_own "Items" items' fields)
    /\ forall key, key <> "Items"%string -> property store key = own key fields.
Proof.
  intros Hdoc Hparse Hv Hitems Hget.
  assert (Hnew : name ∉ RetrievedInstantStores w).
  { intros Hin. unfold GetInstantStore in Hget.
    rewrite bool_decide_eq_true_2 in Hget by exact Hin. discriminate. }
  pose proof (GetInstantStore_loaded name version template w doc fields items
                Hnew Hdoc Hparse Hv Hitems) as Hl.
  rewrite Hget in Hl. cbn [snd] in Hl.
  destruct (settle _ _ _ _) as [items'| |] eqn:Hs; try discriminate.
  injection Hl as ->. exists items'.
  split; [|split; [eapply settle_keeps; eauto|split; [reflexivity|]]].
  - unfold Items. cbn [property]. rewrite own_replace_own, String.eqb_refl.
    rewrite Hitems. reflexivity.
  - intros key Hne. cbn [property]. rewrite own_replace_own.
    destruct (String.eqb "Items" key) eqn:E; [|reflexivity].
    apply String.eqb_eq in E. congruence.
Qed.

(** X24. The items of a store that [GetInstantStore] returns have every
    property of the template, at any depth, with a value of the same type
    as the template's. *)
Theorem instant_store_fills_defaults (name : string) (version : Q)
  (template : list (string * Json)) (force : bool) (w w1 : World)
  (store : Json) :
  GetInstantStore name version template force w = (w1, Normal store) ->
  unique_keys (JsonObject template) = true ->
  exists items,
    Items store = Some items
    /\ forall p want,
         follow (Some (JsonObject template)) p = Some want ->
         exists have,
           follow (Some items) p = Some have /\ typeof have = typeof want.
Proof.
  intros Hget Hu.
  destruct (GetInstantStore_returns _ _ _ _ _ _ _ Hget)
    as [->|(doc & fields & items & items' & _ & _ & _ & _ & _ & Hitems
            & Hs & ->)].
  - exists (JsonObject template). split; [reflexivity|]. eauto.
  - exists items'. split.
    + unfold Items. cbn [property]. rewrite own_replace_own, String.eqb_refl.
      rewrite Hitems. reflexivity.
    + apply fits_paths; [eapply settle_fits; eauto|].
      destruct (settle_object _ _ _ _ _ Hs) as [its ->]. reflexivity.
Qed.

(** X25. A store that [GetInstantStore] returned, saved with
    [SaveChanges] and retrieved again under the same version and template
    (in a page that has not retrieved it yet), is the store that was
    saved: the merge changes nothing the second time. *)
Theorem instant_store_reload (name : string) (version : Q)
  (template : list (string * Json)) (force : bool) (w w1 : World)
  (store : Json) :
  GetInstantStore name version template force w = (w1, Normal store) ->
  unique_keys (JsonObject template) = true ->
  JSON_parse (JSON_stringify store) = Some store ->
  forall w2 : World,
    name ∉ RetrievedInstantStores w2 ->
    snd (GetInstantStore name version template false
           (SaveChanges name store w2))
    = Normal store.
Proof.
  intros Hget Hu Hround w2 Hnew.
  assert (Hshape : exists fields items,
            store = JsonObject fields
            /\ is_number (own "Version" fields) version = true
            /\ own "Items" fields = Some (JsonObject items)
            /\ fits (JsonObject items) (JsonObject template)).
  { destruct (GetInstantStore_returns _ _ _ _ _ _ _ Hget)
      as [->|(doc & fields & items & items' & _ & _ & _ & _ & Hv & Hitems
              & Hs & ->)].
    - eexists _, template. split; [reflexivity|].
      split; [apply is_number_refl|]. split; [reflexivity|].
      apply fits_refl, Hu.
    - destruct (settle_object _ _ _ _ _ Hs) as [its ->].
      eexists _, its. split; [reflexivity|].
      rewrite !own_replace_own, String.eqb_refl, Hitems.
      split; [exact Hv|]. split; [reflexivity|].
      eapply settle_fits; eauto. }
  destruct Hshape as (fields & items & -> & Hv & Hitems & Hfits).
  rewrite (GetInstantStore_loaded name version template
             (SaveChanges name (JsonObject fields) w2)
             (JSON_stringify (JsonObject fields)) fields items).
  - rewrite (fits_settle _ _ _ _ Hfits (Nat.le_refl _)).
    rewrite (replace_own_same _ _ _ Hitems). reflexivity.
  - exact Hnew.
  - unfold SaveChanges. cbn [localStorage set_localStorage].
    apply lookup_insert_eq.
  - exact Hround.
  - exact Hv.
  - exact Hitems.
Qed.

(** X26. When a stored item has another type than the template has at the
    same path, [GetInstantStore] does not return a store. *)
Theorem instant_store_rejects_other_type (name : string) (version : Q)
  (template : list (string * Json)) (w : World) (doc : string)
  (fields items : list (string * Json)) (p : list string) (have want : Json) :
  localStorage w !! name = Some doc ->
  JSON_parse doc = Some (JsonObject fields) ->
  is_number (own "Version" fields) version = true ->
  own "Items" fields = Some (JsonObject items) ->
  unique_keys (JsonObject template) = true ->
  follow (Some (JsonObject items)) p = Some have ->
  follow (Some (JsonObject template)) p = Some want ->
  typeof have <> typeof want ->
  forall w1 store,
    GetInstantStore name version template false w <> (w1, Normal store).
Proof.
  intros Hdoc Hparse Hv Hitems Hu Hhave Hwant Hne w1 store Hget.
  assert (Hnew : name ∉ RetrievedInstantStores w).
  { intros Hin. unfold GetInstantStore in Hget.
    rewrite bool_decide_eq_true_2 in Hget by exact Hin. discriminate. }
  pose proof (GetInstantStore_loaded name version template w doc fields items
                Hnew Hdoc Hparse Hv Hitems) as Hl.
  rewrite Hget in Hl. cbn [snd] in Hl.
  destruct (settle _ _ _ _) as [items'| |] eqn:Hs; try discriminate.
  destruct (settle_keeps _ _ _ _ _ Hs p have Hhave) as (x & Hx & Ax).
  destruct (settle_object _ _ _ _ _ Hs) as [its ->].
  destruct (fits_paths _ _ (settle_fits _ _ _ _ _ Hs Hu) eq_refl p want Hwant)
    as (y & Hy & Ty).
  rewrite Hx in Hy. injection Hy as <-.
  apply Hne. rewrite <- Ty. symmetry. apply alike_typeof. exact Ax.
Qed.


End Merge.


(** * The stores: examples *)

Section StoreExamples.
Import Stores.

Lemma dynamic_store_items_separate_witness :
  includes ":" "lyrics" = false
  /\ GetDynamicStoreItem "lyrics" "size"
       (SetDynamicStoreItem "lyrics" "size" "14" sample_World)
     = Some "14"%string
  /\ GetDynamicStoreItem "lyrics" "font"
       (SetDynamicStoreItem "lyrics" "size" "14" sample_World)
     = None.
Proof.
  split; [reflexivity|]. split.
  - rewrite (dynamic_store_items_separate "lyrics" "size" "14" "lyrics" "size"
               sample_World) by reflexivity.
    vm_compute. reflexivity.
  - rewrite (dynamic_store_items_separate "lyrics" "size" "14" "lyrics" "font"
               sample_World) by reflexivity.
    vm_compute. reflexivity.
Defined.

Lemma expire_store_round_trip_witness :
  forceNewData sample_ExpireStore = false
  /\ (let '(w1, resolved) :=
        SetItem (H := sample_Host) sample_ExpireStore "cover"
          (JsonString "blob") Works 1000 sample_World in
      resolved = JsonString "blob"
      /\ GetItem (H := sample_Host) sample_ExpireStore "cover" Works 7201000 w1
         = (w1, Normal (Some (JsonString "blob")))
      /\ GetItem (H := sample_Host) sample_ExpireStore "cover" Works 7201001 w1
         = (w1, Normal None)).
Proof.
  split; [reflexivity|].
  pose proof (expire_store_round_trip (H := sample_Host) sample_ExpireStore
                "cover" (JsonString "blob") 1000 7201000 sample_World
                eq_refl ltac:(vm_compute; reflexivity)) as H1.
  pose proof (expire_store_round_trip (H := sample_Host) sample_ExpireStore
                "cover" (JsonString "blob") 1000 7201001 sample_World
                eq_refl ltac:(vm_compute; reflexivity)) as H2.
  destruct (SetItem _ _ _ _ _ _) as [w1 resolved].
  destruct H1 as [Hr H1], H2 as [_ H2].
  split; [exact Hr|]. split; [exact H1|exact H2].
Defined.

Lemma expire_store_other_version_witness :
  let reader := {| storeName := "covers"; version := 3;
                   itemExpirationSettings :=
                     {| Duration := 2; Unit := Hours |};
                   forceNewData := false |} in
  ~ version sample_ExpireStore == version reader
  /\ (let w1 := fst (SetItem (H := sample_Host) sample_ExpireStore "cover"
                       (JsonString "blob") Works 1000 sample_World) in
      GetItem (H := sample_Host) reader "cover" Works 2000 w1
      = (w1, Normal None)).
Proof.
  intros reader.
  assert (Hv : ~ version sample_ExpireStore == version reader)
    by (vm_compute; discriminate).
  split; [exact Hv|].
  apply (expire_store_other_version (H := sample_Host) sample_ExpireStore
           reader "cover" (JsonString "blob") 1000 2000 sample_World
           eq_refl eq_refl Hv).
  vm_compute. reflexivity.
Defined.

Lemma expire_store_failed_write_witness :
  OperationRejects <> Works
  /\ (let '(w1, resolved) :=
        SetItem (H := sample_Host) sample_ExpireStore "cover"
          (JsonString "blob") OperationRejects 1000 sample_World in
      resolved = JsonString "blob"
      /\ List.length (console w1) = 2%nat
      /\ forall later,
           snd (GetItem (H := sample_Host) sample_ExpireStore "cover" Works
                  later w1)
           = Normal None).
Proof.
  assert (Hf : OperationRejects <> Works) by discriminate.
  split; [exact Hf|].
  pose proof (expire_store_failed_write (H := sample_Host) sample_ExpireStore
                "cover" (JsonString "blob") OperationRejects 1000
                sample_World Hf) as Hw.
  destruct (SetItem _ _ _ _ _ _) as [w1 resolved].
  destruct Hw as (Hr & Hc & _ & _ & Hg).
  split; [exact Hr|]. split; [rewrite Hc; reflexivity|].
  intros later. rewrite Hg. vm_compute. reflexivity.
Defined.

Lemma expire_after_whole_duration_witness :
  expireAt (H := sample_Host) {| Duration := inject_Z 2; Unit := Hours |} 1000
  = Some 7201000%Z
  /\ expireAt (H := sample_Host) {| Duration := inject_Z 2; Unit := Minutes |}
       1000
     = Some 121000%Z
  /\ expireAt (H := sample_Host) {| Duration := inject_Z 2; Unit := Seconds |}
       1000
     = Some 3000%Z.
Proof.
  apply (expire_after_whole_duration (H := sample_Host) 2 1000). lia.
Defined.

Lemma instant_store_starts_from_template_witness :
  exists w1,
    GetInstantStore (H := sample_Host) "settings" 1 sample_template false
      sample_World
    = (w1, Normal (JsonObject [("Version", JsonNumber 1);
                               ("Items", JsonObject sample_template)])).
Proof.
  destruct (instant_store_starts_from_template (H := sample_Host) "settings"
              1 sample_template false sample_World)
    as (w1 & store & Hget & -> & _).
  - apply (bool_decide_unpack _). vm_compute. reflexivity.
  - right. left. vm_compute. reflexivity.
  - exists w1. exact Hget.
Defined.

Lemma instant_store_keeps_stored_values_witness :
  exists w1 store items',
    GetInstantStore (H := sample_Host) "settings" 1 sample_template false
      sample_saved
    = (w1, Normal store)
    /\ Items store = Some items'
    /\ follow (Some items') ["theme"; "dark"] = Some (JsonBool false)
    /\ follow (Some items') ["theme"; "accent"] = Some (JsonString "red").
Proof.
  evar (w1 : World). evar (store : Json).
  assert (Hget : GetInstantStore (H := sample_Host) "settings" 1
                   sample_template false sample_saved
                 = (w1, Normal store))
    by (subst w1 store; vm_compute; reflexivity).
  destruct (instant_store_keeps_stored_values (H := sample_Host) "settings" 1
              sample_template sample_saved w1
              (sample_stringify sample_stored) _ _ store
              ltac:(vm_compute; reflexivity) ltac:(vm_compute; reflexivity)
              ltac:(vm_compute; reflexivity) ltac:(vm_compute; reflexivity)
              Hget)
    as (items' & HI & Hk & _).
  exists w1, store, items'. split; [exact Hget|]. split; [exact HI|].
  destruct (Hk ["theme"; "dark"] _ eq_refl) as (v & Hv & Av).
  cbn in Av. subst v. split; [exact Hv|].
  subst store. vm_compute in HI. injection HI as <-. vm_compute. reflexivity.
Defined.

Lemma instant_store_fills_defaults_witness :
  exists w1 store items have,
    GetInstantStore (H := sample_Host) "settings" 1 sample_template false
      sample_saved
    = (w1, Normal store)
    /\ Items store = Some items
    /\ follow (Some items) ["theme"; "accent"] = Some have
    /\ typeof have = "string"%string.
Proof.
  evar (w1 : World). evar (store : Json).
  assert (Hget : GetInstantStore (H := sample_Host) "settings" 1
                   sample_template false sample_saved
                 = (w1, Normal store))
    by (subst w1 store; vm_compute; reflexivity).
  destruct (instant_store_fills_defaults (H := sample_Host) "settings" 1
              sample_template false sample_saved w1 store Hget
              ltac:(vm_compute; reflexivity))
    as (items & HI & Hp).
  destruct (Hp ["theme"; "accent"] (JsonString "red") eq_refl)
    as (have & Hh & Ht).
  exists w1, store, items, have. auto.
Defined.

Lemma instant_store_reload_witness :
  exists w1 store,
    GetInstantStore (H := sample_Host) "settings" 1 sample_template false
      sample_saved
    = (w1, Normal store)
    /\ snd (GetInstantStore (H := sample_Host) "settings" 1 sample_template
              false
              (SaveChanges (H := sample_Host) "settings" store sample_World))
       = Normal store.
Proof.
  evar (w1 : World). evar (store : Json).
  assert (Hget : GetInstantStore (H := sample_Host) "settings" 1
                   sample_template false sample_saved
                 = (w1, Normal store))
    by (subst w1 store; vm_compute; reflexivity).
  exists w1, store. split; [exact Hget|].
  apply (instant_store_reload (H := sample_Host) "settings" 1 sample_template
           false sample_saved w1 store Hget).
  - vm_compute. reflexivity.
  - subst store. vm_compute. reflexivity.
  - apply (bool_decide_unpack _). vm_compute. reflexivity.
Defined.

Lemma instant_store_rejects_other_type_witness :
  let stored :=
    JsonObject [("Version", JsonNumber 1);
                ("Items", JsonObject [("volume", JsonString "loud")])] in
  typeof (JsonString "loud") <> typeof (JsonNumber 5)
  /\ forall w1 store,
       GetInstantStore (H := sample_Host) "settings" 1 sample_template false
         (SaveChanges (H := sample_Host) "settings" stored sample_World)
       <> (w1, Normal store).
Proof.
  intros stored.
  assert (Ht : typeof (JsonString "loud") <> typeof (JsonNumber 5))
    by discriminate.
  split; [exact Ht|].
  apply (instant_store_rejects_other_type (H := sample_Host) "settings" 1
           sample_template
           (SaveChanges (H := sample_Host) "settings" stored sample_World)
           (sample_stringify stored) _ _ ["volume"] _ _
           ltac:(vm_compute; reflexivity) ltac:(vm_compute; reflexivity)
           ltac:(vm_compute; reflexivity) ltac:(vm_compute; reflexivity)
           ltac:(vm_compute; reflexivity) ltac:(vm_compute; reflexivity)
           ltac:(vm_compute; reflexivity) Ht).
Defined.

End StoreExamples.

